(** * Context pruning engine: a shallow embedding and its properties

    This development embeds the selection engine ([PruningEngine]), the
    hierarchical summarizer ([Summarizer]), the lexical ranker
    ([BM25Scorer]) and the redundancy analysis of [ContextAnalyzer] as Rocq
    functions, and settles the properties stated about them.

    Conventions of the embedding.
    - A JavaScript [number] holding a count (token counts, indices, lengths)
      is a [Z]; a [number] holding a ratio or a score is a [Q]; the scores of
      the lexical ranker, which go through [Math.log], are real numbers or
      [NaN]. In the budget correction of the selection engine (the product
      [maxTokens * preserveRatio] and the floor of
      [length * preserveRatio]) and in the average importance (a sum of
      scores and its quotient) the operations round as IEEE doubles do
      ([toDouble]); elsewhere a single product or quotient is kept as the
      exact ratio. A division by zero, which the guards of the code exclude
      wherever its result is used, yields [0] as in [Q].
    - A JavaScript string is a [string] of ASCII characters; [length]
      counts characters.
    - An array is a [list]; [push] appends at the end.
    - [Array.prototype.sort] is stable (ECMAScript 2019), so for the
      comparators used here its result is the one of a stable insertion
      sort. *)

From Stdlib Require Import ZArith QArith Qround Lia Permutation Ascii.
From Stdlib Require Import Reals Qreals Lra.
From stdpp Require Import base list strings gmap sorting.

Local Open Scope Z_scope.

(** ** JavaScript helpers *)

(** [a.sort(cmp)]: [after x y] tells that [cmp(x, y) > 0], that is, that
    [x] must come after [y]. Elements are inserted from the right, and an
    element only moves past those that must come before it: ties keep the
    order of the input. *)
Fixpoint insertSorted {A : Type} (after : A -> A -> bool) (x : A) (l : list A)
  : list A :=
  match l with
  | [] => [x]
  | y :: l' => if after x y then y :: insertSorted after x l' else x :: l
  end.

Definition jsSort {A : Type} (after : A -> A -> bool) (l : list A) : list A :=
  foldr (insertSorted after) [] l.

(** [a.splice(start)]: removes the elements from [start] to the end of the
    array and returns them. A negative [start] counts from the end, a
    [start] past the end removes nothing. The result is
    [(what is left in a, what was removed)]. *)
Definition spliceFrom {A : Type} (l : list A) (start : Z) : list A * list A :=
  let len := Z.of_nat (length l) in
  let k := if start <? 0 then Z.max (len + start) 0 else Z.min start len in
  (take (Z.to_nat k) l, drop (Z.to_nat k) l).

(** [x > y] on ratios. *)
Definition Qgtb (x y : Q) : bool := negb (Qle_bool x y).

(** [x < y] on ratios. *)
Definition Qltb (x y : Q) : bool := negb (Qle_bool y x).

(** *** Numbers in double precision

    A [number] is an IEEE 754 binary64 float: a significand of 53 bits
    times a power of two. [toDouble q] is the float nearest to the ratio
    [q], with ties going to the even significand, and an operation on
    floats is the exact operation followed by [toDouble]. The model covers
    the normal range (neither overflow nor subnormal numbers), which the
    token counts, the ratios and the scores of the code do not leave. *)

(** [2 ^ e], also for a negative exponent. *)
Definition pow2 (e : Z) : Q :=
  if 0 <=? e then inject_Z (2 ^ e) else / inject_Z (2 ^ (- e)).

(** The exponent [e] with [2 ^ e <= q < 2 ^ (e + 1)], for [q > 0]: the
    difference of the binary logarithms of numerator and denominator, or
    one less. *)
Definition binade (q : Q) : Z :=
  let k := Z.log2 (Qnum q) - Z.log2 (Zpos (Qden q)) in
  if Qle_bool (pow2 k) q then k else k - 1.

(** The nearest integer, the even one of two nearest. *)
Definition roundHalfEven (q : Q) : Z :=
  let f := Qfloor q in
  match (q - inject_Z f ?= 1 # 2)%Q with
  | Lt => f
  | Gt => f + 1
  | Eq => if Z.even f then f else f + 1
  end.

(** The float nearest to [q > 0]: [q] is scaled into [2 ^ 52, 2 ^ 53),
    rounded to an integer and scaled back. *)
Definition roundPositive (q : Q) : Q :=
  let e := binade q - 52 in
  (inject_Z (roundHalfEven (q / pow2 e)) * pow2 e)%Q.

Definition toDouble (q : Q) : Q :=
  Qred match Qnum q with
       | 0 => 0%Q
       | Z.pos _ => roundPositive q
       | Z.neg _ => (- roundPositive (- q))%Q
       end.

(** [x * y], [x + y] and [x / y] on floats. *)
Definition doubleMul (x y : Q) : Q := toDouble (toDouble x * toDouble y).
Definition doubleAdd (x y : Q) : Q := toDouble (toDouble x + toDouble y).
Definition doubleDiv (x y : Q) : Q := toDouble (toDouble x / toDouble y).

(** The character classes [\s] and [\w] of regular expressions, on ASCII. *)
Definition isSpace (c : ascii) : bool :=
  let n := N_of_ascii c in
  ((n =? 32) || ((9 <=? n) && (n <=? 13)))%N.

Definition isWord (c : ascii) : bool :=
  let n := N_of_ascii c in
  (((48 <=? n) && (n <=? 57)) || ((65 <=? n) && (n <=? 90)) || (n =? 95)
   || ((97 <=? n) && (n <=? 122)))%N.

Definition lowerChar (c : ascii) : ascii :=
  let n := N_of_ascii c in
  if ((65 <=? n) && (n <=? 90))%N then ascii_of_N (n + 32) else c.

(** [s.toLowerCase()] *)
Fixpoint toLowerCase (s : string) : string :=
  match s with
  | EmptyString => EmptyString
  | String c s' => String (lowerChar c) (toLowerCase s')
  end.

(** [s.includes(sub)] *)
Fixpoint includes (s sub : string) : bool :=
  String.prefix sub s
  || match s with
     | EmptyString => false
     | String _ s' => includes s' sub
     end.

Fixpoint dropSpaces (l : list ascii) : list ascii :=
  match l with
  | c :: l' => if isSpace c then dropSpaces l' else l
  | [] => []
  end.

Fixpoint dropNonWord (l : list ascii) : list ascii :=
  match l with
  | c :: l' => if isWord c then l else dropNonWord l'
  | [] => []
  end.

(** [s.trim()] *)
Definition trim (s : string) : string :=
  String.string_of_list_ascii
    (rev (dropSpaces (rev (dropSpaces (String.list_ascii_of_string s))))).

(** [s.replace(/\s+/g, ' ')]: every run of white space becomes one blank.
    [inRun] tells that the previous character was white space. *)
Fixpoint collapseFrom (inRun : bool) (l : list ascii) : list ascii :=
  match l with
  | [] => []
  | c :: l' =>
      if isSpace c then
        if inRun then collapseFrom true l' else " "%char :: collapseFrom true l'
      else c :: collapseFrom false l'
  end.

Definition collapseSpaces (s : string) : string :=
  String.string_of_list_ascii (collapseFrom false (String.list_ascii_of_string s)).

(** [s.replace(/^[^\w]+|[^\w]+$/g, '')] *)
Definition stripNonWordEnds (s : string) : string :=
  String.string_of_list_ascii
    (rev (dropNonWord (rev (dropNonWord (String.list_ascii_of_string s))))).

(** [s.replace(/[^\w\s]/g, '')] *)
Definition stripPunctuation (s : string) : string :=
  String.string_of_list_ascii
    (filter (fun c => isWord c || isSpace c = true) (String.list_ascii_of_string s)).

(** [s.lastIndexOf(c)], [-1] when [c] does not occur. *)
Fixpoint lastIndexOfFrom (c : ascii) (s : string) (i found : Z) : Z :=
  match s with
  | EmptyString => found
  | String a s' =>
      lastIndexOfFrom c s' (i + 1) (if Ascii.eqb a c then i else found)
  end.

Definition lastIndexOf (s : string) (c : ascii) : Z := lastIndexOfFrom c s 0 (-1).

(** [l.join(sep)] *)
Definition join (sep : string) (l : list string) : string := String.concat sep l.

(** [set.add(x)] on an insertion-ordered [Set], kept as the list of its
    elements in insertion order. *)
Definition setAdd (x : string) (l : list string) : list string :=
  if bool_decide (x ∈ l) then l else l ++ [x].

(** [Math.ceil(n / 4)] for a length [n]. *)
Definition ceilDiv4 (n : nat) : Z := (Z.of_nat n + 3) / 4.

(** [Number.MAX_SAFE_INTEGER] *)
Definition MAX_SAFE_INTEGER : Z := 2 ^ 53 - 1.

(** ** The data model (types.ts) *)

Inductive MessageType :=
  | query | code_change | file_operation | error | success | tool_use
  | summary.

Inductive Role := user | assistant | system.

Inductive SummaryLevel := immediate | session | project.

Global Instance MessageType_eq_dec : EqDecision MessageType.
Proof. solve_decision. Defined.
Global Instance Role_eq_dec : EqDecision Role.
Proof. solve_decision. Defined.
Global Instance SummaryLevel_eq_dec : EqDecision SummaryLevel.
Proof. solve_decision. Defined.

Record CodeBlock := {
  language : string;
  code : string;
  startLine : option Z;
  endLine : option Z;
  filePath : option string
}.

Record ImportanceScore := {
  total : Q;
  recency : Q;
  semantic : Q;
  references : Q;
  fileRelevance : Q;
  coherence : option Q;
  computed : Z
}.

Record MessageMetadata := {
  tokenCount : Z;
  fileReferences : list string;
  codeBlocks : list CodeBlock;
  hasError : bool;
  toolsUsed : list string;
  importance : option ImportanceScore
}.

Record ConversationMessage := {
  id : string;
  timestamp : Z;
  type : MessageType;
  role : Role;
  content : string;
  metadata : MessageMetadata
}.

Record PruningStrategy := {
  name : string;
  maxTokens : Z;
  preserveRatio : Q;
  summaryRatio : Q;
  importanceThreshold : Q;
  alwaysPreserve : list MessageType
}.

Record Summary := {
  summaryId : string;
  level : SummaryLevel;
  summaryContent : string;
  originalMessageIds : list string;
  tokensSaved : Z;
  summaryTimestamp : Z
}.

Record RollbackData := {
  pruningId : string;
  removedMessages : list ConversationMessage;
  originalOrder : list string;
  rollbackTimestamp : Z
}.

Record ToolResultContext := {
  toolName : string;
  executionId : string;
  inputTokens : Z;
  outputTokens : Z;
  relevanceScore : Q
}.

Record SystemContext := {
  systemInstructions : string;
  claudeMdContent : string;
  workingDirectory : string;
  systemTotalTokens : Z
}.

Record ConversationContext := {
  messages : list ConversationMessage;
  totalTokens : Z;
  activeFiles : list string;
  sessionStartTime : Z;
  systemContext : option SystemContext;
  toolResultHistory : option (list ToolResultContext)
}.

Record PruningResult := {
  originalTokens : Z;
  finalTokens : Z;
  reductionPercent : Q;
  messagesRemoved : Z;
  messagesSummarized : Z;
  summariesCreated : list Summary;
  rollbackData : RollbackData
}.

Record ScoringWeights := {
  w_recency : Q;
  w_semantic : Q;
  w_references : Q;
  w_fileRelevance : Q;
  w_coherence : Q
}.

Record HybridScoringConfig := {
  bm25Weight : Q;
  transformerWeight : Q;
  contextualWeight : Q
}.

Record ScoringProfile := {
  profileName : string;
  weights : ScoringWeights;
  semanticKeywords : list string;
  typeWeights : MessageType -> Q;
  coherenceThreshold : Q;
  bm25Parameters : Q * Q;
  hybridScoring : HybridScoringConfig
}.

(** [DEFAULT_SCORING_PROFILES.technical] *)
Definition technicalProfile : ScoringProfile :=
  {| profileName := "technical";
     weights := {| w_recency := 2 # 10; w_semantic := 4 # 10;
                   w_references := 2 # 10; w_fileRelevance := 15 # 100;
                   w_coherence := 5 # 100 |};
     semanticKeywords :=
       ["error"; "bug"; "fix"; "implement"; "create"; "update"; "delete";
        "refactor"; "test"; "deploy"; "config"; "install"; "import"; "export";
        "function"; "class"; "method"; "variable"; "constant"; "interface";
        "type"; "debug"; "compile"; "build"; "package"; "dependency";
        "version"; "branch"; "commit"; "merge"];
     typeWeights := fun t =>
       match t with
       | error => 1 | code_change => 95 # 100 | file_operation => 9 # 10
       | tool_use => 8 # 10 | query => 6 # 10 | success => 4 # 10
       | summary => 3 # 10
       end%Q;
     coherenceThreshold := 7 # 10;
     bm25Parameters := (15 # 10, 75 # 100)%Q;
     hybridScoring := {| bm25Weight := 4 # 10; transformerWeight := 4 # 10;
                         contextualWeight := 2 # 10 |} |}.

(** [DEFAULT_STRATEGIES] *)
Definition aggressiveStrategy : PruningStrategy :=
  {| name := "aggressive"; maxTokens := 50000; preserveRatio := 3 # 10;
     summaryRatio := 4 # 10; importanceThreshold := 7 # 10;
     alwaysPreserve := [error; code_change] |}.

Definition balancedStrategy : PruningStrategy :=
  {| name := "balanced"; maxTokens := 75000; preserveRatio := 5 # 10;
     summaryRatio := 3 # 10; importanceThreshold := 5 # 10;
     alwaysPreserve := [error; code_change; file_operation] |}.

Definition conservativeStrategy : PruningStrategy :=
  {| name := "conservative"; maxTokens := 100000; preserveRatio := 7 # 10;
     summaryRatio := 2 # 10; importanceThreshold := 3 # 10;
     alwaysPreserve := [error; code_change; file_operation; tool_use] |}.

(** [{ ...message, metadata: { ...message.metadata, importance } }] *)
Definition withImportance (s : ImportanceScore) (m : ConversationMessage)
  : ConversationMessage :=
  {| id := id m; timestamp := timestamp m; type := type m; role := role m;
     content := content m;
     metadata :=
       {| tokenCount := tokenCount (metadata m);
          fileReferences := fileReferences (metadata m);
          codeBlocks := codeBlocks (metadata m);
          hasError := hasError (metadata m);
          toolsUsed := toolsUsed (metadata m);
          importance := Some s |} |}.

(** [message.metadata.importance?.total ?? 0] *)
Definition importanceTotal (m : ConversationMessage) : Q :=
  match importance (metadata m) with
  | Some s => total s
  | None => 0%Q
  end.

Definition tokens (m : ConversationMessage) : Z := tokenCount (metadata m).

(** The identifiers of a list of messages, as a set. *)
Definition idSet (l : list ConversationMessage) : gset string :=
  list_to_set (map id l).

(** ** The hierarchical summarizer (summarizer.ts) *)

(** [SUMMARY_PATTERNS]: each field gives, for a content, the list of the
    matches of the corresponding regular expression ([content.match(re)],
    the empty list standing for [null]). The regular-expression engine is
    not part of the program. *)
Record SummaryPatterns := {
  codeChanges : string -> list string;
  errors : string -> list string;
  fileOperations : string -> list string;
  tools : string -> list string
}.

(** The identifiers and time stamps drawn while summaries are created:
    the [k]-th summary gets [generateSummaryId k] and [dateNow k]. *)
Record SummaryClock := {
  generateSummaryId : nat -> string;
  dateNow : nat -> Z
}.

Module Summarizer.

(** [MAX_SUMMARY_LENGTH] *)
Definition MAX_SUMMARY_LENGTH (level : SummaryLevel) : Z :=
  match level with
  | immediate => 200
  | session => 500
  | project => 1000
  end.

(** *** Segmentation *)

Definition Segmentation : Type :=
  list (list ConversationMessage) * list ConversationMessage.

(** The last, unfinished segment is kept when it is not empty. *)
Definition closeSegments (st : Segmentation) : list (list ConversationMessage) :=
  let '(segments, currentSegment) := st in
  if (0 <? length currentSegment)%nat then segments ++ [currentSegment]
  else segments.

Definition interactionStep (st : Segmentation) (message : ConversationMessage)
  : Segmentation :=
  let '(segments, currentSegment) := st in
  let currentSegment := currentSegment ++ [message] in
  if bool_decide (role message = assistant)
     && (2 <=? length currentSegment)%nat
     && existsb (fun m => bool_decide (role m = user)) currentSegment
  then (segments ++ [currentSegment], [])
  else (segments, currentSegment).

(** [segmentByInteraction] *)
Definition segmentByInteraction (messages : list ConversationMessage)
  : list (list ConversationMessage) :=
  closeSegments (foldl interactionStep ([], []) messages).

(** [hasSignificantFileContextChange]: Jaccard similarity below 0.3. *)
Definition hasSignificantFileContextChange (oldFiles newFiles : gset string)
  : bool :=
  if (size oldFiles =? 0)%nat then false
  else
    let intersection := oldFiles ∩ newFiles in
    let union := oldFiles ∪ newFiles in
    let jaccardSimilarity :=
      (inject_Z (Z.of_nat (size intersection))
       / inject_Z (Z.of_nat (size union)))%Q in
    Qltb jaccardSimilarity (3 # 10).

(** The size cap of a topic segment. *)
Definition TOPIC_SEGMENT_CAP : nat := 10.

Definition topicStep (st : Segmentation * gset string)
  (message : ConversationMessage) : Segmentation * gset string :=
  let '((segments, currentSegment), lastFiles) := st in
  let messageFiles : gset string :=
    list_to_set (fileReferences (metadata message)) in
  let hasFileContextChange :=
    hasSignificantFileContextChange lastFiles messageFiles in
  let '(segments, currentSegment) :=
    if hasFileContextChange && (0 <? length currentSegment)%nat
    then (segments ++ [currentSegment], [])
    else (segments, currentSegment) in
  let currentSegment := currentSegment ++ [message] in
  let lastFiles := lastFiles ∪ messageFiles in
  if (TOPIC_SEGMENT_CAP <=? length currentSegment)%nat
  then ((segments ++ [currentSegment], []), ∅)
  else ((segments, currentSegment), lastFiles).

(** [segmentByTopic] *)
Definition segmentByTopic (messages : list ConversationMessage)
  : list (list ConversationMessage) :=
  closeSegments (fst (foldl topicStep (([], []), ∅) messages)).

(** [fileGroups.get(primaryFile)?.push(message)] on the insertion-ordered
    map of the groups. *)
Fixpoint addToGroup (primaryFile : string) (message : ConversationMessage)
  (fileGroups : list (string * list ConversationMessage))
  : list (string * list ConversationMessage) :=
  match fileGroups with
  | [] => [(primaryFile, [message])]
  | (f, g) :: rest =>
      if String.eqb f primaryFile then (f, g ++ [message]) :: rest
      else (f, g) :: addToGroup primaryFile message rest
  end.

Definition fileContextStep
  (st : list (string * list ConversationMessage) * list ConversationMessage)
  (message : ConversationMessage)
  : list (string * list ConversationMessage) * list ConversationMessage :=
  let '(fileGroups, generalMessages) := st in
  match fileReferences (metadata message) with
  | primaryFile :: _ =>
      (* [if (primaryFile)]: an empty path is falsy, the message is dropped *)
      if String.eqb primaryFile "" then st
      else (addToGroup primaryFile message fileGroups, generalMessages)
  | [] => (fileGroups, generalMessages ++ [message])
  end.

(** [segmentByFileContext] *)
Definition segmentByFileContext (messages : list ConversationMessage)
  : list (list ConversationMessage) :=
  let '(fileGroups, generalMessages) := foldl fileContextStep ([], []) messages in
  let segments := map snd fileGroups in
  if (0 <? length generalMessages)%nat then generalMessages :: segments
  else segments.

(** [segmentConversation] *)
Definition segmentConversation (messages : list ConversationMessage)
  (level : SummaryLevel) : list (list ConversationMessage) :=
  match level with
  | immediate => segmentByInteraction messages
  | session => segmentByTopic messages
  | project => segmentByFileContext messages
  end.

(** *** Summary text *)

(** [cleanExtractedText] *)
Definition cleanExtractedText (text : string) : string :=
  toLowerCase (stripNonWordEnds (collapseSpaces (trim text))).

(** [truncateSummary] *)
Definition truncateSummary (summary : string) (maxLength : Z) : string :=
  if Z.of_nat (String.length summary) <=? maxLength then summary
  else
    let truncated := String.substring 0 (Z.to_nat maxLength) summary in
    let lastSentenceEnd :=
      Z.max (Z.max (lastIndexOf truncated ".") (lastIndexOf truncated "!"))
            (lastIndexOf truncated "?") in
    if Qgtb (inject_Z lastSentenceEnd) (inject_Z maxLength * (7 # 10))
    then String.substring 0 (Z.to_nat (lastSentenceEnd + 1)) truncated
    else truncated +:+ "...".

Definition activitiesOf (activities : list string) (message : ConversationMessage)
  : list string :=
  let content := toLowerCase (content message) in
  let activities :=
    if includes content "implement" || includes content "create"
    then setAdd "implementation" activities else activities in
  let activities :=
    if includes content "fix" || includes content "debug"
    then setAdd "debugging" activities else activities in
  let activities :=
    if includes content "refactor" || includes content "improve"
    then setAdd "refactoring" activities else activities in
  let activities :=
    if includes content "test" || includes content "verify"
    then setAdd "testing" activities else activities in
  if (0 <? length (toolsUsed (metadata message)))%nat
  then setAdd "tool usage" activities else activities.

(** [extractActivities] *)
Definition extractActivities (messages : list ConversationMessage) : list string :=
  foldl activitiesOf [] messages.

(** [determineOutcome] *)
Definition determineOutcome (messages : list ConversationMessage) : string :=
  match last messages with
  | None => ""
  | Some lastMessage =>
      if hasError (metadata lastMessage) then "unresolved"
      else if bool_decide (type lastMessage = success)
              || includes (toLowerCase (content lastMessage)) "complete"
              || includes (toLowerCase (content lastMessage)) "done"
      then "completed successfully"
      else if bool_decide (type lastMessage = code_change)
      then "implemented changes"
      else "in progress"
  end.

(** [calculateTokensSaved] *)
Definition calculateTokensSaved (originalMessages : list ConversationMessage)
  (summaryContent : string) : Z :=
  let originalTokens := foldl (fun sum msg => sum + tokens msg) 0 originalMessages in
  let summaryTokens := ceilDiv4 (String.length summaryContent) in
  Z.max 0 (originalTokens - summaryTokens).

Section WithPatterns.

Variable SUMMARY_PATTERNS : SummaryPatterns.

Definition codeBlockChange (changes : list string) (codeBlock : CodeBlock)
  : list string :=
  match filePath codeBlock with
  | Some path =>
      (* [if (codeBlock.filePath)]: an empty path is falsy *)
      if String.eqb path "" then setAdd (language codeBlock +:+ " code") changes
      else setAdd ("modified " +:+ path) changes
  | None => setAdd (language codeBlock +:+ " code") changes
  end.

(** [extractCodeChanges] *)
Definition extractCodeChanges (messages : list ConversationMessage) : list string :=
  take 5
    (foldl
       (fun changes message =>
          let changes :=
            foldl (fun changes m => setAdd (cleanExtractedText m) changes)
              changes (codeChanges SUMMARY_PATTERNS (content message)) in
          foldl codeBlockChange changes (codeBlocks (metadata message)))
       [] messages).

(** [extractFileOperations] *)
Definition extractFileOperations (messages : list ConversationMessage)
  : list string :=
  take 3
    (foldl
       (fun operations message =>
          let operations :=
            foldl (fun operations m => setAdd (cleanExtractedText m) operations)
              operations (fileOperations SUMMARY_PATTERNS (content message)) in
          foldl (fun operations file => setAdd ("worked on " +:+ file) operations)
            operations (fileReferences (metadata message)))
       [] messages).

(** [extractErrors] *)
Definition extractErrors (messages : list ConversationMessage) : list string :=
  take 2
    (foldl
       (fun errs message =>
          if hasError (metadata message) then
            foldl (fun errs m => setAdd (cleanExtractedText m) errs)
              errs (errors SUMMARY_PATTERNS (content message))
          else errs)
       [] messages).

(** The text of [generateSummaryContent] before truncation. *)
Definition assembleSummary (messages : list ConversationMessage) : string :=
  let activities := extractActivities messages in
  let codeChanges := extractCodeChanges messages in
  let fileOperations := extractFileOperations messages in
  let errors := extractErrors messages in
  let summary := "" in
  let summary :=
    if (0 <? length activities)%nat
    then summary +:+ "Activities: " +:+ join ", " activities +:+ ". "
    else summary in
  let summary :=
    if (0 <? length codeChanges)%nat
    then summary +:+ "Code changes: " +:+ join ", " codeChanges +:+ ". "
    else summary in
  let summary :=
    if (0 <? length fileOperations)%nat
    then summary +:+ "File operations: " +:+ join ", " fileOperations +:+ ". "
    else summary in
  let summary :=
    if (0 <? length errors)%nat
    then summary +:+ "Errors encountered: " +:+ join ", " errors +:+ ". "
    else summary in
  let outcome := determineOutcome messages in
  if String.eqb outcome "" then summary
  else summary +:+ "Outcome: " +:+ outcome.

(** [generateSummaryContent] *)
Definition generateSummaryContent (messages : list ConversationMessage)
  (level : SummaryLevel) : string :=
  truncateSummary (assembleSummary messages) (MAX_SUMMARY_LENGTH level).

Variable clock : SummaryClock.

(** [createSummary], for the [k]-th summary created; [None] is [null]. *)
Definition createSummary (k : nat) (messages : list ConversationMessage)
  (level : SummaryLevel) : option Summary :=
  if (length messages =? 0)%nat then None
  else
    let summaryContent := generateSummaryContent messages level in
    if String.eqb (trim summaryContent) "" then None
    else
      Some {| summaryId := generateSummaryId clock k;
              level := level;
              summaryContent := summaryContent;
              originalMessageIds := map id messages;
              tokensSaved := calculateTokensSaved messages summaryContent;
              summaryTimestamp := dateNow clock k |}.

(** [createSummaries], on the messages of the context. *)
Definition createSummaries (messages : list ConversationMessage)
  (level : SummaryLevel) : list Summary :=
  let segments := segmentConversation messages level in
  foldl
    (fun summaries segment =>
       match createSummary (length summaries) segment level with
       | Some created => summaries ++ [created]
       | None => summaries
       end)
    [] segments.

End WithPatterns.

End Summarizer.

(** ** The lexical ranker (services/bm25-scorer.ts) *)

(** The two text-processing packages the ranker imports: [removeStopwords]
    of [stopword] and [PorterStemmer.stem] of [natural]. *)
Record Linguistics := {
  removeStopwords : list string -> list string;
  stem : string -> string
}.

(** A score of the ranker: a real number or [NaN]. Infinities do not arise:
    [Math.log] is never applied to zero, since [N - n + 0.5] is not an
    integer. *)
Inductive Num := NaN | Fin (r : R).

(** [x + y], [x * y], [x / y], [Math.max(x, y)] and [Math.min(x, y)]:
    [NaN] is absorbing. *)
Definition numAdd (x y : Num) : Num :=
  match x, y with Fin a, Fin b => Fin (a + b) | _, _ => NaN end.
Definition numMul (x y : Num) : Num :=
  match x, y with Fin a, Fin b => Fin (a * b) | _, _ => NaN end.
Definition numDiv (x y : Num) : Num :=
  match x, y with Fin a, Fin b => Fin (a / b) | _, _ => NaN end.
Definition numMax (x y : Num) : Num :=
  match x, y with Fin a, Fin b => Fin (Rmax a b) | _, _ => NaN end.
Definition numMin (x y : Num) : Num :=
  match x, y with Fin a, Fin b => Fin (Rmin a b) | _, _ => NaN end.

(** [Math.log(x)] of a ratio: [NaN] below zero. *)
Definition mathLog (x : Q) : Num :=
  if Qgtb x 0 then Fin (ln (Q2R x)) else NaN.

(** What a table of counts holds under a term. The tables are plain
    objects ([{}]), so a term that the table does not hold reads as what
    [Object.prototype] holds under that name: a function for
    ["constructor"], the prototype itself for ["__proto__"], and
    [undefined] for a term that is no property of [Object.prototype].
    [(table[term] || 0) + 1] is the next number after a number and a
    string such as ["function Object() { [native code] }1"] after a
    function or an object: not a number, and not a number after a further
    [+ 1] either. *)
Inductive Entry := Number (n : Z) | NotNumber.

Coercion Number : Z >-> Entry.

Module BM25Scorer.

(** [Object.getOwnPropertyNames(Object.prototype)] *)
Definition objectPrototypeKeys : list string :=
  ["constructor"; "__defineGetter__"; "__defineSetter__"; "hasOwnProperty";
   "__lookupGetter__"; "__lookupSetter__"; "isPrototypeOf";
   "propertyIsEnumerable"; "toString"; "valueOf"; "__proto__";
   "toLocaleString"].

Record DocumentStats := {
  termFreq : gmap string Entry;
  totalTerms : Z;
  normalizedLength : Q
}.

(** *** Tokenization *)

Definition str (cur : list ascii) : string :=
  String.string_of_list_ascii (rev cur).

(** [s.split(/\s+/)]: [cur] is the piece being read, backwards. *)
Fixpoint splitFrom (cur : list ascii) (inRun : bool) (l : list ascii)
  : list string :=
  match l with
  | [] => [str cur]
  | c :: l' =>
      if isSpace c then
        if inRun then splitFrom [] true l' else str cur :: splitFrom [] true l'
      else splitFrom (c :: cur) false l'
  end.

Definition splitSpaces (s : string) : list string :=
  splitFrom [] false (String.list_ascii_of_string s).

(** [s.replace(/[^\w\s]/g, ' ')] *)
Definition blankPunctuation (s : string) : string :=
  String.string_of_list_ascii
    (map (fun c => if isWord c || isSpace c then c else " "%char)
       (String.list_ascii_of_string s)).

Definition tokenize (text : string) : list string :=
  filter (fun token => (1 < String.length token)%nat)
    (splitSpaces (blankPunctuation (toLowerCase text))).

(** [preprocessText] *)
Definition preprocessText (ling : Linguistics) (text : string) : list string :=
  map (stem ling) (removeStopwords ling (tokenize text)).

(** *** The mutable state

    The fields [documentStats] and [globalTermFreq] of a scorer hold
    references: an array of document statistics and an object used as a
    table from terms to counts. Both live in a store, so that keeping an
    old reference and rebinding the field are told apart from updating the
    array or the table in place. *)

Definition loc := positive.

Record Heap := {
  arrays : gmap loc (list DocumentStats);
  objects : gmap loc (gmap string Entry)
}.

Record Fields := {
  k1 : Q;
  b : Q;
  documentStats : loc;
  globalTermFreq : loc;
  averageDocLength : Q;
  totalDocuments : Z
}.

Record State := { heap : Heap; this : Fields }.

(** Computations on a scorer. *)
Definition M (A : Type) : Type := State -> A * State.

Global Instance M_ret : MRet M := fun A (x : A) st => (x, st).
Global Instance M_bind : MBind M := fun A B (f : A -> M B) (m : M A) st =>
  let '(x, st') := m st in f x st'.

Definition get : M State := fun st => (st, st).
Definition setThis (f : Fields) : M unit :=
  fun st => (tt, {| heap := heap st; this := f |}).
Definition setHeap (h : Heap) : M unit :=
  fun st => (tt, {| heap := h; this := this st |}).

Fixpoint forEach {A : Type} (body : A -> M unit) (l : list A) : M unit :=
  match l with
  | [] => mret tt
  | x :: l' => body x ;; forEach body l'
  end.

(** The array and the table behind a reference; a dangling reference reads
    as empty. *)
Definition arrayAt (h : Heap) (l : loc) : list DocumentStats :=
  default [] (arrays h !! l).
Definition objectAt (h : Heap) (l : loc) : gmap string Entry :=
  default ∅ (objects h !! l).

(** [[]]: a new array. *)
Definition newArray : M loc := fun st =>
  let l := fresh (dom (arrays (heap st))) in
  (l, {| heap := {| arrays := <[l := []]> (arrays (heap st));
                    objects := objects (heap st) |};
         this := this st |}).

(** [{ ...o }]: a new object with the entries of [o]; [{}] is
    [newObject ∅]. *)
Definition newObject (o : gmap string Entry) : M loc := fun st =>
  let l := fresh (dom (objects (heap st))) in
  (l, {| heap := {| arrays := arrays (heap st);
                    objects := <[l := o]> (objects (heap st)) |};
         this := this st |}).

(** [table[term] || 0]: the entry of the table, what is inherited from
    [Object.prototype], or 0. *)
Definition count (table : gmap string Entry) (term : string) : Entry :=
  match table !! term with
  | Some entry => entry
  | None =>
      if bool_decide (term ∈ objectPrototypeKeys) then NotNumber else Number 0
  end.

(** [x + 1] *)
Definition plusOne (entry : Entry) : Entry :=
  match entry with
  | Number n => Number (n + 1)
  | NotNumber => NotNumber
  end.

(** [this.globalTermFreq[term] = (this.globalTermFreq[term] || 0) + 1].
    An assignment to ["__proto__"] with a string stores nothing, and the
    next read finds the prototype again: the table reads the same as with
    the entry [NotNumber] that is stored here. *)
Definition bumpGlobalTermFreq (term : string) : M unit :=
  st ← get;
  let l := globalTermFreq (this st) in
  let table := objectAt (heap st) l in
  setHeap {| arrays := arrays (heap st);
             objects := <[l := <[term := plusOne (count table term)]> table]>
                          (objects (heap st)) |}.

(** [this.documentStats.push(docStats)] *)
Definition pushDocumentStats (docStats : DocumentStats) : M unit :=
  st ← get;
  let l := documentStats (this st) in
  setHeap {| arrays := <[l := arrayAt (heap st) l ++ [docStats]]> (arrays (heap st));
             objects := objects (heap st) |}.

(** [for (const docStats of this.documentStats)
       docStats.normalizedLength = docStats.totalTerms / this.averageDocLength] *)
Definition normalizeLengths : M unit :=
  st ← get;
  let l := documentStats (this st) in
  let avg := averageDocLength (this st) in
  setHeap {| arrays :=
               <[l := map (fun docStats =>
                             {| termFreq := termFreq docStats;
                                totalTerms := totalTerms docStats;
                                normalizedLength :=
                                  (inject_Z (totalTerms docStats) / avg)%Q |})
                          (arrayAt (heap st) l)]> (arrays (heap st));
             objects := objects (heap st) |}.

Definition setDocumentStats (l : loc) : M unit :=
  st ← get;
  setThis {| k1 := k1 (this st); b := b (this st); documentStats := l;
             globalTermFreq := globalTermFreq (this st);
             averageDocLength := averageDocLength (this st);
             totalDocuments := totalDocuments (this st) |}.

Definition setGlobalTermFreq (l : loc) : M unit :=
  st ← get;
  setThis {| k1 := k1 (this st); b := b (this st);
             documentStats := documentStats (this st); globalTermFreq := l;
             averageDocLength := averageDocLength (this st);
             totalDocuments := totalDocuments (this st) |}.

Definition setAverageDocLength (x : Q) : M unit :=
  st ← get;
  setThis {| k1 := k1 (this st); b := b (this st);
             documentStats := documentStats (this st);
             globalTermFreq := globalTermFreq (this st);
             averageDocLength := x;
             totalDocuments := totalDocuments (this st) |}.

Definition setTotalDocuments (n : Z) : M unit :=
  st ← get;
  setThis {| k1 := k1 (this st); b := b (this st);
             documentStats := documentStats (this st);
             globalTermFreq := globalTermFreq (this st);
             averageDocLength := averageDocLength (this st);
             totalDocuments := n |}.

(** [new BM25Scorer(parameters)], in a store [h]. *)
Definition create (parameters : Q * Q) (h : Heap) : State :=
  let a := fresh (dom (arrays h)) in
  let o := fresh (dom (objects h)) in
  {| heap := {| arrays := <[a := []]> (arrays h);
                objects := <[o := ∅]> (objects h) |};
     this := {| k1 := fst parameters; b := snd parameters;
                documentStats := a; globalTermFreq := o;
                averageDocLength := 0; totalDocuments := 0 |} |}.

Definition emptyHeap : Heap := {| arrays := ∅; objects := ∅ |}.

(** The default parameters [{ k1: 1.2, b: 0.75 }]. *)
Definition defaultParameters : Q * Q := (12 # 10, 75 # 100)%Q.

Section WithLinguistics.

Variable ling : Linguistics.

(** The inner loop of [indexDocuments] over the terms of one document;
    the result is the document's own [termFreq]. *)
Fixpoint countTerms (termFreq : gmap string Entry) (terms : list string)
  : M (gmap string Entry) :=
  match terms with
  | [] => mret termFreq
  | term :: rest =>
      bumpGlobalTermFreq term ;;
      countTerms (<[term := plusOne (count termFreq term)]> termFreq) rest
  end.

(** The outer loop of [indexDocuments]; the result is [totalLength]. *)
Fixpoint indexEach (totalLength : Z) (documents : list string) : M Z :=
  match documents with
  | [] => mret totalLength
  | doc :: rest =>
      let terms := preprocessText ling doc in
      termFreq ← countTerms ∅ terms;
      pushDocumentStats
        {| termFreq := termFreq;
           totalTerms := Z.of_nat (length terms);
           normalizedLength := inject_Z (Z.of_nat (length terms)) |} ;;
      indexEach (totalLength + Z.of_nat (length terms)) rest
  end.

(** [indexDocuments] *)
Definition indexDocuments (documents : list string) : M unit :=
  a ← newArray; setDocumentStats a ;;
  o ← newObject ∅; setGlobalTermFreq o ;;
  setTotalDocuments (Z.of_nat (length documents)) ;;
  totalLength ← indexEach 0 documents;
  st ← get;
  setAverageDocLength
    (if 0 <? totalDocuments (this st)
     then (inject_Z totalLength / inject_Z (totalDocuments (this st)))%Q
     else 0%Q) ;;
  normalizeLengths.

(** The contribution of one query term in [calculateScore]. A count that
    is not a number is not [=== 0], and makes the product [NaN]. *)
Definition termScore (st : State) (docStats : DocumentStats) (term : string)
  : option Num :=
  let termFreqInDoc := count (termFreq docStats) term in
  let termFreqInCorpus :=
    count (objectAt (heap st) (globalTermFreq (this st))) term in
  match termFreqInDoc, termFreqInCorpus with
  | Number termFreqInDoc, Number termFreqInCorpus =>
      if termFreqInDoc =? 0 then None
      else
        let idf :=
          mathLog ((inject_Z (totalDocuments (this st) - termFreqInCorpus) + (1 # 2))
                   / (inject_Z termFreqInCorpus + (1 # 2)))%Q in
        let tfComponent :=
          ((inject_Z termFreqInDoc * (k1 (this st) + 1))
           / (inject_Z termFreqInDoc
              + k1 (this st)
                * (1 - b (this st) + b (this st) * normalizedLength docStats)))%Q in
        Some (numMul idf (Fin (Q2R tfComponent)))
  | Number termFreqInDoc, NotNumber =>
      if termFreqInDoc =? 0 then None else Some NaN
  | NotNumber, _ => Some NaN
  end.

(** [calculateScore]; it only reads the state. *)
Definition calculateScore (st : State) (query : string) (documentIndex : Z) : Num :=
  let stats := arrayAt (heap st) (documentStats (this st)) in
  if (documentIndex <? 0) || (Z.of_nat (length stats) <=? documentIndex)
  then Fin 0
  else
    match stats !! Z.to_nat documentIndex with
    | None => Fin 0
    | Some docStats =>
        let queryTerms := preprocessText ling query in
        let score :=
          foldl (fun score term =>
                   match termScore st docStats term with
                   | None => score
                   | Some contribution => numAdd score contribution
                   end)
            (Fin 0) queryTerms in
        numMax (Fin 0) score
    end.

(** [x > 0 ? y : 0], false on [NaN]. *)
Definition ifPositive (x : Num) (y : Num) : Num :=
  match x with
  | Fin r => if Rlt_dec 0 r then y else Fin 0
  | NaN => Fin 0
  end.

(** [calculateSimilarity]: the fields are saved, the two texts are indexed
    and scored, and the [finally] block puts the saved values back. *)
Definition calculateSimilarity (text1 text2 : string) : M Num :=
  st0 ← get;
  let originalStats := documentStats (this st0) in
  originalGlobalFreq ←
    newObject (objectAt (heap st0) (globalTermFreq (this st0)));
  let originalAvgLength := averageDocLength (this st0) in
  let originalTotalDocs := totalDocuments (this st0) in
  indexDocuments [text1; text2] ;;
  st ← get;
  let score1 := calculateScore st text2 0 in
  let score2 := calculateScore st text1 1 in
  let maxPossibleScore :=
    numMax (calculateScore st text1 0) (calculateScore st text2 1) in
  let result :=
    ifPositive maxPossibleScore
      (numDiv (numDiv (numAdd score1 score2) (Fin 2)) maxPossibleScore) in
  setDocumentStats originalStats ;;
  setGlobalTermFreq originalGlobalFreq ;;
  setAverageDocLength originalAvgLength ;;
  setTotalDocuments originalTotalDocs ;;
  mret result.

End WithLinguistics.

(** What a scorer knows about its corpus: the contents behind the two
    references and the two numbers. *)
Definition corpusState (st : State)
  : list DocumentStats * gmap string Entry * Q * Z :=
  (arrayAt (heap st) (documentStats (this st)),
   objectAt (heap st) (globalTermFreq (this st)),
   averageDocLength (this st),
   totalDocuments (this st)).

(** The references held by the fields point into the store. *)
Definition wellFormed (st : State) : Prop :=
  documentStats (this st) ∈ dom (arrays (heap st))
  ∧ globalTermFreq (this st) ∈ dom (objects (heap st)).

(** Every array and table of the store [h0] is still there, unchanged, in
    [h]. *)
Definition unchangedOn (h0 h : Heap) : Prop :=
  (forall l, l ∈ dom (arrays h0) -> arrays h !! l = arrays h0 !! l)
  ∧ (forall l, l ∈ dom (objects h0) -> objects h !! l = objects h0 !! l).

(** The scorer works aside of [h0]: its two references point to an array
    and a table that [h0] does not have, and what [h0] has is unchanged. *)
Definition worksAside (h0 : Heap) (st : State) : Prop :=
  unchangedOn h0 (heap st)
  ∧ (documentStats (this st) ∉ dom (arrays h0))
  ∧ (globalTermFreq (this st) ∉ dom (objects h0)).

(** A computation keeps an invariant of the state. *)
Definition keeps {A : Type} (P : State -> Prop) (m : M A) : Prop :=
  forall st, P st -> P (m st).2.

(** *** The score in the words of the specification

    The sum, over the query terms present in the document, of
    [IDF(term) * (tf*(k1+1)) / (tf + k1*(1 - b + b*(docLen/avgLen)))] with
    [IDF(term) = ln((N - df + 0.5)/(df + 0.5))], where [N] is the size of the
    corpus and [df] the number of documents that contain the term. *)

Definition occurrences (term : string) (terms : list string) : Z :=
  Z.of_nat (length (filter (fun t => t = term) terms)).

(** What a table reads under [term] after the terms of a list were
    counted in it, starting from [{}]: the number of occurrences, and no
    number for a property name of [Object.prototype], whether it occurs or
    not. *)
Definition counted (term : string) (terms : list string) : Entry :=
  if bool_decide (term ∈ objectPrototypeKeys) then NotNumber
  else Number (occurrences term terms).

Definition documentFrequency (corpus : list (list string)) (term : string) : Z :=
  Z.of_nat (length (filter (fun terms => term ∈ terms) corpus)).

Definition specIdf (corpus : list (list string)) (term : string) : R :=
  let N := Z.of_nat (length corpus) in
  let df := documentFrequency corpus term in
  ln (Q2R ((inject_Z (N - df) + (1 # 2)) / (inject_Z df + (1 # 2)))).

Definition specScore (ling : Linguistics) (k1 b : Q) (documents : list string)
  (query : string) (documentIndex : nat) : R :=
  let corpus := map (preprocessText ling) documents in
  let avgLen :=
    (inject_Z (Z.of_nat (length (concat corpus)))
     / inject_Z (Z.of_nat (length corpus)))%Q in
  match corpus !! documentIndex with
  | None => 0%R
  | Some doc =>
      let docLen := inject_Z (Z.of_nat (length doc)) in
      foldr
        (fun term sum =>
           let tf := inject_Z (occurrences term doc) in
           (specIdf corpus term
            * Q2R ((tf * (k1 + 1))
                   / (tf + k1 * (1 - b + b * (docLen / avgLen))))
            + sum)%R)
        0%R
        (filter (fun term => term ∈ doc) (preprocessText ling query))
  end.

End BM25Scorer.

(** ** The importance scorer and the redundancy analysis (context-analyzer.ts) *)

Module ContextAnalyzer.

(** The fields of a [ContextAnalyzer] that the lexical score depends on. *)
Record Analyzer := {
  currentProfile : ScoringProfile;
  bm25Scorer : BM25Scorer.State
}.

(** [new ContextAnalyzer(profile)] *)
Definition create (profile : option ScoringProfile) : Analyzer :=
  let currentProfile := default technicalProfile profile in
  {| currentProfile := currentProfile;
     bm25Scorer :=
       BM25Scorer.create (bm25Parameters currentProfile) BM25Scorer.emptyHeap |}.

(** [setScoringProfile]: the scorer is replaced by a new one. *)
Definition setScoringProfile (profile : ScoringProfile) (a : Analyzer) : Analyzer :=
  {| currentProfile := profile;
     bm25Scorer :=
       BM25Scorer.create (bm25Parameters profile)
         (BM25Scorer.heap (bm25Scorer a)) |}.

(** [a.slice(start, end)] for [start] and [end] that are not negative. *)
Definition slice {A : Type} (l : list A) (start end_ : Z) : list A :=
  take (Z.to_nat (end_ - start)) (drop (Z.to_nat start) l).

(** [getRecentContext] *)
Definition getRecentContext (messageIndex : Z)
  (allMessages : list ConversationMessage) (windowSize : Z)
  : list ConversationMessage :=
  let start := Z.max 0 (messageIndex - windowSize) in
  let end_ := Z.min (Z.of_nat (length allMessages)) (messageIndex + windowSize + 1) in
  slice allMessages start end_.

(** The query that [calculateBM25Score] builds for a message. *)
Definition combinedQuery (a : Analyzer) (messageIndex : Z)
  (allMessages : list ConversationMessage) : string :=
  let profileKeywords := join " " (semanticKeywords (currentProfile a)) in
  let contextMessages := getRecentContext messageIndex allMessages 3 in
  let contextQuery := join " " (map content contextMessages) in
  trim (profileKeywords +:+ " " +:+ contextQuery).

(** [calculateBM25Score] *)
Definition calculateBM25Score (ling : Linguistics) (a : Analyzer)
  (messageIndex : Z) (allMessages : list ConversationMessage) : Num :=
  let combinedQuery := combinedQuery a messageIndex allMessages in
  if (String.length combinedQuery =? 0)%nat then Fin (1 / 2)
  else
    let score :=
      BM25Scorer.calculateScore ling (bm25Scorer a) combinedQuery messageIndex in
    numMin (Fin 1) (numDiv score (Fin 10)).

(** The lexical scores of one scoring pass: the [breakdown.bm25Score] that
    [scoreMessages] computes for the message at each index. The pass reads
    the analyzer and leaves it as it is. *)
Definition bm25ScoresOfPass (ling : Linguistics) (a : Analyzer)
  (context : ConversationContext) : list Num :=
  imap (fun index _ =>
          calculateBM25Score ling a (Z.of_nat index) (messages context))
    (messages context).

(** [scoreMessages]: every message gets the score that
    [calculateImportanceScore] computes for it. The computation of the
    score itself (recency, semantic, references, file relevance and
    coherence) is a parameter. *)
Definition scoreMessages
  (calculateImportanceScore :
     ConversationMessage -> nat -> ConversationContext -> ImportanceScore)
  (context : ConversationContext) : list ConversationMessage :=
  imap (fun index message =>
          withImportance (calculateImportanceScore message index context) message)
    (messages context).

(** *** Redundancy *)

(** [normalizeContent] *)
Definition normalizeContent (content : string) : string :=
  trim (stripPunctuation (collapseSpaces (toLowerCase content))).

Definition similarityStep (st : gset string * Z) (message : ConversationMessage)
  : gset string * Z :=
  let '(uniqueContents, duplicateCount) := st in
  let normalizedContent := normalizeContent (content message) in
  if bool_decide (normalizedContent ∈ uniqueContents)
  then (uniqueContents, duplicateCount + 1)
  else (uniqueContents ∪ {[normalizedContent]}, duplicateCount).

(** [calculateContentSimilarity] *)
Definition calculateContentSimilarity (messages : list ConversationMessage) : Q :=
  let '(_, duplicateCount) := foldl similarityStep (∅, 0) messages in
  if (0 <? length messages)%nat
  then (inject_Z duplicateCount / inject_Z (Z.of_nat (length messages)))%Q
  else 0%Q.

(** The windows of three consecutive message types. *)
Fixpoint typeTriples (messages : list ConversationMessage)
  : list (MessageType * MessageType * MessageType) :=
  match messages with
  | m0 :: ((m1 :: m2 :: _) as rest) => (type m0, type m1, type m2) :: typeTriples rest
  | _ => []
  end.

(** [calculatePatternRepetition] *)
Definition calculatePatternRepetition (messages : list ConversationMessage) : Q :=
  let '(patterns, repetitions) :=
    foldl (fun '(patterns, repetitions) pattern =>
             (patterns ++ [pattern],
              if bool_decide (pattern ∈ patterns) then repetitions + 1
              else repetitions))
      ([], 0) (typeTriples messages) in
  if (0 <? length patterns)%nat
  then (inject_Z repetitions / inject_Z (Z.of_nat (length patterns)))%Q
  else 0%Q.

(** [calculateRedundancy] *)
Definition calculateRedundancy (messages : list ConversationMessage) : Q :=
  if (length messages <? 2)%nat then 0%Q
  else
    let contentSimilarity := calculateContentSimilarity messages in
    let patternRepetition := calculatePatternRepetition messages in
    ((contentSimilarity + patternRepetition) / 2)%Q.

(** *** Reference and file-relevance scores *)

(** [Math.min(x, y)] on ratios. *)
Definition mathMin (x y : Q) : Q := if Qle_bool x y then x else y.

(** [buildReferenceMap]; [extractMessageReferences] gives the matches of
    [/msg_[a-zA-Z0-9]+/g] in a content. *)
Definition buildReferenceMap (extractMessageReferences : string -> list string)
  (messages : list ConversationMessage) : gmap string Z :=
  foldl
    (fun referenceMap message =>
       foldl (fun referenceMap id =>
                <[id := default 0 (referenceMap !! id) + 1]> referenceMap)
         referenceMap (extractMessageReferences (content message)))
    ∅ messages.

(** [calculateReferenceScore] *)
Definition calculateReferenceScore (messageId : string)
  (referenceMap : gmap string Z) : Q :=
  let references := default 0 (referenceMap !! messageId) in
  mathMin (inject_Z references * (1 # 10)) 1.

(** [calculateFileRelevanceScore] *)
Definition calculateFileRelevanceScore (message : ConversationMessage)
  (activeFiles : list string) : Q :=
  if (length activeFiles =? 0)%nat then 1 # 2
  else
    let messageFiles : gset string :=
      list_to_set (fileReferences (metadata message)) in
    let activeFileSet : gset string := list_to_set activeFiles in
    let relevantFiles := size (filter (fun file => file ∈ activeFileSet) messageFiles) in
    if (0 <? size messageFiles)%nat
    then (inject_Z (Z.of_nat relevantFiles) / inject_Z (Z.of_nat (size messageFiles)))%Q
    else 3 # 10.

(** [calculateAverageImportance]: a sum and a quotient of floats; three
    scores of [0.7] average to [0.6999999999999998]. *)
Definition calculateAverageImportance (messages : list ConversationMessage) : Q :=
  if (length messages =? 0)%nat then 0%Q
  else
    let totalImportance :=
      foldl (fun sum message => doubleAdd sum (importanceTotal message))
        0%Q messages in
    doubleDiv totalImportance (inject_Z (Z.of_nat (length messages))).

(** *** The recommended strategy *)

(** [PruningStrategy['name']] *)
Inductive StrategyName := aggressive | balanced | conservative.

(** [DEFAULT_STRATEGIES[name]] *)
Definition DEFAULT_STRATEGIES (strategy : StrategyName) : PruningStrategy :=
  match strategy with
  | aggressive => aggressiveStrategy
  | balanced => balancedStrategy
  | conservative => conservativeStrategy
  end.

(** [recommendStrategy] *)
Definition recommendStrategy (totalTokens : Z) (averageImportance redundancyScore : Q)
  : StrategyName :=
  if (150000 <? totalTokens) || Qgtb redundancyScore (4 # 10) then aggressive
  else if (100000 <? totalTokens) || Qltb averageImportance (4 # 10) then balanced
  else conservative.

(** [estimateReduction] *)
Definition estimateReduction (context : ConversationContext)
  (strategy : StrategyName) : Q :=
  let strategyConfig := DEFAULT_STRATEGIES strategy in
  let currentTokens := totalTokens context in
  if currentTokens <=? maxTokens strategyConfig then 0%Q
  else
    let targetTokens := maxTokens strategyConfig in
    let reductionNeeded := currentTokens - targetTokens in
    (inject_Z reductionNeeded / inject_Z currentTokens * 100)%Q.

End ContextAnalyzer.

(** ** The selection engine (pruning-engine.ts) *)

Module PruningEngine.

Definition MAX_ROLLBACK_HISTORY : Z := 5.

(** [isSummarizable]: at least 50 tokens, not an error, and either a code
    fragment or more than 200 characters of content. *)
Definition isSummarizable (message : ConversationMessage) : bool :=
  if tokens message <? 50 then false
  else if bool_decide (type message = error) then false
  else if 0 <? Z.of_nat (length (codeBlocks (metadata message))) then true
  else if 200 <? Z.of_nat (String.length (content message)) then true
  else false.

(** The comparator [(a, b) => bImportance - aImportance] is positive when
    [a] is less important than [b]. *)
Definition lessImportant (a b : ConversationMessage) : bool :=
  Qgtb (importanceTotal b - importanceTotal a) 0.

(** [new Map(originalOrder.map((msg, idx) => [msg.id, idx]))]: a later
    entry with the same identifier replaces the earlier one. *)
Fixpoint orderMapFrom (idx : Z) (originalOrder : list ConversationMessage)
  (acc : gmap string Z) : gmap string Z :=
  match originalOrder with
  | [] => acc
  | msg :: rest => orderMapFrom (idx + 1) rest (<[id msg := idx]> acc)
  end.

Definition orderOf (orderMap : gmap string Z) (m : ConversationMessage) : Z :=
  default MAX_SAFE_INTEGER (orderMap !! id m).

(** [restoreOriginalOrder]: sort by position in the original list. *)
Definition restoreOriginalOrder (messages originalOrder : list ConversationMessage)
  : list ConversationMessage :=
  let orderMap := orderMapFrom 0 originalOrder ∅ in
  jsSort (fun a b => 0 <? orderOf orderMap a - orderOf orderMap b) messages.

Record Buckets := {
  preserved : list ConversationMessage;
  toRemove : list ConversationMessage;
  toSummarize : list ConversationMessage
}.

(** State of the first loop of [categorizeMessages]. *)
Record Triage := {
  t_preserved : list ConversationMessage;
  t_toSummarize : list ConversationMessage;
  t_toRemove : list ConversationMessage;
  currentTokens : Z
}.

Definition triageStep (strategy : PruningStrategy) (st : Triage)
  (message : ConversationMessage) : Triage :=
  let shouldAlwaysPreserve :=
    bool_decide (type message ∈ alwaysPreserve strategy) in
  let isHighImportance :=
    Qle_bool (importanceThreshold strategy) (importanceTotal message) in
  let wouldFitInBudget :=
    currentTokens st + tokens message <=? maxTokens strategy in
  if shouldAlwaysPreserve || (isHighImportance && wouldFitInBudget) then
    {| t_preserved := t_preserved st ++ [message];
       t_toSummarize := t_toSummarize st;
       t_toRemove := t_toRemove st;
       currentTokens := currentTokens st + tokens message |}
  else if isSummarizable message then
    {| t_preserved := t_preserved st;
       t_toSummarize := t_toSummarize st ++ [message];
       t_toRemove := t_toRemove st;
       currentTokens := currentTokens st |}
  else
    {| t_preserved := t_preserved st;
       t_toSummarize := t_toSummarize st;
       t_toRemove := t_toRemove st ++ [message];
       currentTokens := currentTokens st |}.

Definition triage (strategy : PruningStrategy)
  (sortedMessages : list ConversationMessage) : Triage :=
  foldl (triageStep strategy)
    {| t_preserved := []; t_toSummarize := []; t_toRemove := [];
       currentTokens := 0 |}
    sortedMessages.

(** The budget correction: when the preserved tokens exceed
    [maxTokens * preserveRatio], the tail of the preserved list, from
    position [floor (length * preserveRatio)], is moved out. Both products
    are products of floats: [90000 * 0.7] is [62999.99999999999], below
    63000, and [Math.floor(90 * 0.7)] is 62. *)
Definition budgetCorrection (strategy : PruningStrategy) (st : Triage) : Triage :=
  if Qgtb (inject_Z (currentTokens st))
          (doubleMul (inject_Z (maxTokens strategy)) (preserveRatio strategy))
  then
    let '(kept, excess) :=
      spliceFrom (t_preserved st)
        (Qfloor (doubleMul (inject_Z (Z.of_nat (length (t_preserved st))))
                   (preserveRatio strategy))) in
    {| t_preserved := kept;
       t_toSummarize := t_toSummarize st ++ filter (fun msg => isSummarizable msg = true) excess;
       t_toRemove := t_toRemove st ++ filter (fun msg => isSummarizable msg ≠ true) excess;
       currentTokens := currentTokens st |}
  else st.

(** State of the admission loop: (finalSummarizable, toRemove, summaryTokens). *)
Definition admissionStep (summaryBudget : Q)
  (st : list ConversationMessage * list ConversationMessage * Z)
  (message : ConversationMessage)
  : list ConversationMessage * list ConversationMessage * Z :=
  let '(finalSummarizable, toRemove, summaryTokens) := st in
  if Qle_bool (inject_Z (summaryTokens + tokens message)) summaryBudget then
    (finalSummarizable ++ [message], toRemove, summaryTokens + tokens message)
  else
    (finalSummarizable, toRemove ++ [message], summaryTokens).

Definition categorizeMessages (messages : list ConversationMessage)
  (strategy : PruningStrategy) : Buckets :=
  let sortedMessages := jsSort lessImportant messages in
  let st := budgetCorrection strategy (triage strategy sortedMessages) in
  let summaryBudget := (inject_Z (maxTokens strategy) * summaryRatio strategy)%Q in
  let summarizable := jsSort lessImportant (t_toSummarize st) in
  let '(finalSummarizable, toRemove, _) :=
    foldl (admissionStep summaryBudget) ([], t_toRemove st, 0) summarizable in
  {| preserved := restoreOriginalOrder (t_preserved st) messages;
     toRemove := restoreOriginalOrder toRemove messages;
     toSummarize := restoreOriginalOrder finalSummarizable messages |}.

(** [calculateTotalTokens] *)
Definition calculateTotalTokens (messages : list ConversationMessage) : Z :=
  foldl (fun total msg => total + tokens msg) 0 messages.

(** [estimateTokens] *)
Definition estimateTokens (content : string) : Z := ceilDiv4 (String.length content).

(** [summariesToMessages]; [now] is the value of [Date.now()]. *)
Definition summariesToMessages (now : Z) (summaries : list Summary)
  : list ConversationMessage :=
  map (fun s =>
         {| id := summaryId s;
            timestamp := summaryTimestamp s;
            type := summary;
            role := assistant;
            content := "[SUMMARY] " +:+ summaryContent s;
            metadata :=
              {| tokenCount := estimateTokens (summaryContent s);
                 fileReferences := [];
                 codeBlocks := [];
                 hasError := false;
                 toolsUsed := [];
                 importance :=
                   Some {| total := 8 # 10; recency := 9 # 10;
                           semantic := 8 # 10; references := 7 # 10;
                           fileRelevance := 6 # 10; coherence := None;
                           computed := now |} |} |})
    summaries.

(** *** The undo buffer

    [rollbackHistory] is a [Map]: its entries are kept in insertion order
    and a key occurs once. *)
Abbreviation RollbackHistory := (list (string * RollbackData)).

Fixpoint mapGet (key : string) (h : RollbackHistory) : option RollbackData :=
  match h with
  | [] => None
  | (k, d) :: rest => if String.eqb k key then Some d else mapGet key rest
  end.

Fixpoint mapSet (key : string) (data : RollbackData) (h : RollbackHistory)
  : RollbackHistory :=
  match h with
  | [] => [(key, data)]
  | (k, d) :: rest =>
      if String.eqb k key then (k, data) :: rest
      else (k, d) :: mapSet key data rest
  end.

Definition mapDelete (key : string) (h : RollbackHistory) : RollbackHistory :=
  filter (fun entry => fst entry ≠ key) h.

Definition mapKeys (h : RollbackHistory) : list string := map fst h.

(** [storeRollbackData] *)
Definition storeRollbackData (id : string) (data : RollbackData)
  (h : RollbackHistory) : RollbackHistory :=
  let h := mapSet id data h in
  if MAX_ROLLBACK_HISTORY <? Z.of_nat (length h) then
    match mapKeys h with
    | oldestKey :: _ =>
        (* [if (oldestKey)]: the empty string is falsy *)
        if String.eqb oldestKey "" then h else mapDelete oldestKey h
    | [] => h
    end
  else h.

(** [rollback]: the answer and the buffer afterwards. *)
Definition rollback (pruningId : string) (h : RollbackHistory)
  : bool * RollbackHistory :=
  match mapGet pruningId h with
  | None => (false, h)
  | Some _ => (true, mapDelete pruningId h)
  end.

(** *** The pruning operation *)

(** What the engine takes from its collaborators: the importance score of
    a message (context-analyzer.ts), the token counts of the system context
    and of the tool results, and their pruned versions
    (system-context-analyzer.ts, tool-result-analyzer.ts). *)
Record Collaborators := {
  calculateImportanceScore :
    ConversationMessage -> nat -> ConversationContext -> ImportanceScore;
  systemTokensOf : SystemContext -> Z;
  toolResultTokensOf : list ToolResultContext -> Z;
  optimizeSystemContext : SystemContext -> PruningStrategy -> SystemContext;
  filterToolResults :
    list ToolResultContext -> PruningStrategy -> list ToolResultContext
}.

Section Prune.

Variable collaborators : Collaborators.
Variable SUMMARY_PATTERNS : SummaryPatterns.
Variable clock : SummaryClock.

(** [calculateEnhancedTokenCount(context).totalTokens] *)
Definition enhancedTotalTokens (context : ConversationContext) : Z :=
  let messageTokens := foldl (fun sum msg => sum + tokens msg) 0 (messages context) in
  let systemTokens :=
    match systemContext context with
    | Some sc => systemTokensOf collaborators sc
    | None => 0
    end in
  let toolResultTokens :=
    match toolResultHistory context with
    | Some history => toolResultTokensOf collaborators history
    | None => 0
    end in
  messageTokens + systemTokens + toolResultTokens.

(** [pruneToolResults(...).optimizedToolResults] *)
Definition pruneToolResults (toolResults : option (list ToolResultContext))
  (strategy : PruningStrategy) : list ToolResultContext :=
  match toolResults with
  | None | Some [] => []
  | Some history => filterToolResults collaborators history strategy
  end.

(** The partitions of one pruning pass. *)
Definition partitions (context : ConversationContext) (strategy : PruningStrategy)
  : Buckets :=
  categorizeMessages
    (ContextAnalyzer.scoreMessages (calculateImportanceScore collaborators) context)
    strategy.

(** The level at which [prune] asks for summaries. *)
Definition pruneSummaryLevel : SummaryLevel := session.

(** [prune]; [pruningId] and [now] are the identifier and the time stamp
    drawn for the operation. The result comes with the undo buffer
    afterwards. *)
Definition prune (h : RollbackHistory) (pruningId : string) (now : Z)
  (context : ConversationContext) (strategy : PruningStrategy)
  : PruningResult * RollbackHistory :=
  let originalTokens := enhancedTotalTokens context in
  let buckets := partitions context strategy in
  let optimizedSystemContext :=
    (fun sc => optimizeSystemContext collaborators sc strategy)
      <$> systemContext context in
  let optimizedToolResults :=
    pruneToolResults (toolResultHistory context) strategy in
  let summariesCreated :=
    Summarizer.createSummaries SUMMARY_PATTERNS clock (toSummarize buckets)
      pruneSummaryLevel in
  let rollbackData :=
    {| pruningId := pruningId;
       removedMessages := toRemove buckets;
       originalOrder := map id (messages context);
       rollbackTimestamp := now |} in
  let h := storeRollbackData pruningId rollbackData h in
  let finalMessageTokens :=
    calculateTotalTokens
      (preserved buckets ++ summariesToMessages now summariesCreated) in
  let finalSystemTokens :=
    match optimizedSystemContext with
    | Some sc => systemTotalTokens sc
    | None => 0
    end in
  let finalToolResultTokens :=
    foldl (fun sum result => sum + inputTokens result + outputTokens result)
      0 optimizedToolResults in
  let finalTokens := finalMessageTokens + finalSystemTokens + finalToolResultTokens in
  ({| originalTokens := originalTokens;
      finalTokens := finalTokens;
      reductionPercent :=
        (inject_Z (originalTokens - finalTokens) / inject_Z originalTokens * 100)%Q;
      messagesRemoved := Z.of_nat (length (toRemove buckets));
      messagesSummarized := Z.of_nat (length (toSummarize buckets));
      summariesCreated := summariesCreated;
      rollbackData := rollbackData |}, h).

End Prune.

(** An operation on the engine, as far as the undo buffer goes: a pruning
    operation stores a record under a new identifier, an undo request
    consumes one. *)
Inductive Operation :=
  | OpPrune (pruningId : string) (data : RollbackData)
  | OpRollback (pruningId : string).

Definition perform (h : RollbackHistory) (op : Operation) : RollbackHistory :=
  match op with
  | OpPrune pruningId data => storeRollbackData pruningId data h
  | OpRollback pruningId => snd (rollback pruningId h)
  end.

(** The undo buffer after a sequence of operations on a new engine. *)
Definition historyAfter (ops : list Operation) : RollbackHistory :=
  foldl perform [] ops.

(** [getAvailableRollbacks]: the stored records, the latest first. *)
Definition getAvailableRollbacks (h : RollbackHistory) : list RollbackData :=
  jsSort (fun a b => 0 <? rollbackTimestamp b - rollbackTimestamp a) (map snd h).

(** [clearRollbackHistory] *)
Definition clearRollbackHistory (h : RollbackHistory) : RollbackHistory := [].

(** *** Environment variables *)

(** The [essentialVars] of [filterEnvironmentVariables]. *)
Definition essentialVars : gset string :=
  list_to_set
    ["PATH"; "HOME"; "USER"; "PWD"; "SHELL"; "TERM";
     "NODE_ENV"; "NODE_PATH"; "NPM_TOKEN";
     "GIT_AUTHOR_NAME"; "GIT_AUTHOR_EMAIL";
     "CLAUDE_API_KEY"; "ANTHROPIC_API_KEY"].

(** [filterEnvironmentVariables]; the record of the variables is a map from
    names to values, [None] is an absent strategy. *)
Definition filterEnvironmentVariables (envVars : gmap string string)
  (strategy : option PruningStrategy) : gmap string string :=
  match strategy with
  | None => envVars
  | Some strategy =>
      if String.eqb (name strategy) "aggressive" then
        filter (fun entry => fst entry ∈ essentialVars) envVars
      else if String.eqb (name strategy) "balanced" then
        filter (fun entry =>
                  fst entry ∈ essentialVars
                  ∨ (String.length (snd entry) < 100)%nat)
          envVars
      else envVars
  end.

End PruningEngine.

(** ** Concrete inputs *)

Module Examples.

Definition message (i : string) (t : MessageType) (r : Role) (c : string)
  (n : Z) (blocks : list CodeBlock) : ConversationMessage :=
  {| id := i; timestamp := 0; type := t; role := r; content := c;
     metadata := {| tokenCount := n; fileReferences := []; codeBlocks := blocks;
                    hasError := bool_decide (t = error); toolsUsed := [];
                    importance := None |} |}.

Definition context (l : list ConversationMessage) : ConversationContext :=
  {| messages := l;
     totalTokens := foldl (fun sum msg => sum + tokens msg) 0 l;
     activeFiles := []; sessionStartTime := 0;
     systemContext := None; toolResultHistory := None |}.

Definition score (x : Q) : ImportanceScore :=
  {| total := x; recency := x; semantic := x; references := x;
     fileRelevance := x; coherence := Some x; computed := 0 |}.

(** Collaborators that score a message by [f] and leave the system context
    and the tool results as they are. *)
Definition collaborators (f : ConversationMessage -> Q)
  : PruningEngine.Collaborators :=
  {| PruningEngine.calculateImportanceScore := fun m _ _ => score (f m);
     PruningEngine.systemTokensOf := systemTotalTokens;
     PruningEngine.toolResultTokensOf :=
       foldl (fun sum r => sum + inputTokens r + outputTokens r) 0;
     PruningEngine.optimizeSystemContext := fun sc _ => sc;
     PruningEngine.filterToolResults := fun l _ => l |}.

(** The type weights of the technical profile, as a score. *)
Definition byType (m : ConversationMessage) : Q :=
  typeWeights technicalProfile (type m).

(** The matches of the summary patterns on contents on which none of them
    matches. *)
Definition noMatches : SummaryPatterns :=
  {| codeChanges := fun _ => []; errors := fun _ => [];
     fileOperations := fun _ => []; tools := fun _ => [] |}.

Definition clock : SummaryClock :=
  {| generateSummaryId := fun k => String (ascii_of_nat (97 + k)) "_summary";
     dateNow := fun k => Z.of_nat k |}.

(** On lower-case words that are not stop words and are their own stems,
    the two packages change nothing. *)
Definition plainWords : Linguistics :=
  {| removeStopwords := fun tokens => tokens; stem := fun token => token |}.

(** The three messages of the analyzer's test suite, with their token
    counts [ceil (length / 4)]. *)
Definition testMessages : list ConversationMessage :=
  [ message "msg1" query user "How do I implement a function?" 8 [];
    message "msg2" code_change user
      "Create a function that calculates prime numbers" 12 [];
    message "msg3" error user "Error: TypeError in line 10" 7 [] ].

(** An error report of 20000 tokens. *)
Definition longError : ConversationMessage :=
  message "msg_err" error assistant "Error: build failed" 20000 [].

(** A short question that scores low. *)
Definition shortQuery : ConversationMessage :=
  message "msg_q" query user "ok?" 10 [].

(** Two messages with the same content. *)
Definition twins : list ConversationMessage :=
  [ message "msg_a" query user "Run the tests again" 5 [];
    message "msg_b" query user "Run the tests again" 5 [] ].

(** A 300-character word, and a message whose only code fragment names it
    as its language. *)
Fixpoint repeat_char (c : ascii) (n : nat) : string :=
  match n with
  | O => EmptyString
  | S n' => String c (repeat_char c n')
  end.

Definition longWord : string := repeat_char "x" 300.

Definition longLanguage : ConversationMessage :=
  message "msg_code" query user "" 400
    [ {| language := longWord; code := "x"; startLine := None;
         endLine := None; filePath := None |} ].

(** A corpus of five documents; "cat" occurs twice, in one document. *)
Definition corpus : list string := ["cat cat"; "dog"; "bird"; "fish"; "frog"].

End Examples.

(** * Properties *)

(** ** Sorting and splitting *)

Section SortFacts.

Context {A : Type} (after : A -> A -> bool).

Lemma insertSorted_perm (x : A) (l : list A) :
  insertSorted after x l ≡ₚ x :: l.
Proof.
  induction l as [|y l IH]; simpl; [reflexivity|].
  destruct (after x y); [|reflexivity].
  rewrite IH. apply perm_swap.
Qed.

Lemma jsSort_perm (l : list A) : jsSort after l ≡ₚ l.
Proof.
  induction l as [|x l IH]; simpl; [reflexivity|].
  rewrite insertSorted_perm. by f_equiv.
Qed.

Lemma jsSort_nil : jsSort after [] = [].
Proof. reflexivity. Qed.

Lemma jsSort_length (l : list A) : length (jsSort after l) = length l.
Proof. apply Permutation_length, jsSort_perm. Qed.

End SortFacts.

Lemma spliceFrom_app {A : Type} (l : list A) (start : Z) :
  (spliceFrom l start).1 ++ (spliceFrom l start).2 = l.
Proof. unfold spliceFrom. simpl. apply take_drop. Qed.

Import PruningEngine.

(** ** The partitions of a pruning pass *)

Lemma triageStep_perm strategy st message :
  t_preserved (triageStep strategy st message)
    ++ t_toSummarize (triageStep strategy st message)
    ++ t_toRemove (triageStep strategy st message)
  ≡ₚ (t_preserved st ++ t_toSummarize st ++ t_toRemove st) ++ [message].
Proof.
  unfold triageStep.
  destruct (_ || _); [|destruct (isSummarizable message)]; simpl.
  - rewrite <- !app_assoc.
    rewrite (Permutation_app_comm [message]). by rewrite !app_assoc.
  - rewrite <- !app_assoc. do 2 f_equiv. apply Permutation_app_comm.
  - by rewrite <- !app_assoc.
Qed.

Lemma foldl_triageStep_perm strategy l st :
  let st' := foldl (triageStep strategy) st l in
  t_preserved st' ++ t_toSummarize st' ++ t_toRemove st'
  ≡ₚ (t_preserved st ++ t_toSummarize st ++ t_toRemove st) ++ l.
Proof.
  revert st. induction l as [|m l IH]; intros st; simpl.
  - by rewrite app_nil_r.
  - rewrite IH, triageStep_perm. by rewrite <- app_assoc.
Qed.

Lemma triage_perm strategy l :
  t_preserved (triage strategy l) ++ t_toSummarize (triage strategy l)
    ++ t_toRemove (triage strategy l) ≡ₚ l.
Proof. unfold triage. by rewrite foldl_triageStep_perm. Qed.

Lemma budgetCorrection_perm strategy st :
  t_preserved (budgetCorrection strategy st)
    ++ t_toSummarize (budgetCorrection strategy st)
    ++ t_toRemove (budgetCorrection strategy st)
  ≡ₚ t_preserved st ++ t_toSummarize st ++ t_toRemove st.
Proof.
  unfold budgetCorrection.
  destruct (Qgtb _ _); [|reflexivity].
  pose proof (spliceFrom_app (t_preserved st)
    (Qfloor (doubleMul (inject_Z (Z.of_nat (length (t_preserved st))))
               (preserveRatio strategy)))) as Hs.
  destruct (spliceFrom _ _) as [kept excess]; simpl in *.
  rewrite <- Hs.
  rewrite <- (filter_app_complement (fun msg => isSummarizable msg = true) excess) at 3.
  solve_Permutation.
Qed.

Lemma foldl_admissionStep_perm budget l fs rm n :
  let '(fs', rm', _) := foldl (admissionStep budget) (fs, rm, n) l in
  fs' ++ rm' ≡ₚ fs ++ rm ++ l.
Proof.
  revert fs rm n. induction l as [|m l IH]; intros fs rm n; simpl.
  - by rewrite app_nil_r.
  - destruct (Qle_bool _ _).
    + specialize (IH (fs ++ [m]) rm (n + tokens m)).
      destruct (foldl _ _ _) as [[fs' rm'] n']. rewrite IH.
      rewrite <- !app_assoc. f_equiv. simpl. by rewrite Permutation_middle.
    + specialize (IH fs (rm ++ [m]) n).
      destruct (foldl _ _ _) as [[fs' rm'] n']. rewrite IH.
      by rewrite <- !app_assoc.
Qed.

Lemma restoreOriginalOrder_perm l original :
  restoreOriginalOrder l original ≡ₚ l.
Proof. apply jsSort_perm. Qed.

Lemma categorizeMessages_perm messages strategy :
  let r := categorizeMessages messages strategy in
  preserved r ++ toSummarize r ++ toRemove r ≡ₚ messages.
Proof.
  unfold categorizeMessages.
  set (st := budgetCorrection strategy _).
  pose proof (foldl_admissionStep_perm
    (inject_Z (maxTokens strategy) * summaryRatio strategy)%Q
    (jsSort lessImportant (t_toSummarize st)) [] (t_toRemove st) 0) as Ha.
  destruct (foldl _ _ _) as [[fs rm] n]. simpl in *.
  rewrite !restoreOriginalOrder_perm, Ha.
  rewrite jsSort_perm.
  rewrite (Permutation_app_comm (t_toRemove st)).
  subst st. rewrite budgetCorrection_perm, triage_perm.
  apply jsSort_perm.
Qed.

Lemma imap_ids (f : nat -> ConversationMessage -> ConversationMessage) l :
  (forall i m, id (f i m) = id m) -> map id (imap f l) = map id l.
Proof.
  revert f. induction l as [|m l IH]; intros f Hf; simpl; [done|].
  rewrite Hf. f_equal. apply IH. intros i m'. apply Hf.
Qed.

Lemma scoreMessages_ids calc context :
  map id (ContextAnalyzer.scoreMessages calc context) = map id (messages context).
Proof. apply imap_ids. reflexivity. Qed.

Lemma idSet_app l1 l2 : idSet (l1 ++ l2) = idSet l1 ∪ idSet l2.
Proof. unfold idSet. rewrite map_app. apply list_to_set_app_L. Qed.

Lemma idSet_perm l1 l2 : l1 ≡ₚ l2 -> idSet l1 = idSet l2.
Proof.
  intros H. unfold idSet. apply leibniz_equiv.
  by rewrite H.
Qed.

Lemma idSet_elem x l : x ∈ idSet l <-> x ∈ map id l.
Proof. unfold idSet. apply elem_of_list_to_set. Qed.

Lemma idSet_disjoint3 l1 l2 l3 :
  NoDup (map id (l1 ++ l2 ++ l3)) ->
  idSet l1 ## idSet l2 ∧ idSet l1 ## idSet l3 ∧ idSet l2 ## idSet l3.
Proof.
  rewrite !map_app. intros (_ & H1 & (_ & H2 & _)%NoDup_app)%NoDup_app.
  split_and!; intros x Ha%idSet_elem Hb%idSet_elem.
  - apply (H1 x Ha). apply elem_of_app. by left.
  - apply (H1 x Ha). apply elem_of_app. by right.
  - by apply (H2 x).
Qed.

(** C1. The three partitions of a pruning pass are pairwise disjoint and
    the union of their identifier sets is the identifier set of the
    messages of the context, for every context whose messages have
    pairwise distinct identifiers (empty or not), every strategy and every
    way of computing the importance scores. *)
Theorem partitions_disjoint_cover collaborators context strategy :
  NoDup (map id (messages context)) ->
  let r := partitions collaborators context strategy in
  idSet (preserved r) ## idSet (toSummarize r)
  ∧ idSet (preserved r) ## idSet (toRemove r)
  ∧ idSet (toSummarize r) ## idSet (toRemove r)
  ∧ idSet (preserved r) ∪ idSet (toSummarize r) ∪ idSet (toRemove r)
    = idSet (messages context).
Proof.
  intros Hnd r.
  pose proof (categorizeMessages_perm
    (ContextAnalyzer.scoreMessages (calculateImportanceScore collaborators) context)
    strategy) as Hp.
  fold (partitions collaborators context strategy) in Hp. fold r in Hp. simpl in Hp.
  assert (Hnd' : NoDup (map id (preserved r ++ toSummarize r ++ toRemove r))).
  { rewrite Hp, scoreMessages_ids. done. }
  assert (Hids : idSet (preserved r ++ toSummarize r ++ toRemove r) = idSet (messages context)).
  { rewrite (idSet_perm _ _ Hp). unfold idSet. by rewrite scoreMessages_ids. }
  rewrite !idSet_app in Hids.
  destruct (idSet_disjoint3 _ _ _ Hnd') as (H1 & H2 & H3).
  split_and!; [done..|].
  rewrite <- Hids. symmetry. apply (assoc_L _).
Qed.

(** The witness of C1: the three messages of the test suite under the
    balanced strategy. *)
Lemma partitions_disjoint_cover_witness :
  let context := Examples.context Examples.testMessages in
  let r := partitions (Examples.collaborators Examples.byType) context
             balancedStrategy in
  NoDup (map id (messages context))
  ∧ idSet (preserved r) ## idSet (toSummarize r)
  ∧ idSet (preserved r) ## idSet (toRemove r)
  ∧ idSet (toSummarize r) ## idSet (toRemove r)
  ∧ idSet (preserved r) ∪ idSet (toSummarize r) ∪ idSet (toRemove r)
    = idSet (messages context).
Proof.
  assert (Hnd : NoDup (map id (messages (Examples.context Examples.testMessages)))).
  { apply (bool_decide_unpack _). vm_compute. reflexivity. }
  split; [exact Hnd|].
  apply (partitions_disjoint_cover (Examples.collaborators Examples.byType)
           (Examples.context Examples.testMessages) balancedStrategy Hnd).
Defined.

(** ** Always-preserve types and the budget correction *)

(** The first loop does keep every message of an always-preserve type. *)
Lemma triageStep_keeps strategy st message m :
  m ∈ t_preserved st -> m ∈ t_preserved (triageStep strategy st message).
Proof.
  intros H. unfold triageStep.
  destruct (_ || _); [|destruct (isSummarizable message)]; simpl; [|done..].
  apply elem_of_app. by left.
Qed.

Lemma foldl_triageStep_keeps strategy l st m :
  m ∈ t_preserved st -> m ∈ t_preserved (foldl (triageStep strategy) st l).
Proof.
  revert st. induction l as [|x l IH]; intros st H; simpl; [done|].
  apply IH. by apply triageStep_keeps.
Qed.

Lemma triage_preserves_always strategy l m :
  m ∈ l -> type m ∈ alwaysPreserve strategy ->
  m ∈ t_preserved (triage strategy l).
Proof.
  unfold triage. generalize ({| t_preserved := []; t_toSummarize := [];
    t_toRemove := []; currentTokens := 0 |}).
  induction l as [|x l IH]; intros st Hin Htype; [by apply elem_of_nil in Hin|].
  simpl. apply elem_of_cons in Hin as [->|Hin].
  - apply foldl_triageStep_keeps. unfold triageStep.
    rewrite (bool_decide_eq_true_2 _ Htype). simpl.
    apply elem_of_app. right. by apply list_elem_of_singleton.
  - by apply IH.
Qed.

(** C2. Under the default aggressive strategy, whose always-preserve types
    include [error], an error report of 20000 tokens is first kept and then
    moved out by the budget correction: it ends up discarded, and nothing
    is preserved. *)
Theorem always_preserve_error_discarded :
  let r := partitions (Examples.collaborators Examples.byType)
             (Examples.context [Examples.longError]) aggressiveStrategy in
  type Examples.longError ∈ alwaysPreserve aggressiveStrategy
  ∧ preserved r = []
  ∧ toSummarize r = []
  ∧ map id (toRemove r) = [id Examples.longError].
Proof.
  split_and!; [|vm_compute; reflexivity..].
  apply (bool_decide_unpack _). vm_compute. reflexivity.
Qed.

(** ** A budget above the total *)

(** C3, as stated, fails: under the conservative strategy (100000 tokens)
    a context of one 10-token question that scores 0.2, below the threshold
    0.3, loses its message. *)
Lemma prune_large_budget_counterexample :
  let context := Examples.context [Examples.shortQuery] in
  let r := (prune (Examples.collaborators (fun _ => 2 # 10)) Examples.noMatches
              Examples.clock [] "prune_1" 0 context conservativeStrategy).1 in
  ~ (totalTokens context < maxTokens conservativeStrategy ->
     messagesRemoved r = 0 ∧ messagesSummarized r = 0
     ∧ (reductionPercent r == 0)%Q).
Proof.
  intros context r H.
  assert (Hlt : totalTokens context < maxTokens conservativeStrategy)
    by (vm_compute; reflexivity).
  destruct (H Hlt) as [Hrm _].
  vm_compute in Hrm. discriminate.
Qed.

Lemma calculateTotalTokens_from a l :
  foldl (fun total msg => total + tokens msg) a l = a + calculateTotalTokens l.
Proof.
  unfold calculateTotalTokens. revert a.
  induction l as [|m l IH]; intros a; simpl; [lia|].
  rewrite (IH (a + tokens m)), (IH (0 + tokens m)). lia.
Qed.

Lemma calculateTotalTokens_cons m l :
  calculateTotalTokens (m :: l) = tokens m + calculateTotalTokens l.
Proof.
  unfold calculateTotalTokens at 1. simpl. apply calculateTotalTokens_from.
Qed.

Lemma calculateTotalTokens_app l1 l2 :
  calculateTotalTokens (l1 ++ l2) = calculateTotalTokens l1 + calculateTotalTokens l2.
Proof.
  induction l1 as [|m l1 IH]; simpl; [done|].
  rewrite !calculateTotalTokens_cons, IH. lia.
Qed.

Lemma calculateTotalTokens_perm l1 l2 :
  l1 ≡ₚ l2 -> calculateTotalTokens l1 = calculateTotalTokens l2.
Proof.
  induction 1 as [|x l1 l2 _ IH|x y l|l1 l2 l3 _ IH1 _ IH2].
  - done.
  - rewrite !calculateTotalTokens_cons. lia.
  - rewrite !calculateTotalTokens_cons. lia.
  - congruence.
Qed.

Lemma calculateTotalTokens_nonneg l :
  (forall m, m ∈ l -> 0 <= tokens m) -> 0 <= calculateTotalTokens l.
Proof.
  induction l as [|m l IH]; intros H; [done|].
  rewrite calculateTotalTokens_cons.
  assert (0 <= tokens m) by (apply H; left).
  assert (0 <= calculateTotalTokens l) by (apply IH; intros; apply H; by right).
  lia.
Qed.

Lemma imap_tokens (f : nat -> ConversationMessage -> ConversationMessage) l :
  (forall i m, tokens (f i m) = tokens m) -> map tokens (imap f l) = map tokens l.
Proof.
  revert f. induction l as [|m l IH]; intros f Hf; simpl; [done|].
  rewrite Hf. f_equal. apply IH. intros i m'. apply Hf.
Qed.

Lemma scoreMessages_tokens calc context :
  map tokens (ContextAnalyzer.scoreMessages calc context)
  = map tokens (messages context).
Proof. apply imap_tokens. reflexivity. Qed.

Lemma calculateTotalTokens_map l1 l2 :
  map tokens l1 = map tokens l2 -> calculateTotalTokens l1 = calculateTotalTokens l2.
Proof.
  revert l2. induction l1 as [|m l1 IH]; intros [|m' l2] H; try discriminate; [done|].
  injection H as Hm Hl. rewrite !calculateTotalTokens_cons, Hm. f_equal. by apply IH.
Qed.

Lemma foldl_triageStep_all strategy l st :
  (forall m, m ∈ l ->
     type m ∈ alwaysPreserve strategy
     ∨ (importanceThreshold strategy <= importanceTotal m)%Q) ->
  (forall m, m ∈ l -> 0 <= tokens m) ->
  currentTokens st + calculateTotalTokens l <= maxTokens strategy ->
  foldl (triageStep strategy) st l
  = {| t_preserved := t_preserved st ++ l;
       t_toSummarize := t_toSummarize st;
       t_toRemove := t_toRemove st;
       currentTokens := currentTokens st + calculateTotalTokens l |}.
Proof.
  revert st. induction l as [|m l IH]; intros st Hq Hpos Hfit.
  - destruct st. simpl. rewrite app_nil_r. f_equal.
    unfold calculateTotalTokens. simpl. lia.
  - rewrite calculateTotalTokens_cons in Hfit |- *.
    assert (Hl : 0 <= calculateTotalTokens l).
    { apply calculateTotalTokens_nonneg. intros; apply Hpos. by right. }
    simpl.
    assert (Hstep : triageStep strategy st m
      = {| t_preserved := t_preserved st ++ [m];
           t_toSummarize := t_toSummarize st;
           t_toRemove := t_toRemove st;
           currentTokens := currentTokens st + tokens m |}).
    { unfold triageStep.
      destruct (Hq m) as [Ht|Hi]; [left|..].
      - by rewrite (bool_decide_eq_true_2 _ Ht).
      - apply Qle_bool_iff in Hi. rewrite Hi.
        assert (Hf : (currentTokens st + tokens m <=? maxTokens strategy) = true)
          by (apply Z.leb_le; lia).
        rewrite Hf. by rewrite orb_true_r. }
    rewrite Hstep, IH; simpl.
    + rewrite <- app_assoc. simpl. f_equal. lia.
    + intros; apply Hq. by right.
    + intros; apply Hpos. by right.
    + lia.
Qed.

Lemma budgetCorrection_within strategy st :
  (inject_Z (currentTokens st)
   <= doubleMul (inject_Z (maxTokens strategy)) (preserveRatio strategy))%Q ->
  budgetCorrection strategy st = st.
Proof.
  intros H%Qle_bool_iff. unfold budgetCorrection, Qgtb. by rewrite H.
Qed.

Lemma categorizeMessages_all messages strategy :
  (forall m, m ∈ messages ->
     type m ∈ alwaysPreserve strategy
     ∨ (importanceThreshold strategy <= importanceTotal m)%Q) ->
  (forall m, m ∈ messages -> 0 <= tokens m) ->
  calculateTotalTokens messages <= maxTokens strategy ->
  (inject_Z (calculateTotalTokens messages)
   <= doubleMul (inject_Z (maxTokens strategy)) (preserveRatio strategy))%Q ->
  categorizeMessages messages strategy
  = {| preserved := restoreOriginalOrder (jsSort lessImportant messages) messages;
       toRemove := [];
       toSummarize := [] |}.
Proof.
  intros Hq Hpos Hfit Hratio.
  pose proof (jsSort_perm lessImportant messages) as Hp.
  unfold categorizeMessages, triage.
  rewrite foldl_triageStep_all.
  - rewrite budgetCorrection_within.
    + reflexivity.
    + cbn [currentTokens]. by rewrite Z.add_0_l, (calculateTotalTokens_perm _ _ Hp).
  - intros m Hm. apply Hq. by rewrite <- Hp.
  - intros m Hm. apply Hpos. by rewrite <- Hp.
  - cbn [currentTokens]. by rewrite Z.add_0_l, (calculateTotalTokens_perm _ _ Hp).
Qed.

Lemma createSummaries_nil patterns clock level :
  Summarizer.createSummaries patterns clock [] level = [].
Proof. destruct level; reflexivity. Qed.

(** C3, amended. When the budget exceeds the total of the token counts
    (none of them negative), every scored message is of an always-preserve
    type or reaches the importance threshold, and the total stays within
    the product [maxTokens * preserveRatio] as the code computes it, in
    double precision, pruning removes and summarizes nothing; if moreover
    the context has no system context and no tool results and the total is
    positive, the final tokens are the original ones and the reduction is
    0%. *)
Theorem prune_noop_when_all_qualify
  collaborators patterns clock h pruningId now context strategy :
  (forall m,
     m ∈ ContextAnalyzer.scoreMessages (calculateImportanceScore collaborators) context ->
     type m ∈ alwaysPreserve strategy
     ∨ (importanceThreshold strategy <= importanceTotal m)%Q) ->
  (forall m, m ∈ messages context -> 0 <= tokens m) ->
  calculateTotalTokens (messages context) < maxTokens strategy ->
  (inject_Z (calculateTotalTokens (messages context))
   <= doubleMul (inject_Z (maxTokens strategy)) (preserveRatio strategy))%Q ->
  let r := (prune collaborators patterns clock h pruningId now context strategy).1 in
  messagesRemoved r = 0
  ∧ messagesSummarized r = 0
  ∧ (systemContext context = None ->
     toolResultHistory context = None ->
     0 < calculateTotalTokens (messages context) ->
     finalTokens r = originalTokens r ∧ (reductionPercent r == 0)%Q).
Proof.
  intros Hq Hpos Hlt Hratio.
  set (scored := ContextAnalyzer.scoreMessages _ context) in *.
  assert (Htok : calculateTotalTokens scored = calculateTotalTokens (messages context)).
  { apply calculateTotalTokens_map, scoreMessages_tokens. }
  assert (Hcat : partitions collaborators context strategy
    = {| preserved := restoreOriginalOrder (jsSort lessImportant scored) scored;
         toRemove := []; toSummarize := [] |}).
  { unfold partitions. fold scored. apply categorizeMessages_all.
    - exact Hq.
    - intros m Hm.
      assert (Hin : tokens m ∈ map tokens (messages context)).
      { rewrite <- (scoreMessages_tokens (calculateImportanceScore collaborators)).
        by apply list_elem_of_fmap_2. }
      apply list_elem_of_fmap in Hin as (m' & -> & Hm'). by apply Hpos.
    - rewrite Htok. lia.
    - by rewrite Htok. }
  intros r. subst r. split_and!.
  - unfold prune. cbn [fst messagesRemoved]. by rewrite Hcat.
  - unfold prune. cbn [fst messagesSummarized]. by rewrite Hcat.
  - intros Hsys Htool Htotal.
    assert (Hfinal : finalTokens (prune collaborators patterns clock h pruningId now
                        context strategy).1
                     = originalTokens (prune collaborators patterns clock h pruningId
                        now context strategy).1).
    { unfold prune. cbn [fst finalTokens originalTokens].
      rewrite Hcat. cbn [toSummarize preserved].
      unfold pruneSummaryLevel. rewrite createSummaries_nil.
      cbn [summariesToMessages map]. rewrite app_nil_r.
      unfold enhancedTotalTokens, pruneToolResults. rewrite Hsys, Htool.
      cbn [fmap option_fmap option_map foldl].
      fold (calculateTotalTokens (messages context)).
      rewrite (calculateTotalTokens_perm _ scored), Htok; [lia|].
      unfold restoreOriginalOrder. by rewrite !jsSort_perm. }
    split; [exact Hfinal|].
    assert (Hred : reductionPercent (prune collaborators patterns clock h pruningId
                     now context strategy).1
             = (inject_Z (originalTokens (prune collaborators patterns clock h
                            pruningId now context strategy).1
                          - finalTokens (prune collaborators patterns clock h
                              pruningId now context strategy).1)
                / inject_Z (originalTokens (prune collaborators patterns clock h
                              pruningId now context strategy).1) * 100)%Q)
      by reflexivity.
    rewrite Hred, Hfinal, Z.sub_diag. unfold Qdiv. by rewrite !Qmult_0_l.
Qed.

(** The witness of C3: the three messages of the test suite, scored by
    their types, under the conservative strategy. *)
Lemma prune_noop_when_all_qualify_witness :
  let collaborators := Examples.collaborators Examples.byType in
  let context := Examples.context Examples.testMessages in
  let strategy := conservativeStrategy in
  let r := (prune collaborators Examples.noMatches Examples.clock [] "prune_1" 0
              context strategy).1 in
  ((forall m,
      m ∈ ContextAnalyzer.scoreMessages (calculateImportanceScore collaborators) context ->
      type m ∈ alwaysPreserve strategy
      ∨ (importanceThreshold strategy <= importanceTotal m)%Q)
   ∧ (forall m, m ∈ messages context -> 0 <= tokens m)
   ∧ calculateTotalTokens (messages context) < maxTokens strategy
   ∧ (inject_Z (calculateTotalTokens (messages context))
      <= doubleMul (inject_Z (maxTokens strategy)) (preserveRatio strategy))%Q)
  ∧ (messagesRemoved r = 0
     ∧ messagesSummarized r = 0
     ∧ (systemContext context = None ->
        toolResultHistory context = None ->
        0 < calculateTotalTokens (messages context) ->
        finalTokens r = originalTokens r ∧ (reductionPercent r == 0)%Q)).
Proof.
  intros collaborators context strategy r.
  assert (H1 : forall m,
    m ∈ ContextAnalyzer.scoreMessages (calculateImportanceScore collaborators) context ->
    type m ∈ alwaysPreserve strategy
    ∨ (importanceThreshold strategy <= importanceTotal m)%Q).
  { intros m Hm. vm_compute in Hm.
    repeat (apply elem_of_cons in Hm as [->|Hm]);
      [right; vm_compute; discriminate
      |left; apply (bool_decide_unpack _); vm_compute; reflexivity ..
      |by apply elem_of_nil in Hm]. }
  assert (H2 : forall m, m ∈ messages context -> 0 <= tokens m).
  { intros m Hm. vm_compute in Hm.
    repeat (apply elem_of_cons in Hm as [->|Hm]);
      [vm_compute; discriminate ..|by apply elem_of_nil in Hm]. }
  assert (H3 : calculateTotalTokens (messages context) < maxTokens strategy)
    by (vm_compute; reflexivity).
  assert (H4 : (inject_Z (calculateTotalTokens (messages context))
                <= doubleMul (inject_Z (maxTokens strategy)) (preserveRatio strategy))%Q)
    by (vm_compute; discriminate).
  split; [split_and!; [exact H1|exact H2|exact H3|exact H4]|].
  exact (prune_noop_when_all_qualify collaborators Examples.noMatches Examples.clock
           [] "prune_1" 0 context strategy H1 H2 H3 H4).
Defined.

(** ** The undo buffer *)

Lemma mapGet_is_Some key h : is_Some (mapGet key h) <-> key ∈ mapKeys h.
Proof.
  induction h as [|[k d] h IH]; simpl.
  - split; [by intros [? ?]|by intros ?%elem_of_nil].
  - destruct (String.eqb_spec k key) as [->|Hne].
    + split; [left|eauto].
    + rewrite IH. split; [by right|].
      intros [?|?]%elem_of_cons; [congruence|done].
Qed.

Lemma mapDelete_keys key k h :
  k ∈ mapKeys (mapDelete key h) <-> k ≠ key ∧ k ∈ mapKeys h.
Proof.
  unfold mapKeys, mapDelete. rewrite !list_elem_of_fmap. split.
  - intros ([k' d] & -> & [Hne Hin]%list_elem_of_filter). simpl in *.
    split; [done|]. by exists (k', d).
  - intros (Hne & [k' d] & -> & Hin). exists (k', d). split; [done|].
    apply list_elem_of_filter. by split.
Qed.

Lemma mapGet_mapDelete_ne key k h :
  k ≠ key -> mapGet k (mapDelete key h) = mapGet k h.
Proof.
  intros Hne. induction h as [|[k' d] h IH]; [done|].
  unfold mapDelete in *. rewrite filter_cons. simpl.
  destruct (decide (k' ≠ key)) as [Hk|Hk]; simpl.
  - by rewrite IH.
  - apply dec_stable in Hk. subst k'.
    destruct (String.eqb_spec key k); [congruence|done].
Qed.

Lemma rollback_true key h : fst (rollback key h) = true <-> key ∈ mapKeys h.
Proof.
  rewrite <- mapGet_is_Some. unfold rollback.
  destruct (mapGet key h); simpl; split; try done; eauto.
Qed.

(** C9. After any sequence of operations, an undo request succeeds exactly
    when a record with the identifier is in the buffer; for an identifier
    that is not there it answers [false] and leaves the buffer as it is;
    a successful undo removes the record, and only that one, so that a
    second request with the same identifier answers [false]. The answer is
    always a boolean. *)
Theorem rollback_contract (ops : list Operation) (pruningId : string) :
  let h := historyAfter ops in
  (fst (rollback pruningId h) = true <-> pruningId ∈ mapKeys h)
  ∧ (pruningId ∉ mapKeys h -> rollback pruningId h = (false, h))
  ∧ (fst (rollback pruningId h) = true ->
     (pruningId ∉ mapKeys (snd (rollback pruningId h)))
     ∧ fst (rollback pruningId (snd (rollback pruningId h))) = false
     ∧ (forall k, k ≠ pruningId ->
          mapGet k (snd (rollback pruningId h)) = mapGet k h)).
Proof.
  intros h. split_and!.
  - apply rollback_true.
  - intros Hnot. unfold rollback.
    destruct (mapGet pruningId h) eqn:Hget; [|done].
    exfalso. apply Hnot, mapGet_is_Some. eauto.
  - intros Hok.
    assert (Hsnd : snd (rollback pruningId h) = mapDelete pruningId h).
    { unfold rollback in *. by destruct (mapGet pruningId h). }
    rewrite Hsnd.
    assert (Hgone : pruningId ∉ mapKeys (mapDelete pruningId h)).
    { rewrite mapDelete_keys. by intros [? _]. }
    split_and!.
    + exact Hgone.
    + destruct (fst (rollback pruningId (mapDelete pruningId h))) eqn:E; [|done].
      by apply rollback_true in E.
    + intros k Hk. by apply mapGet_mapDelete_ne.
Qed.

(** ** The level of the summaries of a pruning operation *)

Lemma createSummaries_from patterns clock messages lvl s :
  s ∈ Summarizer.createSummaries patterns clock messages lvl ->
  level s = lvl
  ∧ exists segment,
      segment ∈ Summarizer.segmentConversation messages lvl
      ∧ originalMessageIds s = map id segment.
Proof.
  unfold Summarizer.createSummaries.
  generalize (Summarizer.segmentConversation messages lvl) as segments.
  intros segments.
  assert (H : forall todo acc,
    (forall x, x ∈ acc ->
       level x = lvl ∧ exists segment, (segment ∈ segments)
                                        ∧ originalMessageIds x = map id segment) ->
    (forall segment, segment ∈ todo -> segment ∈ segments) ->
    forall x,
      x ∈ foldl (fun summaries segment =>
                   match Summarizer.createSummary patterns clock (length summaries)
                           segment lvl with
                   | Some created => summaries ++ [created]
                   | None => summaries
                   end) acc todo ->
      level x = lvl ∧ exists segment, segment ∈ segments
                                      ∧ originalMessageIds x = map id segment).
  { induction todo as [|segment todo IH]; intros acc Hacc Htodo x Hx; simpl in Hx.
    - by apply Hacc.
    - apply (IH _) in Hx; [done| |intros; apply Htodo; by right].
      intros y Hy.
      destruct (Summarizer.createSummary patterns clock (length acc) segment lvl)
        as [created|] eqn:Hc; [|by apply Hacc].
      apply elem_of_app in Hy as [Hy|Hy%list_elem_of_singleton]; [by apply Hacc|].
      subst y. unfold Summarizer.createSummary in Hc.
      destruct (length segment =? 0)%nat; [done|].
      destruct (String.eqb _ _); [done|].
      injection Hc as <-. simpl. split; [done|].
      exists segment. split; [apply Htodo; left|done]. }
  intros Hs. apply (H segments []); [by intros ? ?%elem_of_nil|done|done].
Qed.

(** A topic segment holds between one and ten messages. *)
Lemma topicStep_cap st message :
  Forall (fun segment => (1 <= length segment <= 10)%nat) st.1.1 ->
  (length st.1.2 < 10)%nat ->
  Forall (fun segment => (1 <= length segment <= 10)%nat)
    (Summarizer.topicStep st message).1.1
  ∧ (length (Summarizer.topicStep st message).1.2 < 10)%nat.
Proof.
  destruct st as [[segments currentSegment] lastFiles]. cbn [fst snd].
  intros Hsegs Hcur. unfold Summarizer.topicStep.
  set (change := Summarizer.hasSignificantFileContextChange _ _).
  destruct (change && (0 <? length currentSegment)%nat) eqn:Hc.
  - destruct (Summarizer.TOPIC_SEGMENT_CAP <=? length ([] ++ [message]))%nat
      eqn:Hcap; [done|].
    cbn [fst snd app length]. split; [|lia].
    apply Forall_app. split; [done|].
    apply Forall_singleton.
    apply andb_true_iff in Hc as [_ Hpos%Nat.ltb_lt]. lia.
  - destruct (Summarizer.TOPIC_SEGMENT_CAP <=? length (currentSegment ++ [message]))%nat
      eqn:Hcap; cbn [fst snd length].
    + split; [|lia]. apply Forall_app. split; [done|].
      apply Forall_singleton. rewrite length_app. cbn [length]. lia.
    + split; [done|]. apply Nat.leb_gt in Hcap. exact Hcap.
Qed.

Lemma segmentByTopic_cap messages segment :
  segment ∈ Summarizer.segmentByTopic messages ->
  (1 <= length segment <= 10)%nat.
Proof.
  unfold Summarizer.segmentByTopic.
  assert (H : forall l st,
    Forall (fun segment => (1 <= length segment <= 10)%nat) st.1.1 ->
    (length st.1.2 < 10)%nat ->
    Forall (fun segment => (1 <= length segment <= 10)%nat)
      (foldl Summarizer.topicStep st l).1.1
    ∧ (length (foldl Summarizer.topicStep st l).1.2 < 10)%nat).
  { induction l as [|m l IH]; intros st H1 H2; simpl; [done|].
    destruct (topicStep_cap st m H1 H2). by apply IH. }
  destruct (H messages (([], []), ∅)) as [Hsegs Hcur]; [by constructor|simpl; lia|].
  destruct (foldl Summarizer.topicStep _ messages) as [[segments cur] files].
  simpl in *. intros Hin.
  destruct (0 <? length cur)%nat eqn:Hpos.
  - apply elem_of_app in Hin as [Hin|Hin%list_elem_of_singleton].
    + by apply (proj1 (Forall_forall _ _) Hsegs).
    + subst. apply Nat.ltb_lt in Hpos. lia.
  - by apply (proj1 (Forall_forall _ _) Hsegs).
Qed.

(** C10. The summaries of a pruning operation are those that
    [createSummaries] produces at the session level from the accepted
    summarization pool: each has level [session], never [immediate] or
    [project], and replaces a segment of the topic segmentation of the
    pool, of at most ten messages, whatever the strategy. *)
Theorem prune_summaries_at_session_level
  collaborators patterns clock h pruningId now context strategy :
  let r := (prune collaborators patterns clock h pruningId now context strategy).1 in
  let pool := toSummarize (partitions collaborators context strategy) in
  summariesCreated r = Summarizer.createSummaries patterns clock pool session
  ∧ forall s, s ∈ summariesCreated r ->
      level s = session ∧ level s ≠ immediate ∧ level s ≠ project
      ∧ exists segment,
          segment ∈ Summarizer.segmentByTopic pool
          ∧ originalMessageIds s = map id segment
          ∧ (1 <= length segment <= 10)%nat.
Proof.
  intros r pool.
  assert (Hr : summariesCreated r
               = Summarizer.createSummaries patterns clock pool session)
    by reflexivity.
  split; [exact Hr|].
  intros s Hs. rewrite Hr in Hs.
  apply createSummaries_from in Hs as (Hlevel & segment & Hseg & Hids).
  rewrite Hlevel. split_and!; [done..|].
  exists segment. split; [done|split; [done|]].
  by apply segmentByTopic_cap in Hseg.
Qed.

(** ** The lexical ranker: what indexing leaves untouched *)

Section RankerFrame.

Import BM25Scorer.

Lemma keeps_ret {A : Type} (P : State -> Prop) (x : A) : keeps P (mret x).
Proof. intros st HP. exact HP. Qed.

Lemma keeps_bind {A B : Type} (P : State -> Prop) (m : M A) (f : A -> M B) :
  keeps P m -> (forall x, keeps P (f x)) -> keeps P (m ≫= f).
Proof.
  intros Hm Hf st HP. specialize (Hm st HP).
  unfold mbind, M_bind. destruct (m st) as [x st']. by apply Hf.
Qed.

Lemma keeps_get (P : State -> Prop) : keeps P get.
Proof. intros st HP. exact HP. Qed.

Lemma unchangedOn_refl h : unchangedOn h h.
Proof. by split. Qed.

Lemma unchangedOn_trans h0 h1 h2 :
  unchangedOn h0 h1 -> unchangedOn h1 h2 -> unchangedOn h0 h2.
Proof.
  intros [Ha1 Ho1] [Ha2 Ho2]. split; intros l Hl.
  - rewrite <- (Ha1 l Hl). apply Ha2.
    apply elem_of_dom. rewrite (Ha1 l Hl). by apply elem_of_dom.
  - rewrite <- (Ho1 l Hl). apply Ho2.
    apply elem_of_dom. rewrite (Ho1 l Hl). by apply elem_of_dom.
Qed.

Variable h0 : Heap.

Lemma bumpGlobalTermFreq_aside term : keeps (worksAside h0) (bumpGlobalTermFreq term).
Proof.
  intros st ([Ha Ho] & Hd & Hg). split_and!; [split| |]; simpl; try done.
  intros l Hl. rewrite lookup_insert_ne; [by apply Ho|].
  intros <-. done.
Qed.

Lemma pushDocumentStats_aside docStats :
  keeps (worksAside h0) (pushDocumentStats docStats).
Proof.
  intros st ([Ha Ho] & Hd & Hg). split_and!; [split| |]; simpl; try done.
  intros l Hl. rewrite lookup_insert_ne; [by apply Ha|].
  intros <-. done.
Qed.

Lemma normalizeLengths_aside : keeps (worksAside h0) normalizeLengths.
Proof.
  intros st ([Ha Ho] & Hd & Hg). split_and!; [split| |]; simpl; try done.
  intros l Hl. rewrite lookup_insert_ne; [by apply Ha|].
  intros <-. done.
Qed.

Lemma setAverageDocLength_aside x : keeps (worksAside h0) (setAverageDocLength x).
Proof. intros st H. exact H. Qed.

Lemma setTotalDocuments_aside n : keeps (worksAside h0) (setTotalDocuments n).
Proof. intros st H. exact H. Qed.

Variable ling : Linguistics.

Lemma countTerms_aside terms termFreq :
  keeps (worksAside h0) (countTerms termFreq terms).
Proof.
  revert termFreq. induction terms as [|term rest IH]; intros termFreq; simpl.
  - apply keeps_ret.
  - apply keeps_bind; [apply bumpGlobalTermFreq_aside|]. intros _. apply IH.
Qed.

Lemma indexEach_aside documents totalLength :
  keeps (worksAside h0) (indexEach ling totalLength documents).
Proof.
  revert totalLength. induction documents as [|doc rest IH]; intros totalLength; simpl.
  - apply keeps_ret.
  - apply keeps_bind; [apply countTerms_aside|]. intros termFreq.
    apply keeps_bind; [apply pushDocumentStats_aside|]. intros _. apply IH.
Qed.

End RankerFrame.

Section RankerRestore.

Import BM25Scorer.

Variable ling : Linguistics.

(** The state in which [indexDocuments] starts filling its new array and
    its new table. *)
Lemma indexDocuments_steps documents st :
  indexDocuments ling documents st
  = (totalLength ← indexEach ling 0 documents;
     st' ← get;
     setAverageDocLength
       (if 0 <? totalDocuments (this st')
        then (inject_Z totalLength / inject_Z (totalDocuments (this st')))%Q
        else 0%Q) ;;
     normalizeLengths)
      {| heap := {| arrays := <[fresh (dom (arrays (heap st))) := []]>
                                (arrays (heap st));
                    objects := <[fresh (dom (objects (heap st))) := ∅]>
                                 (objects (heap st)) |};
         this := {| k1 := k1 (this st); b := b (this st);
                    documentStats := fresh (dom (arrays (heap st)));
                    globalTermFreq := fresh (dom (objects (heap st)));
                    averageDocLength := averageDocLength (this st);
                    totalDocuments := Z.of_nat (length documents) |} |}.
Proof. reflexivity. Qed.

Lemma indexDocuments_unchanged documents st :
  unchangedOn (heap st) (heap (indexDocuments ling documents st).2).
Proof.
  rewrite indexDocuments_steps.
  match goal with |- unchangedOn _ (heap (?m ?st1).2) =>
    assert (H : keeps (worksAside (heap st)) m); [|apply (H st1)] end.
  - apply keeps_bind; [apply indexEach_aside|]. intros totalLength.
    apply keeps_bind; [apply keeps_get|]. intros st'.
    apply keeps_bind; [apply setAverageDocLength_aside|]. intros _.
    apply normalizeLengths_aside.
  - split_and!; [split| |]; simpl.
    + intros l Hl. rewrite lookup_insert_ne; [done|].
      intros <-. by apply is_fresh in Hl.
    + intros l Hl. rewrite lookup_insert_ne; [done|].
      intros <-. by apply is_fresh in Hl.
    + apply is_fresh.
    + apply is_fresh.
Qed.

(** Indexing does not touch the two parameters. *)
Lemma indexDocuments_parameters documents st :
  k1 (this (indexDocuments ling documents st).2) = k1 (this st)
  ∧ b (this (indexDocuments ling documents st).2) = b (this st).
Proof.
  set (P := fun st' => k1 (this st') = k1 (this st) ∧ b (this st') = b (this st)).
  assert (Hbump : forall term, keeps P (bumpGlobalTermFreq term)) by (by intros ? ? ?).
  assert (Hcount : forall terms termFreq, keeps P (countTerms termFreq terms)).
  { induction terms as [|term rest IH]; intros termFreq; simpl.
    - apply keeps_ret.
    - apply keeps_bind; [apply Hbump|]. intros _. apply IH. }
  assert (Heach : forall documents totalLength,
            keeps P (indexEach ling totalLength documents)).
  { clear documents. induction documents as [|doc rest IH]; intros totalLength; simpl.
    - apply keeps_ret.
    - apply keeps_bind; [apply Hcount|]. intros termFreq.
      apply keeps_bind; [by intros ? ?|]. intros _. apply IH. }
  rewrite indexDocuments_steps.
  match goal with |- k1 (this (?m ?st1).2) = _ ∧ _ =>
    assert (H : keeps P m); [|apply (H st1)] end.
  - apply keeps_bind; [apply Heach|]. intros totalLength.
    apply keeps_bind; [apply keeps_get|]. intros st'.
    apply keeps_bind; by intros ? ?.
  - by split.
Qed.

(** The state after [calculateSimilarity]: the store that indexing the two
    texts leaves, and the saved fields. *)
Lemma calculateSimilarity_state text1 text2 st :
  let o := fresh (dom (objects (heap st))) in
  let st1 :=
    {| heap := {| arrays := arrays (heap st);
                  objects := <[o := objectAt (heap st) (globalTermFreq (this st))]>
                               (objects (heap st)) |};
       this := this st |} in
  let st2 := (indexDocuments ling [text1; text2] st1).2 in
  (calculateSimilarity ling text1 text2 st).2
  = {| heap := heap st2;
       this := {| k1 := k1 (this st2); b := b (this st2);
                  documentStats := documentStats (this st);
                  globalTermFreq := o;
                  averageDocLength := averageDocLength (this st);
                  totalDocuments := totalDocuments (this st) |} |}.
Proof.
  intros o st1 st2. unfold calculateSimilarity.
  unfold mbind, M_bind, get, newObject. fold o. fold st1.
  subst st2. destruct (indexDocuments ling [text1; text2] st1) as [[] st2].
  reflexivity.
Qed.

Lemma calculateScore_ext st st' :
  corpusState st' = corpusState st ->
  k1 (this st') = k1 (this st) -> b (this st') = b (this st) ->
  forall query documentIndex,
    calculateScore ling st' query documentIndex
    = calculateScore ling st query documentIndex.
Proof.
  unfold corpusState. intros [= Ha Ho Hv Ht] Hk Hb query documentIndex.
  unfold calculateScore, termScore. rewrite Ha, Ho, Ht, Hk, Hb. reflexivity.
Qed.

(** C8. Computing the similarity of two texts leaves the corpus state of
    the scorer (document statistics, term table, average length, number of
    documents) as it was, touches no array or table that existed before,
    and every later score against the corpus is the one it would have been
    without the call. *)
Theorem calculateSimilarity_restores text1 text2 st :
  wellFormed st ->
  let st' := (calculateSimilarity ling text1 text2 st).2 in
  corpusState st' = corpusState st
  ∧ unchangedOn (heap st) (heap st')
  ∧ wellFormed st'
  ∧ (forall query documentIndex,
       calculateScore ling st' query documentIndex
       = calculateScore ling st query documentIndex).
Proof.
  intros [Hwa Hwo] st'. subst st'. rewrite calculateSimilarity_state.
  set (o := fresh (dom (objects (heap st)))).
  set (st1 := {| heap := {| arrays := arrays (heap st);
                            objects := <[o := objectAt (heap st) (globalTermFreq (this st))]>
                                         (objects (heap st)) |};
                 this := this st |}).
  pose proof (indexDocuments_unchanged [text1; text2] st1) as [Ha Ho].
  pose proof (indexDocuments_parameters [text1; text2] st1) as [Hk Hb].
  set (st2 := (indexDocuments ling [text1; text2] st1).2) in *.
  assert (Ho_fresh : o ∉ dom (objects (heap st))) by apply is_fresh.
  assert (Harr : arrays (heap st2) !! documentStats (this st)
                 = arrays (heap st) !! documentStats (this st)).
  { by apply Ha. }
  assert (Hobj : objects (heap st2) !! o
                 = Some (objectAt (heap st) (globalTermFreq (this st)))).
  { rewrite Ho; simpl; [apply lookup_insert_eq|].
    apply elem_of_dom. rewrite lookup_insert_eq. eauto. }
  assert (Hstate : corpusState
            {| heap := heap st2;
               this := {| k1 := k1 (this st2); b := b (this st2);
                          documentStats := documentStats (this st);
                          globalTermFreq := o;
                          averageDocLength := averageDocLength (this st);
                          totalDocuments := totalDocuments (this st) |} |}
          = corpusState st).
  { unfold corpusState, arrayAt, objectAt. simpl. by rewrite Harr, Hobj. }
  split_and!.
  - exact Hstate.
  - simpl. split.
    + intros l Hl. by apply Ha.
    + intros l Hl. rewrite Ho; simpl.
      * rewrite lookup_insert_ne; [done|]. by intros <-.
      * apply elem_of_dom. rewrite lookup_insert_ne; [by apply elem_of_dom|].
        by intros <-.
  - split; simpl.
    + apply elem_of_dom. rewrite Harr. by apply elem_of_dom.
    + apply elem_of_dom. rewrite Hobj. eauto.
  - apply calculateScore_ext; [exact Hstate|exact Hk|exact Hb].
Qed.

End RankerRestore.

(** The witness of C8: the similarity of two texts computed on a scorer
    that holds the five-document corpus. *)
Lemma calculateSimilarity_restores_witness :
  let st := (BM25Scorer.indexDocuments Examples.plainWords Examples.corpus
               (BM25Scorer.create BM25Scorer.defaultParameters
                  BM25Scorer.emptyHeap)).2 in
  let st' := (BM25Scorer.calculateSimilarity Examples.plainWords
                "cat dog" "dog bird" st).2 in
  BM25Scorer.wellFormed st
  ∧ BM25Scorer.corpusState st' = BM25Scorer.corpusState st
  ∧ BM25Scorer.unchangedOn (BM25Scorer.heap st) (BM25Scorer.heap st')
  ∧ BM25Scorer.wellFormed st'
  ∧ (forall query documentIndex,
       BM25Scorer.calculateScore Examples.plainWords st' query documentIndex
       = BM25Scorer.calculateScore Examples.plainWords st query documentIndex).
Proof.
  intros st st'.
  assert (Hwf : BM25Scorer.wellFormed st).
  { split; apply (bool_decide_unpack _); vm_compute; reflexivity. }
  split; [exact Hwf|].
  exact (calculateSimilarity_restores Examples.plainWords "cat dog" "dog bird" st Hwf).
Defined.

(** ** The lexical ranker: the statistics behind a score *)

Section RankerScores.

Import BM25Scorer.

Variable ling : Linguistics.

Lemma corpusState_create parameters h :
  corpusState (create parameters h) = ([], ∅, 0%Q, 0).
Proof.
  unfold corpusState, create, arrayAt, objectAt. simpl.
  by rewrite !lookup_insert_eq.
Qed.

(** Without documents, every score is zero. *)
Lemma calculateScore_no_documents st query documentIndex :
  arrayAt (heap st) (documentStats (this st)) = [] ->
  calculateScore ling st query documentIndex = Fin 0.
Proof.
  intros H. unfold calculateScore. rewrite H. cbn [length].
  destruct (documentIndex <? 0) eqn:Hneg; [done|].
  apply Z.ltb_ge in Hneg. change (Z.of_nat 0) with 0.
  by rewrite (proj2 (Z.leb_le 0 documentIndex) Hneg).
Qed.

Lemma indexDocuments_totalDocuments documents st :
  totalDocuments (this (indexDocuments ling documents st).2)
  = Z.of_nat (length documents).
Proof.
  set (P := fun st' => totalDocuments (this st') = Z.of_nat (length documents)).
  assert (Hcount : forall terms termFreq, keeps P (countTerms termFreq terms)).
  { induction terms as [|term rest IH]; intros termFreq; simpl.
    - apply keeps_ret.
    - apply keeps_bind; [by intros ? ?|]. intros _. apply IH. }
  assert (Heach : forall docs totalLength, keeps P (indexEach ling totalLength docs)).
  { induction docs as [|doc rest IH]; intros totalLength; simpl.
    - apply keeps_ret.
    - apply keeps_bind; [apply Hcount|]. intros termFreq.
      apply keeps_bind; [by intros ? ?|]. intros _. apply IH. }
  rewrite indexDocuments_steps.
  match goal with |- totalDocuments (this (?m ?st1).2) = _ =>
    assert (H : keeps P m); [|apply (H st1)] end.
  - apply keeps_bind; [apply Heach|]. intros totalLength.
    apply keeps_bind; [apply keeps_get|]. intros st'.
    apply keeps_bind; by intros ? ?.
  - reflexivity.
Qed.

(** The lexical score of a message when the scorer of the analyzer holds
    no documents. *)
Lemma calculateBM25Score_no_documents a messageIndex allMessages :
  arrayAt (heap (ContextAnalyzer.bm25Scorer a))
    (documentStats (this (ContextAnalyzer.bm25Scorer a))) = [] ->
  ContextAnalyzer.calculateBM25Score ling a messageIndex allMessages
  = if (String.length (ContextAnalyzer.combinedQuery a messageIndex allMessages)
        =? 0)%nat
    then Fin (1 / 2) else Fin 0.
Proof.
  intros H. unfold ContextAnalyzer.calculateBM25Score.
  destruct (_ =? _)%nat; [done|].
  rewrite (calculateScore_no_documents _ _ _ H). simpl. f_equal.
  unfold Rmin. destruct (Rle_dec 1 (0 / 10)); lra.
Qed.

Lemma arrayAt_create parameters h :
  arrayAt (heap (create parameters h)) (documentStats (this (create parameters h)))
  = [].
Proof. unfold create, arrayAt. simpl. by rewrite lookup_insert_eq. Qed.

(** C4. A new analyzer holds a scorer without documents, and so does an
    analyzer whose profile was set; nothing in a scoring pass indexes the
    messages of the context. For the three messages of the test suite, the
    statistics that indexing their contents would build count three
    documents, the statistics of the pass count none, and the lexical score
    of every message is 0. *)
Theorem scoring_pass_never_indexes (profile : option ScoringProfile) :
  let a := ContextAnalyzer.create profile in
  let context := Examples.context Examples.testMessages in
  corpusState (ContextAnalyzer.bm25Scorer a) = ([], ∅, 0%Q, 0)
  ∧ (forall p, corpusState (ContextAnalyzer.bm25Scorer
                              (ContextAnalyzer.setScoringProfile p a))
               = ([], ∅, 0%Q, 0))
  ∧ totalDocuments
      (this (indexDocuments ling (map content (messages context))
               (ContextAnalyzer.bm25Scorer a)).2) = 3
  ∧ ContextAnalyzer.bm25ScoresOfPass ling (ContextAnalyzer.create None) context
    = [Fin 0; Fin 0; Fin 0].
Proof.
  intros a context. split_and!.
  - apply corpusState_create.
  - intros p. apply corpusState_create.
  - by rewrite indexDocuments_totalDocuments.
  - unfold ContextAnalyzer.bm25ScoresOfPass.
    cbn [context messages Examples.context Examples.testMessages imap].
    unfold compose. cbv beta.
    rewrite !calculateBM25Score_no_documents by apply arrayAt_create.
    repeat match goal with
           | |- context [(String.length ?q =? 0)%nat] =>
               let v := eval vm_compute in (String.length q =? 0)%nat in
               change ((String.length q =? 0)%nat) with v
           end.
    reflexivity.
Qed.

End RankerScores.

Lemma ln_gt_0 (x : R) : (1 < x)%R -> (0 < ln x)%R.
Proof. intros H. rewrite <- ln_1. apply ln_increasing; lra. Qed.

(** C5. On the corpus ["cat cat"; "dog"; "bird"; "fish"; "frog"], the term
    "cat" occurs twice, in one document. The table that the scorer uses for
    the inverse document frequency holds 2, the number of occurrences, not
    1, the number of documents: the score of the first document for the
    query "cat" is [ln (7/5) * 22/19], where the formula with the document
    frequency gives [ln 3 * 22/19]. *)
Theorem idf_counts_occurrences :
  let ling := Examples.plainWords in
  let st := (BM25Scorer.indexDocuments ling Examples.corpus
               (BM25Scorer.create BM25Scorer.defaultParameters
                  BM25Scorer.emptyHeap)).2 in
  let corpus := map (BM25Scorer.preprocessText ling) Examples.corpus in
  BM25Scorer.count
    (BM25Scorer.objectAt (BM25Scorer.heap st)
       (BM25Scorer.globalTermFreq (BM25Scorer.this st))) "cat" = 2
  ∧ BM25Scorer.documentFrequency corpus "cat" = 1
  ∧ BM25Scorer.calculateScore ling st "cat" 0 = Fin (ln (7 / 5) * (22 / 19))
  ∧ BM25Scorer.specScore ling (12 # 10) (75 # 100) Examples.corpus "cat" 0
    = (ln 3 * (22 / 19))%R
  ∧ BM25Scorer.calculateScore ling st "cat" 0
    ≠ Fin (BM25Scorer.specScore ling (12 # 10) (75 # 100) Examples.corpus "cat" 0).
Proof.
  intros ling st corpus.
  assert (Hcode : BM25Scorer.calculateScore ling st "cat" 0
                  = Fin (ln (7 / 5) * (22 / 19))).
  { transitivity (numMax (Fin 0)
                    (numAdd (Fin 0)
                       (numMul (mathLog (14 # 10))
                          (Fin (Q2R (26400000 # 22800000)))))).
    { vm_compute. reflexivity. }
    assert (Hlog : mathLog (14 # 10) = Fin (ln (7 / 5))).
    { unfold mathLog. replace (Qgtb (14 # 10) 0) with true by reflexivity.
      do 2 f_equal. unfold Q2R. simpl. lra. }
    rewrite Hlog. simpl. f_equal.
    replace (Q2R (26400000 # 22800000)) with (22 / 19)%R
      by (unfold Q2R; simpl; lra).
    pose proof (ln_gt_0 (7 / 5) ltac:(lra)) as Hpos.
    rewrite Rmax_right; [lra|]. nra. }
  assert (Hspec : BM25Scorer.specScore ling (12 # 10) (75 # 100) Examples.corpus "cat" 0
                  = (ln 3 * (22 / 19))%R).
  { transitivity (ln (Q2R (18 # 6)) * Q2R (26400000 # 22800000) + 0)%R.
    { vm_compute. reflexivity. }
    replace (Q2R (18 # 6)) with 3%R by (unfold Q2R; simpl; lra).
    replace (Q2R (26400000 # 22800000)) with (22 / 19)%R
      by (unfold Q2R; simpl; lra).
    lra. }
  split_and!.
  - vm_compute. reflexivity.
  - vm_compute. reflexivity.
  - exact Hcode.
  - exact Hspec.
  - rewrite Hcode, Hspec. intros [= H].
    assert (Hlt : (ln (7 / 5) < ln 3)%R) by (apply ln_increasing; lra).
    nra.
Qed.

(** ** Redundancy of identical contents *)

Lemma foldl_similarityStep_seen (c : string) l (seen : gset string) (k : Z) :
  ContextAnalyzer.normalizeContent c ∈ seen ->
  (forall m, m ∈ l -> content m = c) ->
  foldl ContextAnalyzer.similarityStep (seen, k) l
  = (seen, k + Z.of_nat (length l)).
Proof.
  intros Hseen. revert k. induction l as [|m l IH]; intros k Hall; simpl.
  - f_equal. lia.
  - rewrite (Hall m) by left.
    rewrite (bool_decide_eq_true_2 _ Hseen).
    rewrite IH by (intros; apply Hall; by right).
    f_equal. lia.
Qed.

Lemma calculateContentSimilarity_identical (c : string) l :
  l ≠ [] ->
  (forall m, m ∈ l -> content m = c) ->
  ContextAnalyzer.calculateContentSimilarity l
  = (inject_Z (Z.of_nat (length l) - 1) / inject_Z (Z.of_nat (length l)))%Q.
Proof.
  destruct l as [|m l]; [done|]. intros _ Hall.
  unfold ContextAnalyzer.calculateContentSimilarity.
  cbn [foldl]. unfold ContextAnalyzer.similarityStep at 2.
  rewrite bool_decide_eq_false_2 by apply not_elem_of_empty.
  rewrite (Hall m) by left.
  rewrite (foldl_similarityStep_seen c) by
    (first [apply elem_of_union_r, elem_of_singleton; reflexivity
           |intros; apply Hall; by right]).
  cbn [length Nat.ltb Nat.leb]. do 2 f_equal. lia.
Qed.

(** C6, as stated, fails: two messages with the same content have a
    content-duplication component of 1/2. *)
Lemma content_similarity_twins_counterexample :
  ~ ((2 <= length Examples.twins)%nat ->
     (forall m m', m ∈ Examples.twins -> m' ∈ Examples.twins ->
        content m = content m') ->
     (ContextAnalyzer.calculateContentSimilarity Examples.twins == 1)%Q).
Proof.
  intros H.
  assert (Hlen : (2 <= length Examples.twins)%nat) by (vm_compute; lia).
  assert (Hsame : forall m m', m ∈ Examples.twins -> m' ∈ Examples.twins ->
                    content m = content m').
  { intros m m' Hm Hm'. unfold Examples.twins in *.
    repeat (apply elem_of_cons in Hm as [->|Hm]);
      repeat (apply elem_of_cons in Hm' as [->|Hm']);
      try reflexivity; by apply elem_of_nil in Hm || by apply elem_of_nil in Hm'. }
  specialize (H Hlen Hsame). vm_compute in H. discriminate.
Qed.

(** C6, amended. For at least two messages with byte-identical contents,
    the content-duplication component is [(n - 1) / n], where [n] is the
    number of messages: every message but the first counts as a duplicate.
    It stays below 1. *)
Theorem content_similarity_identical (messages : list ConversationMessage) :
  (2 <= length messages)%nat ->
  (forall m m', m ∈ messages -> m' ∈ messages -> content m = content m') ->
  let n := Z.of_nat (length messages) in
  (ContextAnalyzer.calculateContentSimilarity messages
   == inject_Z (n - 1) / inject_Z n)%Q
  ∧ (ContextAnalyzer.calculateContentSimilarity messages < 1)%Q.
Proof.
  intros Hlen Hsame. cbv zeta.
  destruct messages as [|m0 rest] eqn:E; [simpl in Hlen; lia|].
  rewrite <- E in *.
  assert (Hne : messages ≠ []) by (rewrite E; discriminate).
  assert (Hall : forall m, m ∈ messages -> content m = content m0).
  { intros m Hm. apply Hsame; [done|]. rewrite E. left. }
  rewrite (calculateContentSimilarity_identical _ _ Hne Hall).
  set (n := Z.of_nat (length messages)).
  split; [reflexivity|].
  assert (Hn : 0 < n) by lia.
  apply Qlt_shift_div_r.
  - change 0%Q with (inject_Z 0). rewrite <- Zlt_Qlt. exact Hn.
  - rewrite Qmult_1_l. rewrite <- Zlt_Qlt. lia.
Qed.

(** The witness of C6: the two messages with the same content. *)
Lemma content_similarity_identical_witness :
  (2 <= length Examples.twins)%nat
  ∧ (forall m m', m ∈ Examples.twins -> m' ∈ Examples.twins ->
       content m = content m')
  ∧ (ContextAnalyzer.calculateContentSimilarity Examples.twins
     == inject_Z (2 - 1) / inject_Z 2)%Q
  ∧ (ContextAnalyzer.calculateContentSimilarity Examples.twins < 1)%Q.
Proof.
  assert (Hlen : (2 <= length Examples.twins)%nat) by (vm_compute; lia).
  assert (Hsame : forall m m', m ∈ Examples.twins -> m' ∈ Examples.twins ->
                    content m = content m').
  { intros m m' Hm Hm'. unfold Examples.twins in *.
    repeat (apply elem_of_cons in Hm as [->|Hm]);
      repeat (apply elem_of_cons in Hm' as [->|Hm']);
      try reflexivity; by apply elem_of_nil in Hm || by apply elem_of_nil in Hm'. }
  split; [exact Hlen|]. split; [exact Hsame|].
  exact (content_similarity_identical Examples.twins Hlen Hsame).
Defined.

(** ** The length of a summary *)

Lemma substring_length (n : nat) (s : string) :
  String.length (String.substring 0 n s) = Nat.min n (String.length s).
Proof.
  revert s. induction n as [|n IH]; intros [|c s]; simpl; try done.
  by rewrite IH.
Qed.

Lemma append_length (s1 s2 : string) :
  String.length (s1 +:+ s2) = (String.length s1 + String.length s2)%nat.
Proof. induction s1 as [|c s1 IH]; simpl; [done|]. by rewrite IH. Qed.

Lemma lastIndexOfFrom_bound c s i found :
  found < i -> lastIndexOfFrom c s i found < i + Z.of_nat (String.length s).
Proof.
  revert i found. induction s as [|a s IH]; intros i found H; simpl; [lia|].
  destruct (Ascii.eqb a c).
  - specialize (IH (i + 1) i). lia.
  - specialize (IH (i + 1) found). lia.
Qed.

Lemma lastIndexOf_bound s c : lastIndexOf s c < Z.of_nat (String.length s).
Proof.
  unfold lastIndexOf. pose proof (lastIndexOfFrom_bound c s 0 (-1)). lia.
Qed.

(** What [truncateSummary] guarantees: a text within the budget is
    returned as it is, a text cut at a sentence end stays within the
    budget, and a text cut at the budget gets three more characters. *)
Lemma truncateSummary_length (text : string) (maxLength : Z) :
  0 <= maxLength ->
  Z.of_nat (String.length (Summarizer.truncateSummary text maxLength))
  <= maxLength + 3.
Proof.
  intros Hmax. unfold Summarizer.truncateSummary.
  destruct (Z.of_nat (String.length text) <=? maxLength) eqn:Hfit.
  - apply Z.leb_le in Hfit. lia.
  - set (truncated := String.substring 0 (Z.to_nat maxLength) text).
    assert (Htr : Z.of_nat (String.length truncated) <= maxLength).
    { subst truncated. rewrite substring_length. lia. }
    set (lastSentenceEnd := Z.max _ _).
    destruct (Qgtb _ _).
    + rewrite substring_length.
      assert (lastSentenceEnd < Z.of_nat (String.length truncated)).
      { subst lastSentenceEnd.
        pose proof (lastIndexOf_bound truncated ".").
        pose proof (lastIndexOf_bound truncated "!").
        pose proof (lastIndexOf_bound truncated "?"). lia. }
      lia.
    + rewrite append_length. simpl. lia.
Qed.

(** C7. A segment of one message whose only code fragment names a
    300-character language yields, at the [immediate] level, a summary of
    203 characters, three more than the budget of 200: the first 200
    characters of the text hold no sentence end, so the text is cut there
    and the ellipsis is added. *)
Theorem summary_exceeds_budget :
  let segment := [Examples.longLanguage] in
  let text := Summarizer.generateSummaryContent Examples.noMatches segment
                immediate in
  Summarizer.MAX_SUMMARY_LENGTH immediate = 200
  ∧ String.length text = 203%nat
  ∧ text = String.substring 0 200
             (Summarizer.assembleSummary Examples.noMatches segment) +:+ "...".
Proof. split_and!; vm_compute; reflexivity. Qed.


(** * Further properties of the selection engine *)

(** ** Sorting by a key *)

Section SortByKey.

Context {A : Type} (key : A -> Z) (after : A -> A -> bool).
Hypothesis after_key : forall x y, after x y = (key y <? key x).

Lemma insertSorted_sorted x l :
  StronglySorted (fun a b => key a <= key b) l ->
  StronglySorted (fun a b => key a <= key b) (insertSorted after x l).
Proof.
  induction 1 as [|y l Hl IH Hy]; simpl.
  - repeat constructor.
  - rewrite after_key. destruct (key y <? key x) eqn:E.
    + apply Z.ltb_lt in E. constructor; [done|].
      rewrite (insertSorted_perm after x l). constructor; [lia|done].
    + apply Z.ltb_ge in E. constructor; [by constructor|].
      constructor; [done|].
      eapply Forall_impl; [exact Hy|]. simpl. intros; lia.
Qed.

Lemma jsSort_sorted l : StronglySorted (fun a b => key a <= key b) (jsSort after l).
Proof.
  induction l as [|x l IH]; simpl; [constructor|].
  by apply insertSorted_sorted.
Qed.

End SortByKey.

(** ** The counts of a pruning operation *)

(** X1. The three partitions are a rearrangement of the scored messages,
    with or without repeated identifiers: the numbers of removed,
    summarized and preserved messages add up to the number of messages of
    the context. *)
Theorem prune_counts_add_up
  collaborators patterns clock h pruningId now context strategy :
  let r := (prune collaborators patterns clock h pruningId now context strategy).1 in
  let parts := partitions collaborators context strategy in
  preserved parts ++ toSummarize parts ++ toRemove parts
    ≡ₚ ContextAnalyzer.scoreMessages (calculateImportanceScore collaborators) context
  ∧ messagesRemoved r + messagesSummarized r + Z.of_nat (length (preserved parts))
    = Z.of_nat (length (messages context)).
Proof.
  intros r parts.
  pose proof (categorizeMessages_perm
    (ContextAnalyzer.scoreMessages (calculateImportanceScore collaborators) context)
    strategy) as Hp.
  fold (partitions collaborators context strategy) in Hp. fold parts in Hp.
  simpl in Hp. split; [exact Hp|].
  assert (Hlen : length (ContextAnalyzer.scoreMessages
                           (calculateImportanceScore collaborators) context)
                 = length (messages context)).
  { rewrite <- (length_map id), scoreMessages_ids. apply length_map. }
  apply Permutation_length in Hp. rewrite !length_app, Hlen in Hp.
  change (messagesRemoved r) with (Z.of_nat (length (toRemove parts))).
  change (messagesSummarized r) with (Z.of_nat (length (toSummarize parts))).
  lia.
Qed.

(** ** What goes to summarization *)

Lemma triage_summarizable strategy l st :
  Forall (fun m => isSummarizable m = true) (t_toSummarize st) ->
  Forall (fun m => isSummarizable m = true)
    (t_toSummarize (foldl (triageStep strategy) st l)).
Proof.
  revert st. induction l as [|m l IH]; intros st H; simpl; [done|].
  apply IH. unfold triageStep.
  destruct (_ || _); [done|].
  destruct (isSummarizable m) eqn:E; simpl; [|done].
  apply Forall_app. split; [done|]. by apply Forall_singleton.
Qed.

Lemma budgetCorrection_summarizable strategy st :
  Forall (fun m => isSummarizable m = true) (t_toSummarize st) ->
  Forall (fun m => isSummarizable m = true)
    (t_toSummarize (budgetCorrection strategy st)).
Proof.
  intros H. unfold budgetCorrection. destruct (Qgtb _ _); [|done].
  destruct (spliceFrom _ _) as [kept excess]. simpl.
  apply Forall_app. split; [done|].
  apply Forall_forall. by intros m [? _]%list_elem_of_filter.
Qed.

Lemma admission_subset budget l fs rm n m :
  m ∈ (foldl (admissionStep budget) (fs, rm, n) l).1.1 -> m ∈ fs ∨ m ∈ l.
Proof.
  revert fs rm n. induction l as [|x l IH]; intros fs rm n; simpl; [by left|].
  destruct (Qle_bool _ _); intros H%IH.
  - destruct H as [[H|H%list_elem_of_singleton]%elem_of_app|H].
    + by left.
    + subst. right. left.
    + right. by right.
  - destruct H as [H|H]; [by left|right; by right].
Qed.

Lemma categorizeMessages_toSummarize messages strategy m :
  m ∈ toSummarize (categorizeMessages messages strategy) ->
  isSummarizable m = true.
Proof.
  unfold categorizeMessages.
  set (st := budgetCorrection strategy _).
  assert (Hst : Forall (fun m => isSummarizable m = true) (t_toSummarize st)).
  { apply budgetCorrection_summarizable, triage_summarizable. constructor. }
  pose proof (admission_subset
    (inject_Z (maxTokens strategy) * summaryRatio strategy)%Q
    (jsSort lessImportant (t_toSummarize st)) [] (t_toRemove st) 0 m) as Ha.
  destruct (foldl _ _ _) as [[fs rm] n]. simpl in *.
  rewrite restoreOriginalOrder_perm. intros Hm.
  destruct (Ha Hm) as [Hn|Hin]; [by apply elem_of_nil in Hn|].
  rewrite jsSort_perm in Hin.
  by apply (proj1 (Forall_forall _ _) Hst).
Qed.

Lemma isSummarizable_true m :
  isSummarizable m = true ->
  50 <= tokens m ∧ type m ≠ error
  ∧ ((0 < length (codeBlocks (metadata m)))%nat
     ∨ (200 < String.length (content m))%nat).
Proof.
  unfold isSummarizable.
  destruct (tokens m <? 50) eqn:Ht; [done|]. apply Z.ltb_ge in Ht.
  destruct (bool_decide (type m = error)) eqn:He; [done|].
  apply bool_decide_eq_false in He.
  destruct (0 <? Z.of_nat (length (codeBlocks (metadata m)))) eqn:Hc.
  - intros _. apply Z.ltb_lt in Hc. split_and!; [done..|left; lia].
  - destruct (200 <? Z.of_nat (String.length (content m))) eqn:Hl; [|done].
    intros _. apply Z.ltb_lt in Hl. split_and!; [done..|right; lia].
Qed.

(** X2. No message goes to summarization unless it can be summarized:
    every message of the summarization pool of a pruning operation has at
    least 50 tokens, is not of type [error], and has a code fragment or
    more than 200 characters of content, whatever the strategy and also
    when the message was moved there by the budget correction. *)
Theorem summarized_messages_are_summarizable collaborators context strategy m :
  m ∈ toSummarize (partitions collaborators context strategy) ->
  50 <= tokens m ∧ type m ≠ error
  ∧ ((0 < length (codeBlocks (metadata m)))%nat
     ∨ (200 < String.length (content m))%nat).
Proof.
  intros Hm. apply isSummarizable_true.
  by apply categorizeMessages_toSummarize in Hm.
Qed.

(** The witness of X2: a long explanation that misses the threshold of the
    aggressive strategy is summarized. *)
Lemma summarized_messages_are_summarizable_witness :
  let context := Examples.context [Examples.longLanguage] in
  let collaborators := Examples.collaborators (fun _ => 1 # 10) in
  let m := withImportance (Examples.score (1 # 10)) Examples.longLanguage in
  m ∈ toSummarize (partitions collaborators context aggressiveStrategy)
  ∧ 50 <= tokens m ∧ type m ≠ error
  ∧ ((0 < length (codeBlocks (metadata m)))%nat
     ∨ (200 < String.length (content m))%nat).
Proof.
  intros context collaborators m.
  assert (Hm : m ∈ toSummarize (partitions collaborators context aggressiveStrategy)).
  { vm_compute. left. }
  split; [exact Hm|].
  exact (summarized_messages_are_summarizable collaborators context
           aggressiveStrategy m Hm).
Defined.

(** ** The summary budget *)



(** ** The order of the partitions *)

Lemma orderMapFrom_notin idx original acc key :
  key ∉ map id original -> orderMapFrom idx original acc !! key = acc !! key.
Proof.
  revert idx acc. induction original as [|m l IH]; intros idx acc Hk; simpl; [done|].
  rewrite IH by (intros ?; apply Hk; by right).
  rewrite lookup_insert_ne; [done|]. intros E. apply Hk. rewrite <- E. left.
Qed.

Lemma orderMapFrom_lookup idx original acc i m :
  NoDup (map id original) ->
  original !! i = Some m ->
  orderMapFrom idx original acc !! id m = Some (idx + Z.of_nat i).
Proof.
  revert idx acc i. induction original as [|x l IH]; intros idx acc i Hnd Hi;
    [done|].
  apply NoDup_cons in Hnd as [Hx Hnd]. destruct i as [|i]; simpl in *.
  - injection Hi as ->. rewrite orderMapFrom_notin by done.
    rewrite lookup_insert_eq. f_equal. lia.
  - rewrite (IH _ _ i) by done. f_equal. lia.
Qed.

Lemma orderOf_lookup original i m :
  NoDup (map id original) ->
  original !! i = Some m ->
  orderOf (orderMapFrom 0 original ∅) m = Z.of_nat i.
Proof.
  intros Hnd Hi. unfold orderOf.
  by rewrite (orderMapFrom_lookup 0 original ∅ i m Hnd Hi).
Qed.

Lemma orderOf_inj original m1 m2 :
  NoDup (map id original) ->
  m1 ∈ original -> m2 ∈ original ->
  orderOf (orderMapFrom 0 original ∅) m1 = orderOf (orderMapFrom 0 original ∅) m2 ->
  m1 = m2.
Proof.
  intros Hnd [i1 H1]%list_elem_of_lookup [i2 H2]%list_elem_of_lookup.
  rewrite (orderOf_lookup _ _ _ Hnd H1), (orderOf_lookup _ _ _ Hnd H2).
  intros Heq. assert (i1 = i2) as -> by lia. congruence.
Qed.

Lemma original_sorted original :
  NoDup (map id original) ->
  StronglySorted
    (fun a b => orderOf (orderMapFrom 0 original ∅) a
                <= orderOf (orderMapFrom 0 original ∅) b)
    original.
Proof.
  intros Hnd.
  set (key := orderOf (orderMapFrom 0 original ∅)).
  assert (Hkey : forall i m, original !! i = Some m -> key m = Z.of_nat i).
  { intros. by apply orderOf_lookup. }
  clearbody key. clear Hnd.
  assert (H : forall l k, (forall i m, l !! i = Some m -> key m = Z.of_nat (k + i)) ->
                          StronglySorted (fun a b => key a <= key b) l).
  { induction l as [|x l IH]; intros k Hl; constructor.
    - apply (IH (S k)). intros i m Hi. rewrite (Hl (S i) m Hi). f_equal. lia.
    - apply Forall_forall. intros y [i Hi]%list_elem_of_lookup.
      rewrite (Hl 0%nat x eq_refl), (Hl (S i) y Hi). lia. }
  apply (H original 0%nat). intros i m Hi. by apply Hkey.
Qed.

Lemma StronglySorted_filter {A : Type} (R : relation A) (P : A -> Prop)
  `{forall x, Decision (P x)} (l : list A) :
  StronglySorted R l -> StronglySorted R (filter P l).
Proof.
  induction 1 as [|x l Hl IH Hx]; [constructor|].
  rewrite filter_cons. destruct (decide (P x)); [|done].
  constructor; [done|].
  apply Forall_forall. intros y [_ Hy]%list_elem_of_filter.
  by apply (proj1 (Forall_forall _ _) Hx).
Qed.

Lemma id_inj_on original m1 m2 :
  NoDup (map id original) ->
  m1 ∈ original -> m2 ∈ original -> id m1 = id m2 -> m1 = m2.
Proof.
  intros Hnd [i1 H1]%list_elem_of_lookup [i2 H2]%list_elem_of_lookup Heq.
  assert (i1 = i2) as ->; [|congruence].
  apply (NoDup_lookup (map id original) i1 i2 (id m1)); [done|..].
  - by rewrite list_lookup_fmap, H1.
  - by rewrite list_lookup_fmap, H2, Heq.
Qed.

Lemma restoreOriginalOrder_filter l original :
  NoDup (map id original) ->
  NoDup l ->
  (forall m, m ∈ l -> m ∈ original) ->
  restoreOriginalOrder l original = filter (fun m => id m ∈ map id l) original.
Proof.
  intros Hnd Hl Hsub.
  set (key := orderOf (orderMapFrom 0 original ∅)).
  apply (StronglySorted_unique_strong (fun a b => key a <= key b)).
  - intros x1 x2 H1 H2 Hle1 Hle2.
    apply (orderOf_inj original); [done| | |fold key; lia].
    + apply Hsub. unfold restoreOriginalOrder in H1. by rewrite jsSort_perm in H1.
    + by apply list_elem_of_filter in H2 as [_ ?].
  - unfold restoreOriginalOrder. apply (jsSort_sorted key).
    intros x y. fold key. apply eq_iff_eq_true.
    rewrite !Z.ltb_lt. lia.
  - by apply StronglySorted_filter, original_sorted.
  - unfold restoreOriginalOrder. rewrite jsSort_perm.
    apply NoDup_Permutation; [done| |].
    + apply NoDup_filter. apply (NoDup_fmap_1 id). done.
    + intros m. rewrite list_elem_of_filter. split.
      * intros Hm. split; [by apply list_elem_of_fmap_2|by apply Hsub].
      * intros [(m' & Hid & Hm')%list_elem_of_fmap Hm].
        rewrite (id_inj_on original m m' Hnd Hm (Hsub m' Hm') Hid). done.
Qed.

(** X4. When the messages of the context have pairwise distinct
    identifiers, each of the three partitions lists its messages in the
    order of the context: it is the scored context filtered to the
    identifiers of the partition. *)
Theorem partitions_in_original_order collaborators context strategy :
  NoDup (map id (messages context)) ->
  let scored :=
    ContextAnalyzer.scoreMessages (calculateImportanceScore collaborators) context in
  let parts := partitions collaborators context strategy in
  preserved parts = filter (fun m => id m ∈ map id (preserved parts)) scored
  ∧ toSummarize parts = filter (fun m => id m ∈ map id (toSummarize parts)) scored
  ∧ toRemove parts = filter (fun m => id m ∈ map id (toRemove parts)) scored
  ∧ sublist (preserved parts) scored
  ∧ sublist (toSummarize parts) scored
  ∧ sublist (toRemove parts) scored.
Proof.
  intros Hnd scored parts.
  assert (Hnds : NoDup (map id scored)).
  { subst scored. by rewrite scoreMessages_ids. }
  assert (Hp : preserved parts ++ toSummarize parts ++ toRemove parts ≡ₚ scored)
    by apply categorizeMessages_perm.
  assert (Hall : NoDup (preserved parts ++ toSummarize parts ++ toRemove parts)).
  { rewrite Hp. by apply (NoDup_fmap_1 id). }
  apply NoDup_app in Hall as (HP & _ & (HS & _ & HR)%NoDup_app).
  assert (Hin : forall m, m ∈ preserved parts ∨ m ∈ toSummarize parts
                           ∨ m ∈ toRemove parts -> m ∈ scored).
  { intros m Hm. rewrite <- Hp, !elem_of_app. tauto. }
  assert (Hres : forall l, NoDup l -> (forall m, m ∈ l -> m ∈ scored) ->
            restoreOriginalOrder l scored
            = filter (fun m => id m ∈ map id (restoreOriginalOrder l scored)) scored
            ∧ sublist (restoreOriginalOrder l scored) scored).
  { intros l Hl Hsub.
    assert (Hf : restoreOriginalOrder l scored
                 = filter (fun m => id m ∈ map id (restoreOriginalOrder l scored))
                     scored).
    { rewrite (restoreOriginalOrder_filter l scored Hnds Hl Hsub) at 1.
      apply list_filter_iff. intros m.
      by rewrite restoreOriginalOrder_perm. }
    split; [exact Hf|]. rewrite Hf. apply sublist_filter. }
  unfold parts, partitions, categorizeMessages in *.
  fold scored in HP, HS, HR, Hin |- *.
  destruct (foldl _ _ _) as [[fs rm] n]. simpl in *.
  rewrite restoreOriginalOrder_perm in HP, HS, HR.
  destruct (Hres _ HP) as [? ?].
  { intros m Hm. apply Hin. left. by rewrite restoreOriginalOrder_perm. }
  destruct (Hres _ HS) as [? ?].
  { intros m Hm. apply Hin. right. left. by rewrite restoreOriginalOrder_perm. }
  destruct (Hres _ HR) as [? ?].
  { intros m Hm. apply Hin. right. right. by rewrite restoreOriginalOrder_perm. }
  done.
Qed.

(** The witness of X4: the three messages of the test suite. *)
Lemma partitions_in_original_order_witness :
  let context := Examples.context Examples.testMessages in
  let collaborators := Examples.collaborators Examples.byType in
  let scored :=
    ContextAnalyzer.scoreMessages (calculateImportanceScore collaborators) context in
  let parts := partitions collaborators context aggressiveStrategy in
  NoDup (map id (messages context))
  ∧ preserved parts = filter (fun m => id m ∈ map id (preserved parts)) scored
  ∧ toSummarize parts = filter (fun m => id m ∈ map id (toSummarize parts)) scored
  ∧ toRemove parts = filter (fun m => id m ∈ map id (toRemove parts)) scored
  ∧ sublist (preserved parts) scored
  ∧ sublist (toSummarize parts) scored
  ∧ sublist (toRemove parts) scored.
Proof.
  intros context collaborators scored parts.
  assert (Hnd : NoDup (map id (messages context))).
  { apply (bool_decide_unpack _). vm_compute. reflexivity. }
  split; [exact Hnd|].
  exact (partitions_in_original_order collaborators context aggressiveStrategy Hnd).
Defined.

(** ** Always-preserve types when the budget correction does not apply *)

Lemma triage_currentTokens strategy l st :
  currentTokens st = calculateTotalTokens (t_preserved st) ->
  currentTokens (foldl (triageStep strategy) st l)
  = calculateTotalTokens (t_preserved (foldl (triageStep strategy) st l)).
Proof.
  revert st. induction l as [|m l IH]; intros st H; simpl; [done|].
  apply IH. unfold triageStep.
  destruct (_ || _); [|destruct (isSummarizable m)]; simpl; [|done..].
  rewrite calculateTotalTokens_app, calculateTotalTokens_cons, H.
  unfold calculateTotalTokens at 3. simpl. lia.
Qed.

(** X5. When no token count is negative and the token counts of the
    context add up to at most the product [maxTokens * preserveRatio] as
    the code computes it, in double precision, every message whose type is
    in the always-preserve set of the strategy is preserved, whatever its
    score. *)
Theorem always_preserved_within_preserve_budget collaborators context strategy m :
  (forall x, x ∈ messages context -> 0 <= tokens x) ->
  (inject_Z (calculateTotalTokens (messages context))
   <= doubleMul (inject_Z (maxTokens strategy)) (preserveRatio strategy))%Q ->
  m ∈ ContextAnalyzer.scoreMessages (calculateImportanceScore collaborators) context ->
  type m ∈ alwaysPreserve strategy ->
  m ∈ preserved (partitions collaborators context strategy).
Proof.
  intros Hpos Hratio Hm Htype.
  set (scored := ContextAnalyzer.scoreMessages _ context) in *.
  assert (Htok : calculateTotalTokens scored = calculateTotalTokens (messages context)).
  { apply calculateTotalTokens_map, scoreMessages_tokens. }
  assert (Hpos' : forall x, x ∈ scored -> 0 <= tokens x).
  { intros x Hx.
    assert (Hin : tokens x ∈ map tokens (messages context)).
    { rewrite <- (scoreMessages_tokens (calculateImportanceScore collaborators)).
      by apply list_elem_of_fmap_2. }
    apply list_elem_of_fmap in Hin as (x' & -> & Hx'). by apply Hpos. }
  unfold partitions, categorizeMessages. fold scored.
  set (sorted := jsSort lessImportant scored).
  assert (Hsorted : sorted ≡ₚ scored) by apply jsSort_perm.
  set (st := triage strategy sorted).
  assert (Hcur : currentTokens st <= calculateTotalTokens scored).
  { subst st. unfold triage. rewrite triage_currentTokens by reflexivity.
    fold (triage strategy sorted).
    rewrite <- (calculateTotalTokens_perm _ _ Hsorted).
    rewrite <- (calculateTotalTokens_perm _ _ (triage_perm strategy sorted)).
    rewrite !calculateTotalTokens_app.
    assert (Hsub : forall l, (forall x, x ∈ l -> x ∈ sorted) ->
                             0 <= calculateTotalTokens l).
    { intros l Hl. apply calculateTotalTokens_nonneg. intros x Hx.
      apply Hpos'. rewrite <- Hsorted. by apply Hl. }
    assert (H1 : 0 <= calculateTotalTokens (t_toSummarize (triage strategy sorted))).
    { apply Hsub. intros x Hx. rewrite <- (triage_perm strategy sorted), !elem_of_app.
      tauto. }
    assert (H2 : 0 <= calculateTotalTokens (t_toRemove (triage strategy sorted))).
    { apply Hsub. intros x Hx. rewrite <- (triage_perm strategy sorted), !elem_of_app.
      tauto. }
    lia. }
  rewrite budgetCorrection_within.
  - destruct (foldl _ _ _) as [[fs rm] n]. simpl.
    rewrite restoreOriginalOrder_perm.
    apply triage_preserves_always; [|done]. by rewrite Hsorted.
  - eapply Qle_trans; [|exact Hratio].
    rewrite <- Zle_Qle. lia.
Qed.

(** The witness of X5: an error report of 62999 tokens under the
    conservative strategy with a budget of 90000 tokens, where the product
    is [62999.99999999999]. *)
Lemma always_preserved_within_preserve_budget_witness :
  let strategy :=
    {| name := "conservative"; maxTokens := 90000; preserveRatio := 7 # 10;
       summaryRatio := 2 # 10; importanceThreshold := 3 # 10;
       alwaysPreserve := [error; code_change; file_operation; tool_use] |} in
  let report := Examples.message "msg_err" error assistant "Error: build failed" 62999 [] in
  let context := Examples.context [report] in
  let collaborators := Examples.collaborators (fun _ => 0%Q) in
  let m := withImportance (Examples.score 0) report in
  ((forall x, x ∈ messages context -> 0 <= tokens x)
   ∧ (inject_Z (calculateTotalTokens (messages context))
      <= doubleMul (inject_Z (maxTokens strategy)) (preserveRatio strategy))%Q
   ∧ m ∈ ContextAnalyzer.scoreMessages (calculateImportanceScore collaborators) context
   ∧ type m ∈ alwaysPreserve strategy)
  ∧ m ∈ preserved (partitions collaborators context strategy).
Proof.
  intros strategy report context collaborators m.
  assert (H1 : forall x, x ∈ messages context -> 0 <= tokens x).
  { intros x Hx. vm_compute in Hx.
    repeat (apply elem_of_cons in Hx as [->|Hx]);
      [vm_compute; discriminate ..|by apply elem_of_nil in Hx]. }
  assert (H2 : (inject_Z (calculateTotalTokens (messages context))
                <= doubleMul (inject_Z (maxTokens strategy)) (preserveRatio strategy))%Q)
    by (vm_compute; discriminate).
  assert (H3 : m ∈ ContextAnalyzer.scoreMessages
                     (calculateImportanceScore collaborators) context).
  { vm_compute. left. }
  assert (H4 : type m ∈ alwaysPreserve strategy).
  { apply (bool_decide_unpack _). vm_compute. reflexivity. }
  split; [split_and!; [exact H1|exact H2|exact H3|exact H4]|].
  exact (always_preserved_within_preserve_budget collaborators context
           strategy m H1 H2 H3 H4).
Defined.

(** The same strategy and a report of 63000 tokens: the product
    [90000 * 0.7] is [63000 - 2 ^ -37] in double precision, so the
    correction applies, [Math.floor(1 * 0.7)] is 0, and the report is
    removed. With 90 preserved messages the split would be at
    [Math.floor(90 * 0.7)], which is 62. *)
Lemma preserve_budget_in_doubles :
  let strategy :=
    {| name := "conservative"; maxTokens := 90000; preserveRatio := 7 # 10;
       summaryRatio := 2 # 10; importanceThreshold := 3 # 10;
       alwaysPreserve := [error; code_change; file_operation; tool_use] |} in
  let report := Examples.message "msg_err" error assistant "Error: build failed" 63000 [] in
  let context := Examples.context [report] in
  let collaborators := Examples.collaborators (fun _ => 0%Q) in
  (doubleMul 90000 (7 # 10) == 63000 - (1 # 137438953472))%Q
  ∧ Qfloor (doubleMul 90 (7 # 10)) = 62
  ∧ (inject_Z (calculateTotalTokens (messages context))
     <= inject_Z (maxTokens strategy) * preserveRatio strategy)%Q
  ∧ preserved (partitions collaborators context strategy) = []
  ∧ map id (toRemove (partitions collaborators context strategy)) = ["msg_err"].
Proof.
  cbv zeta. split_and!; try (vm_compute; reflexivity). vm_compute. discriminate.
Qed.

(** ** The undo buffer: capacity, eviction, retrieval *)

Lemma mapSet_keys key data h :
  mapKeys (mapSet key data h)
  = if bool_decide (key ∈ mapKeys h) then mapKeys h else mapKeys h ++ [key].
Proof.
  induction h as [|[k d] h IH]; simpl; [done|].
  destruct (String.eqb_spec k key) as [->|Hne]; simpl.
  - rewrite bool_decide_eq_true_2 by left. done.
  - rewrite IH. destruct (bool_decide (key ∈ mapKeys h)) eqn:E.
    + apply bool_decide_eq_true in E. rewrite bool_decide_eq_true_2 by (by right).
      done.
    + apply bool_decide_eq_false in E. rewrite bool_decide_eq_false_2; [done|].
      intros [?|?]%elem_of_cons; [congruence|done].
Qed.

Lemma mapSet_length key data h :
  length (mapSet key data h)
  = if bool_decide (key ∈ mapKeys h) then length h else S (length h).
Proof.
  rewrite <- (length_map fst (mapSet key data h)).
  fold (mapKeys (mapSet key data h)). rewrite mapSet_keys.
  destruct (bool_decide _); unfold mapKeys; rewrite ?length_app, !length_map;
    simpl; lia.
Qed.

Lemma mapGet_mapSet key data h : mapGet key (mapSet key data h) = Some data.
Proof.
  induction h as [|[k d] h IH]; simpl.
  - by rewrite String.eqb_refl.
  - destruct (String.eqb_spec k key) as [->|Hne]; simpl.
    + by rewrite String.eqb_refl.
    + destruct (String.eqb_spec k key); [done|exact IH].
Qed.

Lemma mapSet_new key data h :
  key ∉ mapKeys h -> mapSet key data h = h ++ [(key, data)].
Proof.
  induction h as [|[k d] h IH]; simpl; intros Hk; [done|].
  destruct (String.eqb_spec k key) as [->|Hne].
  - exfalso. apply Hk. left.
  - rewrite IH; [done|]. intros ?. apply Hk. by right.
Qed.

Lemma filter_all {A : Type} (P : A -> Prop) `{forall x, Decision (P x)} (l : list A) :
  Forall P l -> filter P l = l.
Proof.
  induction 1 as [|x l Hx _ IH]; [done|].
  by rewrite filter_cons_True, IH.
Qed.

Lemma StronglySorted_weaken {A : Type} (R1 R2 : relation A) (l : list A) :
  (forall a b, R1 a b -> R2 a b) -> StronglySorted R1 l -> StronglySorted R2 l.
Proof.
  intros HR. induction 1 as [|x l _ IH Hx]; constructor; [done|].
  eapply Forall_impl; [exact Hx|]. apply HR.
Qed.

Lemma mapDelete_head k d rest :
  k ∉ mapKeys rest -> mapDelete k ((k, d) :: rest) = rest.
Proof.
  intros Hk. unfold mapDelete. rewrite filter_cons_False by (simpl; tauto).
  apply filter_all. apply Forall_forall. intros [k' d'] Hin. simpl.
  intros ->. apply Hk. unfold mapKeys. by apply (list_elem_of_fmap_2 fst) in Hin.
Qed.

Lemma mapDelete_length key h : (length (mapDelete key h) <= length h)%nat.
Proof. apply length_filter. Qed.

Lemma mapDelete_NoDup key h : NoDup (mapKeys h) -> NoDup (mapKeys (mapDelete key h)).
Proof.
  unfold mapKeys, mapDelete. intros H.
  eapply sublist_NoDup; [exact H|]. apply fmap_sublist, sublist_filter.
Qed.

(** The invariant of the buffer: at most five records, each key once, no
    empty key. *)
Lemma storeRollbackData_invariant id data h :
  id ≠ "" ->
  (length h <= 5)%nat ∧ NoDup (mapKeys h) ∧ "" ∉ mapKeys h ->
  let h' := storeRollbackData id data h in
  (length h' <= 5)%nat ∧ NoDup (mapKeys h') ∧ "" ∉ mapKeys h'.
Proof.
  intros Hid (Hlen & Hnd & Hempty). unfold storeRollbackData.
  pose proof (mapSet_length id data h) as Hl.
  pose proof (mapSet_keys id data h) as Hk.
  assert (Hnd' : NoDup (mapKeys (mapSet id data h))).
  { rewrite Hk. destruct (bool_decide (id ∈ mapKeys h)) eqn:E; [done|].
    apply bool_decide_eq_false in E. apply NoDup_app. split_and!; [done| |].
    - intros x Hx ->%list_elem_of_singleton. done.
    - apply NoDup_singleton. }
  assert (Hempty' : "" ∉ mapKeys (mapSet id data h)).
  { rewrite Hk. destruct (bool_decide (id ∈ mapKeys h)); [done|].
    rewrite elem_of_app, list_elem_of_singleton. intros [?|?]; [done|congruence]. }
  destruct (MAX_ROLLBACK_HISTORY <? Z.of_nat (length (mapSet id data h))) eqn:Hfull.
  - apply Z.ltb_lt in Hfull. unfold MAX_ROLLBACK_HISTORY in Hfull.
    destruct (mapSet id data h) as [|[k0 d0] rest] eqn:Eh; [simpl in Hfull; lia|].
    simpl mapKeys. cbn [map fst].
    apply NoDup_cons in Hnd' as [Hk0 Hrest].
    destruct (String.eqb_spec k0 "") as [->|Hk0ne].
    { exfalso. apply Hempty'. left. }
    rewrite mapDelete_head by done. split_and!.
    + destruct (bool_decide (id ∈ mapKeys h)); simpl in Hl; lia.
    + done.
    + intros ?. apply Hempty'. by right.
  - apply Z.ltb_ge in Hfull. unfold MAX_ROLLBACK_HISTORY in Hfull.
    split_and!; [lia|done..].
Qed.

Lemma rollback_invariant id h :
  (length h <= 5)%nat ∧ NoDup (mapKeys h) ∧ "" ∉ mapKeys h ->
  let h' := snd (rollback id h) in
  (length h' <= 5)%nat ∧ NoDup (mapKeys h') ∧ "" ∉ mapKeys h'.
Proof.
  intros (Hlen & Hnd & Hempty). unfold rollback.
  destruct (mapGet id h); simpl; [|done]. split_and!.
  - pose proof (mapDelete_length id h). lia.
  - by apply mapDelete_NoDup.
  - rewrite mapDelete_keys. tauto.
Qed.

(** X6. Whatever pruning and undo operations an engine has performed, with
    pruning identifiers that are not empty (those of [generatePruningId]
    start with [prune_]), its undo buffer holds at most five records, and
    no identifier twice. *)
Theorem undo_buffer_bounded (ops : list Operation) :
  (forall id data, OpPrune id data ∈ ops -> id ≠ "") ->
  (Z.of_nat (length (historyAfter ops)) <= MAX_ROLLBACK_HISTORY)
  ∧ NoDup (mapKeys (historyAfter ops)).
Proof.
  intros Hids. unfold historyAfter.
  assert (H : forall l h,
    (forall id data, OpPrune id data ∈ l -> id ≠ "") ->
    (length h <= 5)%nat ∧ NoDup (mapKeys h) ∧ "" ∉ mapKeys h ->
    (length (foldl perform h l) <= 5)%nat ∧ NoDup (mapKeys (foldl perform h l))
    ∧ "" ∉ mapKeys (foldl perform h l)).
  { induction l as [|op l IH]; intros h Hl Hh; simpl; [done|].
    apply IH; [intros; eapply Hl; by right|].
    destruct op as [id data|id]; simpl.
    - apply storeRollbackData_invariant; [|done]. apply (Hl id data). left.
    - by apply rollback_invariant. }
  destruct (H ops [] Hids) as (Hlen & Hnd & _).
  { split_and!; [simpl; lia|constructor|by intros ?%elem_of_nil]. }
  split; [unfold MAX_ROLLBACK_HISTORY; lia|done].
Qed.

(** The witness of X6: seven pruning operations and an undo request. *)
Lemma undo_buffer_bounded_witness :
  let data := {| pruningId := "p"; removedMessages := []; originalOrder := [];
                 rollbackTimestamp := 0 |} in
  let ops := [OpPrune "prune_1" data; OpPrune "prune_2" data; OpPrune "prune_3" data;
              OpRollback "prune_2"; OpPrune "prune_4" data; OpPrune "prune_5" data;
              OpPrune "prune_6" data; OpPrune "prune_7" data] in
  (forall id d, OpPrune id d ∈ ops -> id ≠ "")
  ∧ (Z.of_nat (length (historyAfter ops)) <= MAX_ROLLBACK_HISTORY)
  ∧ NoDup (mapKeys (historyAfter ops)).
Proof.
  intros data ops.
  assert (H : forall id d, OpPrune id d ∈ ops -> id ≠ "").
  { intros id d Hin. unfold ops in Hin.
    repeat (apply elem_of_cons in Hin as [Hin|Hin]; [by inversion Hin|]).
    by apply elem_of_nil in Hin. }
  split; [exact H|]. exact (undo_buffer_bounded ops H).
Defined.

(** X7. Storing a record under a new identifier in a full buffer evicts
    the oldest record and nothing else: the other records keep their order
    and the new one comes last; an undo request for the evicted identifier
    then fails. *)
Theorem full_buffer_evicts_oldest k0 d0 rest id data :
  length ((k0, d0) :: rest) = 5%nat ->
  NoDup (mapKeys ((k0, d0) :: rest)) ->
  k0 ≠ "" ->
  id ∉ mapKeys ((k0, d0) :: rest) ->
  storeRollbackData id data ((k0, d0) :: rest) = rest ++ [(id, data)]
  ∧ fst (rollback k0 (storeRollbackData id data ((k0, d0) :: rest))) = false
  ∧ fst (rollback id (storeRollbackData id data ((k0, d0) :: rest))) = true.
Proof.
  intros Hlen Hnd Hk0 Hid.
  assert (Hstore : storeRollbackData id data ((k0, d0) :: rest) = rest ++ [(id, data)]).
  { unfold storeRollbackData. rewrite mapSet_new by done.
    assert (Hfull : (MAX_ROLLBACK_HISTORY
                     <? Z.of_nat (length (((k0, d0) :: rest) ++ [(id, data)]))) = true).
    { apply Z.ltb_lt. rewrite length_app, Hlen. unfold MAX_ROLLBACK_HISTORY.
      simpl. lia. }
    rewrite Hfull. cbn [app mapKeys map fst].
    destruct (String.eqb_spec k0 ""); [done|].
    apply mapDelete_head. unfold mapKeys. rewrite map_app. simpl.
    apply NoDup_cons in Hnd as [Hk Hrest].
    rewrite elem_of_app, list_elem_of_singleton. intros [?| ->]; [done|].
    apply Hid. left. }
  rewrite Hstore. split; [done|]. split.
  - destruct (fst (rollback k0 (rest ++ [(id, data)]))) eqn:E; [|done].
    apply rollback_true in E. unfold mapKeys in E. rewrite map_app in E.
    apply NoDup_cons in Hnd as [Hk Hrest].
    apply elem_of_app in E as [E|E%list_elem_of_singleton]; [done|].
    simpl in E. subst. exfalso. apply Hid. left.
  - apply rollback_true. unfold mapKeys. rewrite map_app.
    apply elem_of_app. right. by left.
Qed.

(** The witness of X7: five records, then a sixth. *)
Lemma full_buffer_evicts_oldest_witness :
  let data := {| pruningId := "p"; removedMessages := []; originalOrder := [];
                 rollbackTimestamp := 0 |} in
  let rest := [("prune_2", data); ("prune_3", data); ("prune_4", data);
               ("prune_5", data)] in
  length (("prune_1", data) :: rest) = 5%nat
  ∧ NoDup (mapKeys (("prune_1", data) :: rest))
  ∧ "prune_1" ≠ ""
  ∧ ("prune_6" ∉ mapKeys (("prune_1", data) :: rest))
  ∧ storeRollbackData "prune_6" data (("prune_1", data) :: rest)
    = rest ++ [("prune_6", data)]
  ∧ fst (rollback "prune_1"
           (storeRollbackData "prune_6" data (("prune_1", data) :: rest))) = false
  ∧ fst (rollback "prune_6"
           (storeRollbackData "prune_6" data (("prune_1", data) :: rest))) = true.
Proof.
  intros data rest.
  assert (H1 : length (("prune_1", data) :: rest) = 5%nat) by reflexivity.
  assert (H2 : NoDup (mapKeys (("prune_1", data) :: rest))).
  { apply (bool_decide_unpack _). vm_compute. reflexivity. }
  assert (H3 : "prune_1" ≠ "") by discriminate.
  assert (H4 : "prune_6" ∉ mapKeys (("prune_1", data) :: rest)).
  { apply (bool_decide_unpack _). vm_compute. reflexivity. }
  split; [exact H1|]. split; [exact H2|]. split; [exact H3|]. split; [exact H4|].
  exact (full_buffer_evicts_oldest "prune_1" data rest "prune_6" data H1 H2 H3 H4).
Defined.

Lemma mapGet_storeRollbackData id data h :
  (length h <= 5)%nat ->
  mapGet id (storeRollbackData id data h) = Some data.
Proof.
  intros Hlen. unfold storeRollbackData.
  pose proof (mapSet_length id data h) as Hl.
  destruct (MAX_ROLLBACK_HISTORY <? Z.of_nat (length (mapSet id data h))) eqn:Hfull;
    [|apply mapGet_mapSet].
  apply Z.ltb_lt in Hfull. unfold MAX_ROLLBACK_HISTORY in Hfull.
  destruct (bool_decide (id ∈ mapKeys h)) eqn:E; [lia|].
  apply bool_decide_eq_false in E.
  rewrite mapSet_new by done.
  destruct h as [|[k0 d0] rest]; [simpl in *; lia|].
  cbn [app mapKeys map fst].
  assert (Hnew : mapGet id ((k0, d0) :: rest ++ [(id, data)]) = Some data).
  { rewrite app_comm_cons, <- (mapSet_new id data ((k0, d0) :: rest)) by exact E.
    apply mapGet_mapSet. }
  destruct (String.eqb_spec k0 ""); [exact Hnew|].
  rewrite mapGet_mapDelete_ne; [exact Hnew|].
  intros ->. apply E. left.
Qed.

(** X8. A pruning operation on an engine whose buffer holds at most five
    records stores its undo record under its identifier: the record can be
    looked up afterwards, it is the one the result reports, and an undo
    request with the identifier succeeds, once. *)
Theorem prune_then_rollback
  collaborators patterns clock h pruningId now context strategy :
  (length h <= 5)%nat ->
  let '(r, h') := prune collaborators patterns clock h pruningId now context strategy in
  mapGet pruningId h' = Some (rollbackData r)
  ∧ removedMessages (rollbackData r) = toRemove (partitions collaborators context strategy)
  ∧ originalOrder (rollbackData r) = map id (messages context)
  ∧ fst (rollback pruningId h') = true
  ∧ fst (rollback pruningId (snd (rollback pruningId h'))) = false.
Proof.
  intros Hlen. unfold prune. cbv zeta.
  set (data := {| pruningId := pruningId; removedMessages := _;
                  originalOrder := _; rollbackTimestamp := now |}).
  set (h' := storeRollbackData pruningId data h).
  assert (Hget : mapGet pruningId h' = Some data)
    by (by apply mapGet_storeRollbackData).
  assert (Hin : fst (rollback pruningId h') = true).
  { apply rollback_true, mapGet_is_Some. eauto. }
  split_and!; [exact Hget|reflexivity|reflexivity|exact Hin|].
  destruct (fst (rollback pruningId (snd (rollback pruningId h')))) eqn:E; [|done].
  apply rollback_true in E.
  assert (Hsnd : snd (rollback pruningId h') = mapDelete pruningId h').
  { unfold rollback. by rewrite Hget. }
  rewrite Hsnd, mapDelete_keys in E. by destruct E.
Qed.

(** The witness of X8: a pruning operation on a new engine. *)
Lemma prune_then_rollback_witness :
  (length ([] : RollbackHistory) <= 5)%nat
  ∧ let '(r, h') := prune (Examples.collaborators Examples.byType) Examples.noMatches
                      Examples.clock [] "prune_1" 0
                      (Examples.context Examples.testMessages) balancedStrategy in
    mapGet "prune_1" h' = Some (rollbackData r)
    ∧ removedMessages (rollbackData r)
      = toRemove (partitions (Examples.collaborators Examples.byType)
                    (Examples.context Examples.testMessages) balancedStrategy)
    ∧ originalOrder (rollbackData r)
      = map id (messages (Examples.context Examples.testMessages))
    ∧ fst (rollback "prune_1" h') = true
    ∧ fst (rollback "prune_1" (snd (rollback "prune_1" h'))) = false.
Proof.
  assert (H : (length ([] : RollbackHistory) <= 5)%nat) by (simpl; lia).
  split; [exact H|].
  exact (prune_then_rollback (Examples.collaborators Examples.byType)
           Examples.noMatches Examples.clock [] "prune_1" 0
           (Examples.context Examples.testMessages) balancedStrategy H).
Defined.

(** X9. The list of available undo records holds every stored record
    once and is ordered from the latest time stamp to the earliest. *)
Theorem available_rollbacks_latest_first (h : RollbackHistory) :
  getAvailableRollbacks h ≡ₚ map snd h
  ∧ StronglySorted (fun a b => rollbackTimestamp b <= rollbackTimestamp a)
      (getAvailableRollbacks h).
Proof.
  unfold getAvailableRollbacks. split; [apply jsSort_perm|].
  pose proof (jsSort_sorted (fun d => - rollbackTimestamp d)
                (fun a b => 0 <? rollbackTimestamp b - rollbackTimestamp a)) as H.
  eapply StronglySorted_weaken; [|apply H].
  - intros a b ?. simpl in *. lia.
  - intros x y. apply eq_iff_eq_true. rewrite !Z.ltb_lt. lia.
Qed.

(** ** Environment variables *)

(** X10. Whatever the strategy, filtering the environment variables keeps
    every essential variable with its value and adds or changes nothing;
    what the aggressive strategy keeps, the balanced one keeps too. *)
Theorem environment_filter_keeps_essentials
  (envVars : gmap string string) (strategy : option PruningStrategy) :
  filterEnvironmentVariables envVars strategy ⊆ envVars
  ∧ (forall key value,
       key ∈ essentialVars -> envVars !! key = Some value ->
       filterEnvironmentVariables envVars strategy !! key = Some value)
  ∧ filterEnvironmentVariables envVars (Some aggressiveStrategy)
    ⊆ filterEnvironmentVariables envVars (Some balancedStrategy)
  ∧ filterEnvironmentVariables envVars (Some conservativeStrategy) = envVars.
Proof.
  split_and!.
  - unfold filterEnvironmentVariables. destruct strategy as [s|]; [|done].
    repeat destruct (String.eqb _ _); try done; apply map_filter_subseteq.
  - intros key value Hkey Hval. unfold filterEnvironmentVariables.
    destruct strategy as [s|]; [|done].
    repeat destruct (String.eqb _ _); try done;
      apply map_lookup_filter_Some; (split; [done|]); simpl; tauto.
  - simpl. apply map_subseteq_spec. intros key value.
    rewrite !map_lookup_filter_Some. simpl. tauto.
  - reflexivity.
Qed.

(** * Further properties of the summarizer *)

(** ** Segmentation loses nothing *)

Lemma closeSegments_concat segments currentSegment :
  concat (Summarizer.closeSegments (segments, currentSegment))
  = concat segments ++ currentSegment.
Proof.
  unfold Summarizer.closeSegments. destruct currentSegment as [|m l]; simpl.
  - by rewrite app_nil_r.
  - rewrite concat_app. simpl. by rewrite app_nil_r.
Qed.

Lemma closeSegments_nonempty segments currentSegment :
  Forall (fun segment => segment ≠ []) segments ->
  Forall (fun segment => segment ≠ [])
    (Summarizer.closeSegments (segments, currentSegment)).
Proof.
  intros H. unfold Summarizer.closeSegments.
  destruct currentSegment as [|m l]; simpl; [done|].
  apply Forall_app. split; [done|]. by apply Forall_singleton.
Qed.

Local Abbreviation interactionClosed :=
  (fun segment : list ConversationMessage =>
     (exists m, last segment = Some m ∧ role m = assistant)
     ∧ (exists u, u ∈ segment ∧ role u = user)).

Lemma interactionStep_invariant st message :
  Forall interactionClosed st.1 ->
  Forall interactionClosed (Summarizer.interactionStep st message).1
  ∧ concat (Summarizer.interactionStep st message).1
      ++ (Summarizer.interactionStep st message).2
    = (concat st.1 ++ st.2) ++ [message].
Proof.
  destruct st as [segments currentSegment]. cbn [fst snd]. intros Hclosed.
  unfold Summarizer.interactionStep.
  destruct (bool_decide (role message = assistant)
            && (2 <=? length (currentSegment ++ [message]))%nat
            && existsb (fun m => bool_decide (role m = user))
                 (currentSegment ++ [message])) eqn:E; cbn [fst snd].
  - apply andb_true_iff in E as [[Hrole%bool_decide_eq_true _]%andb_true_iff Hex].
    split.
    + apply Forall_app. split; [done|]. apply Forall_singleton. split.
      * exists message. by rewrite last_snoc.
      * apply existsb_exists in Hex as (u & Hu & Hr%bool_decide_eq_true).
        exists u. split; [by apply list_elem_of_In|done].
    + rewrite concat_app. simpl. by rewrite !app_nil_r, app_assoc.
  - split; [done|]. by rewrite app_assoc.
Qed.

Lemma foldl_interactionStep_invariant l st :
  Forall interactionClosed st.1 ->
  Forall interactionClosed (foldl Summarizer.interactionStep st l).1
  ∧ concat (foldl Summarizer.interactionStep st l).1
      ++ (foldl Summarizer.interactionStep st l).2
    = (concat st.1 ++ st.2) ++ l.
Proof.
  revert st. induction l as [|m l IH]; intros st Hst; simpl.
  - by rewrite app_nil_r.
  - destruct (interactionStep_invariant st m Hst) as [H1 H2].
    destruct (IH _ H1) as [H3 H4]. split; [done|].
    by rewrite H4, H2, <- app_assoc.
Qed.

Lemma segmentByInteraction_nonempty messages :
  Forall (fun segment => segment ≠ []) (Summarizer.segmentByInteraction messages).
Proof.
  unfold Summarizer.segmentByInteraction.
  destruct (foldl_interactionStep_invariant messages ([], [])) as [Hclosed _];
    [constructor|].
  destruct (foldl Summarizer.interactionStep _ messages) as [segments cur].
  apply closeSegments_nonempty.
  eapply Forall_impl; [exact Hclosed|]. intros seg [(m & Hm & _) _] ->. done.
Qed.

(** X11. The interaction segments of a list of messages, put end to end,
    are the list itself; no segment is empty; and every segment but the
    last ends with a message of the assistant and holds a message of the
    user. *)
Theorem segmentByInteraction_partitions (messages : list ConversationMessage) :
  let segments := Summarizer.segmentByInteraction messages in
  concat segments = messages
  ∧ Forall (fun segment => segment ≠ []) segments
  ∧ (forall i segment,
       segments !! i = Some segment -> (S i < length segments)%nat ->
       (exists m, last segment = Some m ∧ role m = assistant)
       ∧ (exists u, u ∈ segment ∧ role u = user)).
Proof.
  cbv zeta. split_and!; [| apply segmentByInteraction_nonempty |].
  all: unfold Summarizer.segmentByInteraction.
  all: destruct (foldl_interactionStep_invariant messages ([], []))
         as [Hclosed Hconcat]; [constructor|].
  all: destruct (foldl Summarizer.interactionStep _ messages) as [segments cur].
  all: cbn [fst snd] in *.
  - by rewrite closeSegments_concat.
  - intros i segment Hi Hlt. unfold Summarizer.closeSegments in Hi, Hlt.
    assert (Hseg : segments !! i = Some segment).
    { destruct (0 <? length cur)%nat.
      - rewrite length_app in Hlt. simpl in Hlt.
        rewrite lookup_app_l in Hi by lia. done.
      - done. }
    apply (proj1 (Forall_forall _ _) Hclosed), list_elem_of_lookup. eauto.
Qed.

Lemma topicStep_concat st message :
  concat (Summarizer.topicStep st message).1.1 ++ (Summarizer.topicStep st message).1.2
  = (concat st.1.1 ++ st.1.2) ++ [message].
Proof.
  destruct st as [[segments currentSegment] lastFiles]. cbn [fst snd].
  unfold Summarizer.topicStep.
  destruct (_ && _).
  - destruct (Summarizer.TOPIC_SEGMENT_CAP <=? length ([] ++ [message]))%nat;
      cbn [fst snd]; rewrite ?concat_app; simpl; by rewrite ?app_nil_r, <- ?app_assoc.
  - destruct (Summarizer.TOPIC_SEGMENT_CAP <=? length (currentSegment ++ [message]))%nat;
      cbn [fst snd]; rewrite ?concat_app; simpl; by rewrite ?app_nil_r, <- ?app_assoc.
Qed.

(** X12. The topic segments of a list of messages, put end to end, are
    the list itself, and each holds between one and ten messages. *)
Theorem segmentByTopic_partitions (messages : list ConversationMessage) :
  let segments := Summarizer.segmentByTopic messages in
  concat segments = messages
  ∧ Forall (fun segment => (1 <= length segment <= 10)%nat) segments.
Proof.
  split.
  - unfold Summarizer.segmentByTopic.
    assert (H : forall l st,
      concat (foldl Summarizer.topicStep st l).1.1 ++ (foldl Summarizer.topicStep st l).1.2
      = (concat st.1.1 ++ st.1.2) ++ l).
    { induction l as [|m l IH]; intros st; simpl.
      - by rewrite app_nil_r.
      - by rewrite IH, topicStep_concat, <- app_assoc. }
    specialize (H messages (([], []), ∅)).
    destruct (foldl Summarizer.topicStep _ messages) as [[segments cur] files].
    cbn [fst snd] in *. by rewrite closeSegments_concat.
  - apply Forall_forall. intros segment. apply segmentByTopic_cap.
Qed.

(** ** Segmentation by file *)

Local Abbreviation primaryFileOf :=
  (fun m : ConversationMessage => head (fileReferences (metadata m))).

Lemma addToGroup_concat f m groups :
  concat (map snd (Summarizer.addToGroup f m groups))
  ≡ₚ m :: concat (map snd groups).
Proof.
  induction groups as [|[f' g] rest IH]; simpl; [done|].
  destruct (String.eqb f' f); simpl.
  - rewrite <- app_assoc. simpl. by rewrite <- Permutation_middle.
  - rewrite IH. by rewrite <- Permutation_middle.
Qed.

Lemma addToGroup_Forall (P : string * list ConversationMessage -> Prop) f m groups :
  P (f, [m]) ->
  (forall g, P (f, g) -> P (f, g ++ [m])) ->
  Forall P groups -> Forall P (Summarizer.addToGroup f m groups).
Proof.
  intros Hnew Hadd. induction 1 as [|[f' g] rest Hx Hrest IH]; simpl.
  - by apply Forall_singleton.
  - destruct (String.eqb f' f) eqn:E.
    + apply String.eqb_eq in E as ->. constructor; [by apply Hadd|done].
    + by constructor.
Qed.

Lemma addToGroup_keys f m groups :
  NoDup (map fst groups) -> NoDup (map fst (Summarizer.addToGroup f m groups))
  ∧ (forall k, k ∈ map fst (Summarizer.addToGroup f m groups) ->
               k = f ∨ k ∈ map fst groups).
Proof.
  induction groups as [|[f' g] rest IH]; simpl; intros Hnd.
  - split; [apply NoDup_singleton|]. intros k ->%list_elem_of_singleton. by left.
  - apply NoDup_cons in Hnd as [Hnotin Hnd].
    destruct (String.eqb f' f) eqn:E; simpl.
    + split; [by apply NoDup_cons|]. intros k Hk. by right.
    + destruct (IH Hnd) as [IH1 IH2]. apply String.eqb_neq in E. split.
      * apply NoDup_cons. split; [|done]. intros Hin.
        destruct (IH2 _ Hin) as [->|?]; done.
      * intros k [->|Hk]%elem_of_cons; [right; left|].
        destruct (IH2 _ Hk) as [->|?]; [by left|right; by right].
Qed.

Lemma fileContextStep_invariant st message l :
  let inv := fun (st : list (string * list ConversationMessage)
                       * list ConversationMessage) l =>
    concat (map snd st.1) ++ st.2
      ≡ₚ filter (fun m => primaryFileOf m ≠ Some "") l
    ∧ Forall (fun group => group.2 ≠ []
                ∧ Forall (fun m => primaryFileOf m = Some group.1) group.2) st.1
    ∧ NoDup (map fst st.1)
    ∧ Forall (fun m => primaryFileOf m = None) st.2 in
  inv st l -> inv (Summarizer.fileContextStep st message) (l ++ [message]).
Proof.
  destruct st as [groups general]. cbn [fst snd].
  intros (Hperm & Hgroups & Hkeys & Hgeneral).
  unfold Summarizer.fileContextStep. rewrite filter_app.
  destruct (fileReferences (metadata message)) as [|primaryFile others] eqn:Hrefs.
  - cbn [fst snd]. split_and!; [|done|done|].
    + rewrite filter_cons_True by (simpl; by rewrite Hrefs). simpl.
      by rewrite app_assoc, Hperm.
    + apply Forall_app. split; [done|]. apply Forall_singleton. simpl. by rewrite Hrefs.
  - destruct (String.eqb primaryFile "") eqn:E; cbn [fst snd].
    + apply String.eqb_eq in E as ->. split_and!; [|done..].
      rewrite filter_cons_False by (simpl; rewrite Hrefs; simpl; naive_solver).
      simpl. by rewrite app_nil_r.
    + apply String.eqb_neq in E. split_and!; [| |by apply addToGroup_keys|done].
      * rewrite filter_cons_True by (simpl; rewrite Hrefs; simpl; congruence).
        simpl. rewrite addToGroup_concat. simpl. rewrite Hperm.
        by rewrite <- Permutation_cons_append.
      * apply addToGroup_Forall; [| |done]; cbn [fst snd].
        -- split; [done|]. apply Forall_singleton. simpl. by rewrite Hrefs.
        -- intros g [_ Hg]. split; [by destruct g|].
           apply Forall_app. split; [done|]. apply Forall_singleton. simpl.
           by rewrite Hrefs.
Qed.

Lemma segmentByFileContext_keyed (messages : list ConversationMessage) :
  exists keyed : list (option string * list ConversationMessage),
    Summarizer.segmentByFileContext messages = map snd keyed
    ∧ Forall (fun kg => kg.2 ≠ []
                ∧ Forall (fun m => primaryFileOf m = kg.1) kg.2) keyed
    ∧ NoDup (map fst keyed)
    ∧ concat (map snd keyed)
        ≡ₚ filter (fun m => primaryFileOf m ≠ Some "") messages.
Proof.
  unfold Summarizer.segmentByFileContext.
  assert (H : forall l st done,
    (fun (st : list (string * list ConversationMessage)
                * list ConversationMessage) l =>
      concat (map snd st.1) ++ st.2
        ≡ₚ filter (fun m => primaryFileOf m ≠ Some "") l
      ∧ Forall (fun group => group.2 ≠ []
                  ∧ Forall (fun m => primaryFileOf m = Some group.1) group.2) st.1
      ∧ NoDup (map fst st.1)
      ∧ Forall (fun m => primaryFileOf m = None) st.2) st done ->
    (fun (st : list (string * list ConversationMessage)
                * list ConversationMessage) l =>
      concat (map snd st.1) ++ st.2
        ≡ₚ filter (fun m => primaryFileOf m ≠ Some "") l
      ∧ Forall (fun group => group.2 ≠ []
                  ∧ Forall (fun m => primaryFileOf m = Some group.1) group.2) st.1
      ∧ NoDup (map fst st.1)
      ∧ Forall (fun m => primaryFileOf m = None) st.2)
      (foldl Summarizer.fileContextStep st l) (done ++ l)).
  { induction l as [|m l IH]; intros st done Hst; simpl.
    - by rewrite app_nil_r.
    - replace (done ++ m :: l) with ((done ++ [m]) ++ l) by (by rewrite <- app_assoc).
      apply IH. by apply fileContextStep_invariant. }
  specialize (H messages ([], []) []). cbv beta in H.
  destruct H as (Hperm & Hgroups & Hkeys & Hgeneral).
  { cbn [fst snd]. split_and!; simpl; constructor. }
  destruct (foldl Summarizer.fileContextStep _ messages) as [groups general].
  cbn [fst snd app] in *.
  (* the segments as keyed groups, the general one under no key *)
  exists ((if (0 <? length general)%nat then [(None, general)] else [])
          ++ map (fun group => (Some group.1, group.2)) groups).
  split_and!.
  - rewrite map_app, map_map. simpl. destruct (0 <? length general)%nat; done.
  - apply Forall_app. split.
    + destruct (0 <? length general)%nat eqn:E; [|constructor].
      apply Forall_singleton. cbn [fst snd]. split; [|done].
      apply Nat.ltb_lt in E. intros ->. simpl in E. lia.
    + apply Forall_fmap. eapply Forall_impl; [exact Hgroups|]. by intros [f g].
  - rewrite map_app, map_map. simpl. apply NoDup_app. split_and!.
    + destruct (0 <? length general)%nat; [apply NoDup_singleton|constructor].
    + intros k Hk Hk'. apply list_elem_of_fmap in Hk' as (g & -> & _).
      destruct (0 <? length general)%nat;
        [apply list_elem_of_singleton in Hk|apply elem_of_nil in Hk]; done.
    + rewrite <- (map_map fst Some). apply (NoDup_fmap_2 _). exact Hkeys.
  - rewrite <- Hperm. rewrite map_app, map_map, concat_app. simpl.
    destruct (0 <? length general)%nat eqn:E; simpl.
    + rewrite app_nil_r. apply Permutation_app_comm.
    + apply Nat.ltb_ge in E. destruct general; [|simpl in E; lia].
      by rewrite app_nil_r.
Qed.

Lemma segmentByFileContext_nonempty messages :
  Forall (fun segment => segment ≠ []) (Summarizer.segmentByFileContext messages).
Proof.
  destruct (segmentByFileContext_keyed messages) as (keyed & -> & Hkeyed & _).
  apply Forall_fmap. eapply Forall_impl; [exact Hkeyed|]. by intros [k g] [? _].
Qed.

(** X13. The file segments hold exactly the messages whose first file
    reference is not the empty path (a message without file references
    counts), each once; no segment is empty; the messages of one segment
    have the same first file reference (none, for the general segment), and
    the messages of two different segments have different ones. *)
Theorem segmentByFileContext_groups (messages : list ConversationMessage) :
  let segments := Summarizer.segmentByFileContext messages in
  let primaryFile := fun m => head (fileReferences (metadata m)) in
  concat segments ≡ₚ filter (fun m => primaryFile m ≠ Some "") messages
  ∧ Forall (fun segment => segment ≠ []) segments
  ∧ (forall segment m m',
       segment ∈ segments -> m ∈ segment -> m' ∈ segment ->
       primaryFile m = primaryFile m')
  ∧ (forall i j segment segment' m m',
       segments !! i = Some segment -> segments !! j = Some segment' -> i ≠ j ->
       m ∈ segment -> m' ∈ segment' -> primaryFile m ≠ primaryFile m').
Proof.
  cbv zeta. split_and!; [| apply segmentByFileContext_nonempty | |].
  all: destruct (segmentByFileContext_keyed messages)
         as (keyed & -> & Hkeyed & Hnd & Hperm).
  - exact Hperm.
  - intros segment m m' Hseg Hm Hm'.
    apply list_elem_of_fmap in Hseg as ([k g] & -> & Hin).
    apply (proj1 (Forall_forall _ _) Hkeyed) in Hin as [_ Hall].
    cbn [fst snd] in *.
    rewrite (proj1 (Forall_forall _ _) Hall m Hm).
    by rewrite (proj1 (Forall_forall _ _) Hall m' Hm').
  - intros i j segment segment' m m' Hi Hj Hij Hm Hm' Heq.
    rewrite list_lookup_fmap in Hi, Hj.
    destruct (keyed !! i) as [[k g]|] eqn:Ei; [|done].
    destruct (keyed !! j) as [[k' g']|] eqn:Ej; [|done].
    simpl in Hi, Hj. injection Hi as <-. injection Hj as <-.
    assert (Hg : Forall (fun m => primaryFileOf m = k) g).
    { apply (proj1 (Forall_forall _ _) Hkeyed (k, g)).
      apply list_elem_of_lookup. eauto. }
    assert (Hg' : Forall (fun m => primaryFileOf m = k') g').
    { apply (proj1 (Forall_forall _ _) Hkeyed (k', g')).
      apply list_elem_of_lookup. eauto. }
    apply (proj1 (Forall_forall _ _) Hg) in Hm.
    apply (proj1 (Forall_forall _ _) Hg') in Hm'.
    cbv beta in Hm, Hm'. rewrite Hm, Hm' in Heq. subst k'.
    apply Hij. eapply (NoDup_lookup _ _ _ k Hnd).
    + rewrite list_lookup_fmap, Ei. reflexivity.
    + rewrite list_lookup_fmap, Ej. simpl. congruence.
Qed.

Lemma segmentConversation_nonempty messages level :
  Forall (fun segment => segment ≠ []) (Summarizer.segmentConversation messages level).
Proof.
  destruct level; simpl.
  - apply segmentByInteraction_nonempty.
  - apply Forall_forall. intros segment Hin ->.
    apply segmentByTopic_cap in Hin. simpl in Hin. lia.
  - apply segmentByFileContext_nonempty.
Qed.

(** ** Every segment gets its summary *)

Local Abbreviation startsWithLetter :=
  (fun s : string => exists c s', s = String c s' ∧ isSpace c = false).

Lemma startsWithLetter_append s t :
  startsWithLetter s -> startsWithLetter (s +:+ t).
Proof. intros (c & s' & -> & Hc). exists c, (s' +:+ t). done. Qed.

Lemma determineOutcome_given messages :
  messages ≠ [] -> startsWithLetter (Summarizer.determineOutcome messages).
Proof.
  intros Hne. unfold Summarizer.determineOutcome.
  destruct (last messages) as [lastMessage|] eqn:E.
  - destruct (hasError _); [by eexists _, _|].
    destruct (_ || _); [by eexists _, _|].
    destruct (bool_decide _); by eexists _, _.
  - apply last_None in E. done.
Qed.

Lemma summary_part (taken : bool) (summary part : string) :
  summary = "" ∨ startsWithLetter summary ->
  startsWithLetter part ->
  (if taken then summary +:+ part else summary) = ""
  ∨ startsWithLetter (if taken then summary +:+ part else summary).
Proof.
  intros Hs Hp. destruct taken; [|done]. right.
  destruct Hs as [->|Hs]; [done|]. by apply startsWithLetter_append.
Qed.

Lemma assembleSummary_given patterns messages :
  messages ≠ [] -> startsWithLetter (Summarizer.assembleSummary patterns messages).
Proof.
  intros Hne. unfold Summarizer.assembleSummary. cbv zeta.
  destruct (determineOutcome_given messages Hne) as (c & o & Ho & Hc).
  rewrite Ho. cbn [String.eqb].
  match goal with
  | |- exists _ _, ?pre +:+ ?t = _ ∧ _ =>
      assert (H : pre = "" ∨ startsWithLetter pre);
      [|destruct H as [->|H]; [by eexists _, _|by apply startsWithLetter_append]]
  end.
  repeat (apply summary_part; [|by eexists _, _]).
  by left.
Qed.

Lemma dropSpaces_snoc l c :
  isSpace c = false -> dropSpaces (l ++ [c]) ≠ [].
Proof.
  intros Hc. induction l as [|a l IH]; simpl.
  - by rewrite Hc.
  - destruct (isSpace a); [done|]. done.
Qed.

Lemma trim_given s : startsWithLetter s -> trim s ≠ "".
Proof.
  intros (c & s' & -> & Hc). unfold trim. simpl. rewrite Hc. simpl.
  pose proof (dropSpaces_snoc (rev (String.list_ascii_of_string s')) c Hc) as H.
  destruct (dropSpaces _) as [|a l]; [done|].
  simpl. intros E. apply (f_equal String.list_ascii_of_string) in E.
  rewrite String.list_ascii_of_string_of_list_ascii in E. simpl in E.
  by destruct (rev l).
Qed.

Lemma substring_head n c s :
  String.substring 0 (S n) (String c s) = String c (String.substring 0 n s).
Proof. reflexivity. Qed.

Lemma truncateSummary_given summary maxLength :
  1 <= maxLength -> startsWithLetter summary ->
  startsWithLetter (Summarizer.truncateSummary summary maxLength).
Proof.
  intros Hmax (c & s' & -> & Hc). unfold Summarizer.truncateSummary.
  destruct (_ <=? _); [by eexists _, _|]. cbv zeta.
  destruct (Z.to_nat maxLength) as [|n] eqn:En; [lia|].
  rewrite substring_head.
  set (lastSentenceEnd := Z.max _ _).
  destruct (Qgtb _ _) eqn:E; [|by eexists _, _].
  assert (0 < lastSentenceEnd).
  { destruct (Z.lt_ge_cases 0 lastSentenceEnd) as [?|Hle]; [done|exfalso].
    unfold Qgtb in E. apply negb_true_iff in E.
    assert (Hq : (inject_Z lastSentenceEnd <= inject_Z maxLength * (7 # 10))%Q).
    { apply Qle_trans with (inject_Z 0).
      - by rewrite <- Zle_Qle.
      - apply Qmult_le_0_compat; [|done].
        change 0%Q with (inject_Z 0). rewrite <- Zle_Qle. lia. }
    apply Qle_bool_iff in Hq. congruence. }
  destruct (Z.to_nat (lastSentenceEnd + 1)) as [|k] eqn:Ek; [lia|].
  rewrite substring_head. by eexists _, _.
Qed.

Lemma createSummary_given patterns clock k messages lvl :
  messages ≠ [] ->
  exists s, Summarizer.createSummary patterns clock k messages lvl = Some s
    ∧ summaryId s = generateSummaryId clock k
    ∧ level s = lvl
    ∧ originalMessageIds s = map id messages
    ∧ summaryTimestamp s = dateNow clock k
    ∧ summaryContent s = Summarizer.generateSummaryContent patterns messages lvl
    ∧ tokensSaved s = Summarizer.calculateTokensSaved messages (summaryContent s)
    ∧ trim (summaryContent s) ≠ "".
Proof.
  intros Hne. unfold Summarizer.createSummary.
  destruct (length messages =? 0)%nat eqn:E.
  { apply Nat.eqb_eq in E. by destruct messages. }
  assert (Ht : trim (Summarizer.generateSummaryContent patterns messages lvl) ≠ "").
  { apply trim_given, truncateSummary_given; [by destruct lvl|].
    by apply assembleSummary_given. }
  destruct (String.eqb _ "") eqn:E'; [by apply String.eqb_eq in E'|].
  eexists. split; [reflexivity|]. done.
Qed.

Lemma createSummaries_fold patterns clock lvl segments acc :
  Forall (fun segment => segment ≠ []) segments ->
  exists created,
    foldl (fun summaries segment =>
       match Summarizer.createSummary patterns clock (length summaries) segment lvl with
       | Some created => summaries ++ [created]
       | None => summaries
       end) acc segments = acc ++ created
    ∧ Forall2 (fun s ks =>
         Summarizer.createSummary patterns clock ks.1 ks.2 lvl = Some s)
        created (zip (seq (length acc) (length segments)) segments).
Proof.
  intros Hne. revert acc. induction Hne as [|segment rest Hseg Hrest IH]; intros acc.
  - exists []. simpl. split; [by rewrite app_nil_r|constructor].
  - simpl.
    destruct (createSummary_given patterns clock (length acc) segment lvl Hseg)
      as (s & Hs & _).
    rewrite Hs. destruct (IH (acc ++ [s])) as (created & Hfold & Hall).
    exists (s :: created). split.
    + by rewrite Hfold, <- app_assoc.
    + constructor; [done|]. rewrite length_app in Hall. simpl in Hall.
      by rewrite Nat.add_1_r in Hall.
Qed.

(** X14. [createSummaries] gives exactly one summary per segment, in the
    order of the segments: no segment is skipped, since the text of a
    non-empty segment always has an outcome and so is not blank. The k-th
    summary replaces the messages of the k-th segment, has the level asked
    for, the k-th identifier and the k-th time stamp; its text is not blank
    and has at most three characters more than the budget of the level, and
    the tokens it saves are not negative. *)
Theorem one_summary_per_segment patterns clock
  (messages : list ConversationMessage) (lvl : SummaryLevel) :
  let segments := Summarizer.segmentConversation messages lvl in
  let summaries := Summarizer.createSummaries patterns clock messages lvl in
  length summaries = length segments
  ∧ map originalMessageIds summaries = map (map id) segments
  ∧ map summaryId summaries
    = map (generateSummaryId clock) (seq 0 (length segments))
  ∧ map summaryTimestamp summaries
    = map (dateNow clock) (seq 0 (length segments))
  ∧ Forall (fun s =>
       level s = lvl
       ∧ trim (summaryContent s) ≠ ""
       ∧ Z.of_nat (String.length (summaryContent s))
         <= Summarizer.MAX_SUMMARY_LENGTH lvl + 3
       ∧ 0 <= tokensSaved s) summaries.
Proof.
  cbv zeta. unfold Summarizer.createSummaries.
  pose proof (segmentConversation_nonempty messages lvl) as Hne.
  destruct (createSummaries_fold patterns clock lvl _ [] Hne)
    as (created & -> & Hall).
  simpl in *.
  revert Hall Hne. generalize (Summarizer.segmentConversation messages lvl).
  generalize 0%nat. intros k segments. revert k segments.
  induction created as [|s created IH]; intros k segments Hall Hne.
  - destruct segments; [|inversion Hall]. simpl. split_and!; done.
  - destruct segments as [|segment segments]; [inversion Hall|].
    simpl in Hall. apply Forall2_cons in Hall as [Hs Hall].
    apply Forall_cons in Hne as [Hseg Hne].
    destruct (IH (S k) segments Hall Hne) as (H1 & H2 & H3 & H4 & H5).
    destruct (createSummary_given patterns clock k segment lvl Hseg)
      as (s' & Hs' & Hid & Hlvl & Hids & Hts & Hc & Hsaved & Hblank).
    cbn [fst snd] in Hs. rewrite Hs in Hs'. injection Hs' as <-.
    simpl. split_and!; try congruence.
    constructor; [|done]. split_and!; [done|done| |].
    + rewrite Hc. apply truncateSummary_length. by destruct lvl.
    + rewrite Hsaved. unfold Summarizer.calculateTokensSaved. lia.
Qed.

(** * Further properties of the lexical ranker *)

Section RankerStatistics.

Import BM25Scorer.

Variable ling : Linguistics.

Lemma occurrences_cons t term rest :
  occurrences term (t :: rest)
  = (if decide (t = term) then 1 else 0) + occurrences term rest.
Proof.
  unfold occurrences. destruct (decide (t = term)) as [E|E].
  - rewrite filter_cons_True by done. simpl length. lia.
  - rewrite filter_cons_False by done. lia.
Qed.

Lemma occurrences_app term l1 l2 :
  occurrences term (l1 ++ l2) = occurrences term l1 + occurrences term l2.
Proof. unfold occurrences. rewrite filter_app, length_app. lia. Qed.

Lemma occurrences_nonneg term l : 0 <= occurrences term l.
Proof. unfold occurrences. lia. Qed.




Lemma count_insert (table : gmap string Entry) t v term :
  count (<[t := v]> table) term = if decide (t = term) then v else count table term.
Proof.
  unfold count. destruct (decide (t = term)) as [->|E].
  - by rewrite lookup_insert_eq.
  - by rewrite lookup_insert_ne.
Qed.

Lemma bind_run {A B : Type} (m : M A) (f : A -> M B) st :
  (m ≫= f) st = f (m st).1 (m st).2.
Proof. unfold mbind, M_bind. by destruct (m st). Qed.

Local Abbreviation plusN := (fun (entry : Entry) (n : Z) =>
  match entry with
  | Number k => Number (k + n)
  | NotNumber => NotNumber
  end).

(** The inner loop adds the occurrences of every term to the table of the
    document and to the table of the corpus, and touches nothing else; an
    entry that is not a number stays so. *)
Lemma countTerms_run terms termFreq st :
  let r := countTerms termFreq terms st in
  this r.2 = this st
  ∧ arrays (heap r.2) = arrays (heap st)
  ∧ (forall term,
       count r.1 term = plusN (count termFreq term) (occurrences term terms))
  ∧ (forall term,
       count (objectAt (heap r.2) (globalTermFreq (this st))) term
       = plusN (count (objectAt (heap st) (globalTermFreq (this st))) term)
           (occurrences term terms)).
Proof.
  revert termFreq st. induction terms as [|t rest IH]; intros termFreq st.
  - simpl. split_and!; try done; intros term; unfold occurrences; simpl;
      destruct (count _ term); by rewrite ?Z.add_0_r.
  - cbn [countTerms]. rewrite bind_run.
    set (st1 := (bumpGlobalTermFreq t st).2).
    destruct (IH (<[t := plusOne (count termFreq t)]> termFreq) st1)
      as (Hthis & Harrays & Hdoc & Hglobal).
    assert (Hthis1 : this st1 = this st) by done.
    assert (Harrays1 : arrays (heap st1) = arrays (heap st)) by done.
    assert (Htable1 : objectAt (heap st1) (globalTermFreq (this st))
              = <[t := plusOne (count (objectAt (heap st) (globalTermFreq (this st))) t)]>
                  (objectAt (heap st) (globalTermFreq (this st)))).
    { subst st1. unfold objectAt at 1. simpl. by rewrite lookup_insert_eq. }
    cbv zeta. split_and!.
    + by rewrite Hthis.
    + by rewrite Harrays.
    + intros term. rewrite Hdoc, count_insert, occurrences_cons.
      destruct (decide (t = term)) as [->|]; destruct (count termFreq term);
        simpl; f_equal; lia.
    + intros term. rewrite Hthis1 in Hglobal. rewrite Hglobal, Htable1.
      rewrite count_insert, occurrences_cons.
      destruct (decide (t = term)) as [->|]; destruct (count _ term);
        simpl; f_equal; lia.
Qed.

Lemma count_empty term : count ∅ term = counted term [].
Proof. unfold count, counted. by rewrite lookup_empty. Qed.

Lemma counted_plusN term terms more :
  plusN (counted term terms) (occurrences term more) = counted term (terms ++ more).
Proof.
  unfold counted. destruct (bool_decide _); [done|].
  by rewrite occurrences_app.
Qed.

Local Abbreviation indexed := (fun (docStats : DocumentStats) (terms : list string) =>
  totalTerms docStats = Z.of_nat (length terms)
  ∧ normalizedLength docStats = inject_Z (Z.of_nat (length terms))
  ∧ forall term, count (termFreq docStats) term = counted term terms).

(** The outer loop pushes the statistics of each document, in order. *)
Lemma indexEach_run documents totalLength st counts :
  (forall term,
     count (objectAt (heap st) (globalTermFreq (this st))) term = counted term counts) ->
  let r := indexEach ling totalLength documents st in
  let corpus := map (preprocessText ling) documents in
  this r.2 = this st
  ∧ r.1 = totalLength + Z.of_nat (length (concat corpus))
  ∧ (exists new,
       arrayAt (heap r.2) (documentStats (this st))
       = arrayAt (heap st) (documentStats (this st)) ++ new
       ∧ Forall2 indexed new corpus)
  ∧ (forall term,
       count (objectAt (heap r.2) (globalTermFreq (this st))) term
       = counted term (counts ++ concat corpus)).
Proof.
  revert totalLength st counts.
  induction documents as [|doc rest IH]; intros totalLength st counts Hcounts.
  - simpl. split_and!; [done|lia| |intros term; by rewrite app_nil_r].
    exists []. by rewrite app_nil_r.
  - cbn [indexEach]. rewrite !bind_run.
    destruct (countTerms_run (preprocessText ling doc) ∅ st)
      as (Hthis1 & Harrays1 & Hdoc1 & Hglobal1).
    destruct (countTerms ∅ (preprocessText ling doc) st) as [termFreq st1].
    cbn [fst snd] in *.
    set (docStats := {| termFreq := termFreq;
                        totalTerms := Z.of_nat (length (preprocessText ling doc));
                        normalizedLength :=
                          inject_Z (Z.of_nat (length (preprocessText ling doc))) |}).
    set (st2 := (pushDocumentStats docStats st1).2).
    assert (Hthis2 : this st2 = this st) by (by rewrite <- Hthis1).
    assert (Harr2 : arrayAt (heap st2) (documentStats (this st))
                    = arrayAt (heap st) (documentStats (this st)) ++ [docStats]).
    { subst st2. unfold arrayAt at 1. simpl. rewrite Hthis1, lookup_insert_eq.
      simpl. unfold arrayAt. by rewrite Harrays1. }
    assert (Hobj2 : objects (heap st2) = objects (heap st1)) by done.
    destruct (IH (totalLength + Z.of_nat (length (preprocessText ling doc))) st2
                (counts ++ preprocessText ling doc))
      as (Hthis & Htotal & (new & Hnew & Hall) & Hglobal).
    { intros term. rewrite Hthis2.
      replace (objectAt (heap st2) (globalTermFreq (this st)))
        with (objectAt (heap st1) (globalTermFreq (this st)))
        by (unfold objectAt; by rewrite Hobj2).
      rewrite Hglobal1, Hcounts. apply counted_plusN. }
    rewrite Hthis2 in Hnew, Hglobal.
    cbv zeta. split_and!.
    + by rewrite Hthis.
    + rewrite Htotal. simpl. rewrite length_app. lia.
    + exists (docStats :: new). split.
      * rewrite Hnew, Harr2. by rewrite <- app_assoc.
      * simpl. constructor; [|done]. split_and!; [done|done|].
        intros term. simpl. rewrite Hdoc1, count_empty.
        apply (counted_plusN term []).
    + intros term. rewrite Hglobal. simpl. by rewrite <- app_assoc.
Qed.

Lemma indexDocuments_run (documents : list string) (st : State) :
  let st' := (indexDocuments ling documents st).2 in
  let corpus := map (preprocessText ling) documents in
  let N := Z.of_nat (length documents) in
  let avg :=
    if 0 <? N
    then (inject_Z (Z.of_nat (length (concat corpus))) / inject_Z N)%Q
    else 0%Q in
  totalDocuments (this st') = N
  ∧ averageDocLength (this st') = avg
  ∧ Forall2
      (fun docStats terms =>
         totalTerms docStats = Z.of_nat (length terms)
         ∧ ((0 < length (concat corpus))%nat ->
            normalizedLength docStats
            = (inject_Z (Z.of_nat (length terms)) / avg)%Q)
         ∧ forall term, count (termFreq docStats) term = counted term terms)
      (arrayAt (heap st') (documentStats (this st'))) corpus
  ∧ (forall term,
       count (objectAt (heap st') (globalTermFreq (this st'))) term
       = counted term (concat corpus)).
Proof.
  cbv zeta. rewrite indexDocuments_steps.
  match goal with |- context [(_ ≫= _) ?s] => set (st1 := s) end.
  rewrite bind_run.
  assert (Harr1 : arrayAt (heap st1) (documentStats (this st1)) = []).
  { subst st1. unfold arrayAt. simpl. by rewrite lookup_insert_eq. }
  assert (Hobj1 : objectAt (heap st1) (globalTermFreq (this st1)) = ∅).
  { subst st1. unfold objectAt. simpl. by rewrite lookup_insert_eq. }
  destruct (indexEach_run documents 0 st1 [])
    as (Hthis & Htotal & (new & Hnew & Hall) & Hglobal).
  { intros term. rewrite Hobj1. apply count_empty. }
  destruct (indexEach ling 0 documents st1) as [totalLength st2].
  cbn [fst snd] in *.
  rewrite Harr1 in Hnew. cbn [app] in Hnew, Hglobal.
  assert (HN : totalDocuments (this st2) = Z.of_nat (length documents))
    by (by rewrite Hthis).
  unfold setAverageDocLength, normalizeLengths.
  rewrite !bind_run. unfold get, setThis, setHeap.
  cbn [fst snd this heap totalDocuments averageDocLength documentStats
       globalTermFreq arrays objects].
  rewrite HN, Htotal, Z.add_0_l.
  split_and!; [done|done| |].
  - unfold arrayAt at 1. cbn [arrays]. rewrite lookup_insert_eq.
    unfold default, Datatypes.id. rewrite Hthis, Hnew.
    set (avg := if 0 <? _ then _ else _).
    set (P := (0 < length _)%nat). clearbody avg P.
    clear -Hall. induction Hall as [|docStats terms new corpus (H1 & H2 & H3) Hall IH].
    + constructor.
    + simpl. constructor; [|exact IH]. cbn [totalTerms normalizedLength termFreq].
      split_and!; [done| |done]. intros _. by rewrite H1.
  - intros term. unfold objectAt at 1. cbn [objects]. rewrite Hthis.
    fold (objectAt (heap st2) (globalTermFreq (this st1))).
    apply Hglobal.
Qed.

(** X15. What [indexDocuments] builds, from any state of the scorer: the
    number of documents; the average number of terms of a document; for
    each document, in order, its number of terms, its length relative to
    the average (when the corpus has a term at all) and, for every term
    that is no property name of [Object.prototype], the number of its
    occurrences in the document; and, for every such term, the number of
    its occurrences in the whole corpus. Under a property name of
    [Object.prototype] (["constructor"], for one) the tables read as
    something that is not a number, whether the term occurs or not. The
    parameters stay, and so does every array and table that was in the
    store before. *)
Theorem indexDocuments_statistics (documents : list string) (st : State) :
  let st' := (indexDocuments ling documents st).2 in
  let corpus := map (preprocessText ling) documents in
  let N := Z.of_nat (length documents) in
  let avg :=
    if 0 <? N
    then (inject_Z (Z.of_nat (length (concat corpus))) / inject_Z N)%Q
    else 0%Q in
  totalDocuments (this st') = N
  ∧ averageDocLength (this st') = avg
  ∧ Forall2
      (fun docStats terms =>
         totalTerms docStats = Z.of_nat (length terms)
         ∧ ((0 < length (concat corpus))%nat ->
            normalizedLength docStats
            = (inject_Z (Z.of_nat (length terms)) / avg)%Q)
         ∧ forall term,
             count (termFreq docStats) term
             = if bool_decide (term ∈ objectPrototypeKeys) then NotNumber
               else Number (occurrences term terms))
      (arrayAt (heap st') (documentStats (this st'))) corpus
  ∧ (forall term,
       count (objectAt (heap st') (globalTermFreq (this st'))) term
       = if bool_decide (term ∈ objectPrototypeKeys) then NotNumber
         else Number (occurrences term (concat corpus)))
  ∧ k1 (this st') = k1 (this st) ∧ b (this st') = b (this st)
  ∧ unchangedOn (heap st) (heap st').
Proof.
  cbv zeta.
  destruct (indexDocuments_run documents st) as (H1 & H2 & H3 & H4).
  destruct (indexDocuments_parameters ling documents st) as [H5 H6].
  pose proof (indexDocuments_unchanged ling documents st) as H7.
  split_and!; done.
Qed.

(** ** Scores *)

Lemma Q2R_zero : Q2R 0 = 0%R.
Proof. unfold Q2R. simpl. lra. Qed.

Lemma Q2R_one : Q2R 1 = 1%R.
Proof. unfold Q2R. simpl. lra. Qed.

Lemma ln_le_0 (x : R) : (0 < x <= 1)%R -> (ln x <= 0)%R.
Proof.
  intros [Hpos [Hlt| ->]].
  - rewrite <- ln_1. left. by apply ln_increasing.
  - rewrite ln_1. lra.
Qed.

Lemma Qgtb_true x y : Qgtb x y = true -> (y < x)%Q.
Proof.
  unfold Qgtb. intros H%negb_true_iff. apply Qnot_le_lt. intros Hle.
  apply Qle_bool_iff in Hle. congruence.
Qed.


Lemma half_more_positive (n : Z) : 0 <= n -> (0 < inject_Z n + (1 # 2))%Q.
Proof. intros H. unfold Qlt, Qplus, inject_Z. simpl. lia. Qed.

(** The saturation factor is not negative for a term that is in the
    document, when the parameters are in their ranges. *)
Lemma tfComponent_nonneg (tf : Z) (k1 b normalizedLength : Q) :
  1 <= tf -> (0 <= k1)%Q -> (0 <= b)%Q -> (b <= 1)%Q -> (0 <= normalizedLength)%Q ->
  (0 <= Q2R ((inject_Z tf * (k1 + 1))
             / (inject_Z tf + k1 * (1 - b + b * normalizedLength))))%R.
Proof.
  intros Htf Hk Hb Hb1 Hn. rewrite <- Q2R_zero. apply Qle_Rle.
  assert (Htf' : (0 <= inject_Z tf)%Q).
  { change 0%Q with (inject_Z 0). rewrite <- Zle_Qle. lia. }
  apply Qle_shift_div_l.
  - apply Qlt_le_trans with (inject_Z tf + 0)%Q.
    + rewrite Qplus_0_r. change 0%Q with (inject_Z 0). rewrite <- Zlt_Qlt. lia.
    + apply Qplus_le_r. apply Qmult_le_0_compat; [done|].
      apply Qle_trans with (0 + 0)%Q; [done|]. apply Qplus_le_compat.
      * by apply -> Qle_minus_iff.
      * by apply Qmult_le_0_compat.
  - rewrite Qmult_0_l. apply Qmult_le_0_compat; [done|].
    apply Qle_trans with (0 + 0)%Q; [done|]. by apply Qplus_le_compat.
Qed.

(** A term that makes up at least half of the corpus count weighs zero or
    less, or [NaN]. *)
Lemma idf_without_gain (N n : Z) :
  1 <= n -> N <= 2 * n ->
  mathLog ((inject_Z (N - n) + (1 # 2)) / (inject_Z n + (1 # 2)))%Q = NaN
  ∨ exists r, mathLog ((inject_Z (N - n) + (1 # 2)) / (inject_Z n + (1 # 2)))%Q
              = Fin r ∧ (r <= 0)%R.
Proof.
  intros Hn HN. unfold mathLog.
  destruct (Qgtb _ 0) eqn:E; [right|by left].
  eexists. split; [done|]. apply ln_le_0. split.
  - rewrite <- Q2R_zero. by apply Qlt_Rlt, Qgtb_true.
  - rewrite <- Q2R_one. apply Qle_Rle. apply Qle_shift_div_r.
    + apply half_more_positive. lia.
    + rewrite Qmult_1_l. unfold Qle, Qplus, inject_Z. simpl. lia.
Qed.

Lemma calculateScore_without_gain (s : State) (query : string) (documentIndex : Z) :
  (0 <= k1 (this s))%Q -> (0 <= b (this s))%Q -> (b (this s) <= 1)%Q ->
  (forall docStats term n c,
     docStats ∈ arrayAt (heap s) (documentStats (this s)) ->
     count (termFreq docStats) term = Number n -> n ≠ 0 ->
     count (objectAt (heap s) (globalTermFreq (this s))) term = Number c ->
     1 <= n ∧ (0 <= normalizedLength docStats)%Q
     ∧ 1 <= c ∧ totalDocuments (this s) <= 2 * c) ->
  calculateScore ling s query documentIndex = Fin 0
  ∨ calculateScore ling s query documentIndex = NaN.
Proof.
  intros Hk Hb Hb1 Hdocs. unfold calculateScore.
  destruct (_ || _); [by left|].
  destruct (_ !! _) as [docStats|] eqn:Hd; [|by left].
  assert (Hin : docStats ∈ arrayAt (heap s) (documentStats (this s))).
  { apply list_elem_of_lookup. eauto. }
  assert (H : forall terms score,
    (score = NaN ∨ exists r, score = Fin r ∧ (r <= 0)%R) ->
    let total := foldl (fun score term =>
                   match termScore s docStats term with
                   | None => score
                   | Some contribution => numAdd score contribution
                   end) score terms in
    total = NaN ∨ exists r, total = Fin r ∧ (r <= 0)%R).
  { induction terms as [|term rest IH]; intros score Hscore; [done|].
    simpl. apply IH. unfold termScore.
    destruct (count (termFreq docStats) term) as [n|] eqn:En;
      [|left; by destruct score].
    destruct (count (objectAt (heap s) (globalTermFreq (this s))) term)
      as [c|] eqn:Ec.
    - destruct (n =? 0) eqn:E; [done|]. apply Z.eqb_neq in E.
      destruct (Hdocs docStats term n c Hin En E Ec) as (Htf & Hnl & Hn & HN).
      pose proof (tfComponent_nonneg _ _ _ _ Htf Hk Hb Hb1 Hnl) as Htfc.
      destruct (idf_without_gain _ _ Hn HN) as [->|(i & -> & Hi)];
        destruct Hscore as [->|(r & -> & Hr)]; simpl; try (by left).
      right. eexists. split; [done|]. nra.
    - destruct (n =? 0); [done|]. left. by destruct score. }
  destruct (H (preprocessText ling query) (Fin 0)) as [->|(r & -> & Hr)].
  - right. exists 0%R. split; [done|]. lra.
  - by right.
  - left. simpl. f_equal. by apply Rmax_left.
Qed.

Lemma counted_Number term terms n :
  counted term terms = Number n ->
  (term ∉ objectPrototypeKeys) ∧ n = occurrences term terms.
Proof.
  unfold counted. destruct (bool_decide _) eqn:E; [done|].
  apply bool_decide_eq_false in E. by intros [= <-].
Qed.

Lemma counted_plain term terms :
  term ∉ objectPrototypeKeys -> counted term terms = Number (occurrences term terms).
Proof. intros H. unfold counted. by rewrite bool_decide_eq_false_2. Qed.

Lemma occurrences_concat term terms corpus :
  terms ∈ corpus -> occurrences term terms <= occurrences term (concat corpus).
Proof.
  induction corpus as [|d corpus IH]; [by intros ?%elem_of_nil|].
  simpl. rewrite occurrences_app. intros [->|Hin]%elem_of_cons.
  - pose proof (occurrences_nonneg term (concat corpus)). lia.
  - specialize (IH Hin). pose proof (occurrences_nonneg term d). lia.
Qed.

Lemma calculateSimilarity_result text1 text2 st :
  let o := fresh (dom (objects (heap st))) in
  let st1 :=
    {| heap := {| arrays := arrays (heap st);
                  objects := <[o := objectAt (heap st) (globalTermFreq (this st))]>
                               (objects (heap st)) |};
       this := this st |} in
  let st2 := (indexDocuments ling [text1; text2] st1).2 in
  (calculateSimilarity ling text1 text2 st).1
  = ifPositive
      (numMax (calculateScore ling st2 text1 0) (calculateScore ling st2 text2 1))
      (numDiv
         (numDiv (numAdd (calculateScore ling st2 text2 0)
                    (calculateScore ling st2 text1 1)) (Fin 2))
         (numMax (calculateScore ling st2 text1 0)
            (calculateScore ling st2 text2 1))).
Proof.
  intros o st1 st2. unfold calculateSimilarity.
  unfold mbind, M_bind, get, newObject. fold o. fold st1.
  subst st2. destruct (indexDocuments ling [text1; text2] st1) as [[] st2].
  reflexivity.
Qed.

(** X16. With parameters in their ranges ([k1] not negative, [b] between 0
    and 1), [calculateSimilarity] answers 0 for every two texts, on every
    scorer: in the corpus of the two texts, a term of a document is at
    least half of its corpus count, so its weight [ln ((2 - n + 0.5) / (n +
    0.5))] is zero, negative or [NaN], and no score is positive. *)
Theorem calculateSimilarity_is_zero (text1 text2 : string) (st : State) :
  (0 <= k1 (this st))%Q -> (0 <= b (this st))%Q -> (b (this st) <= 1)%Q ->
  (calculateSimilarity ling text1 text2 st).1 = Fin 0.
Proof.
  intros Hk Hb Hb1. rewrite calculateSimilarity_result. cbv zeta.
  match goal with |- context [indexDocuments ling _ ?s] => set (st1 := s) end.
  destruct (indexDocuments_run [text1; text2] st1) as (HN & Havg & Hdocs & Hglobal).
  destruct (indexDocuments_parameters ling [text1; text2] st1) as [Hk1 Hb'].
  set (st2 := (indexDocuments ling [text1; text2] st1).2) in *.
  set (corpus := map (preprocessText ling) [text1; text2]) in *.
  assert (Hscore : forall query documentIndex,
    calculateScore ling st2 query documentIndex = Fin 0
    ∨ calculateScore ling st2 query documentIndex = NaN).
  { intros query documentIndex. apply calculateScore_without_gain.
    - by rewrite Hk1.
    - by rewrite Hb'.
    - by rewrite Hb'.
    - intros docStats term n c Hin Hn Hne Hc.
      apply list_elem_of_lookup in Hin as [i Hi].
      destruct (Forall2_lookup_l _ _ _ _ _ Hdocs Hi)
        as (terms & Hterms & Htotal & Hnorm & Htf).
      rewrite Htf in Hn. apply counted_Number in Hn as [Hplain ->].
      rewrite Hglobal, (counted_plain _ _ Hplain) in Hc.
      assert (c = occurrences term (concat corpus)) as -> by congruence.
      rewrite HN.
      pose proof (occurrences_nonneg term terms) as Hge.
      assert (Hle : occurrences term terms <= occurrences term (concat corpus)).
      { apply occurrences_concat, list_elem_of_lookup. eauto. }
      split_and!; [lia| |lia|cbn [length]; lia].
      assert (Hpos : (0 < length (concat corpus))%nat).
      { destruct (concat corpus) eqn:E; [|simpl; lia].
        unfold occurrences in Hle at 2. simpl in Hle. lia. }
      rewrite (Hnorm Hpos). cbn [length Z.of_nat]. simpl (0 <? _).
      apply Qle_shift_div_l.
      + apply Qlt_shift_div_l; [done|]. rewrite Qmult_0_l.
        change 0%Q with (inject_Z 0). rewrite <- Zlt_Qlt. lia.
      + rewrite Qmult_0_l. change 0%Q with (inject_Z 0). rewrite <- Zle_Qle. lia. }
  destruct (Hscore text1 0) as [-> | ->], (Hscore text2 1) as [-> | ->]; simpl;
    try done.
  rewrite Rmax_left by lra. destruct (Rlt_dec 0 0); [lra|done].
Qed.





(** A query with a term that is a property name of [Object.prototype],
    such as ["constructor"], scores [NaN] against every indexed document,
    whether the document holds the term or not: the table of the document
    reads as a function under that name, which is not [=== 0]. *)
Lemma inherited_term_scores_NaN
  (documents : list string) (st : State) (query : string) (i : nat) (term : string) :
  term ∈ preprocessText ling query ->
  term ∈ objectPrototypeKeys ->
  (i < length documents)%nat ->
  calculateScore ling (indexDocuments ling documents st).2 query (Z.of_nat i) = NaN.
Proof.
  intros Hquery Hterm Hi.
  destruct (indexDocuments_run documents st) as (HN & Havg & Hdocs & Hglobal).
  set (st' := (indexDocuments ling documents st).2) in *.
  unfold calculateScore.
  set (corpus := map (preprocessText ling) documents) in *.
  assert (Hlen : length corpus = length documents) by apply length_map.
  rewrite (Forall2_length _ _ _ Hdocs), Hlen.
  replace (Z.of_nat i <? 0) with false by (symmetry; apply Z.ltb_ge; lia).
  replace (Z.of_nat (length documents) <=? Z.of_nat i) with false
    by (symmetry; apply Z.leb_gt; lia).
  cbn [orb]. rewrite Nat2Z.id.
  destruct (lookup_lt_is_Some_2 corpus i) as [doc Hdoc]; [lia|].
  destruct (Forall2_lookup_r _ _ _ _ _ Hdocs Hdoc)
    as (docStats & Hstats & Htotal & Hnorm & Htf).
  rewrite Hstats.
  assert (Hstay : forall terms,
    foldl (fun score t =>
             match termScore st' docStats t with
             | None => score
             | Some contribution => numAdd score contribution
             end) NaN terms = NaN).
  { induction terms as [|t rest IH]; [done|]. simpl.
    by destruct (termScore st' docStats t). }
  assert (H : forall terms score,
    term ∈ terms ->
    foldl (fun score t =>
             match termScore st' docStats t with
             | None => score
             | Some contribution => numAdd score contribution
             end) score terms = NaN).
  { induction terms as [|t rest IH]; intros score Hin; [by apply elem_of_nil in Hin|].
    simpl. apply elem_of_cons in Hin as [<-|Hin]; [|by apply IH].
    unfold termScore at 2. rewrite Htf. unfold counted.
    rewrite bool_decide_eq_true_2 by done.
    replace (numAdd score NaN) with NaN by (by destruct score). apply Hstay. }
  rewrite H by done. reflexivity.
Qed.

End RankerStatistics.

Lemma calculateSimilarity_is_zero_witness :
  let st := BM25Scorer.create BM25Scorer.defaultParameters BM25Scorer.emptyHeap in
  ((0 <= BM25Scorer.k1 (BM25Scorer.this st))%Q
   ∧ (0 <= BM25Scorer.b (BM25Scorer.this st))%Q
   ∧ (BM25Scorer.b (BM25Scorer.this st) <= 1)%Q)
  ∧ (BM25Scorer.calculateSimilarity Examples.plainWords
       "parse the file" "parse the file" st).1 = Fin 0.
Proof.
  cbv zeta. split.
  - split_and!; done.
  - apply calculateSimilarity_is_zero; done.
Defined.


(** * Further properties of the analyzer *)

(** ** Ratios *)

Lemma ratio_nonneg (a b : Z) : 0 <= a -> 0 < b -> (0 <= inject_Z a / inject_Z b)%Q.
Proof.
  intros Ha Hb. apply Qle_shift_div_l.
  - change 0%Q with (inject_Z 0). rewrite <- Zlt_Qlt. lia.
  - rewrite Qmult_0_l. change 0%Q with (inject_Z 0). rewrite <- Zle_Qle. lia.
Qed.

Lemma ratio_le_1 (a b : Z) : a <= b -> 0 < b -> (inject_Z a / inject_Z b <= 1)%Q.
Proof.
  intros Ha Hb. apply Qle_shift_div_r.
  - change 0%Q with (inject_Z 0). rewrite <- Zlt_Qlt. lia.
  - rewrite Qmult_1_l. rewrite <- Zle_Qle. lia.
Qed.

Lemma ratio_lt_1 (a b : Z) : a < b -> 0 < b -> (inject_Z a / inject_Z b < 1)%Q.
Proof.
  intros Ha Hb. apply Qlt_shift_div_r.
  - change 0%Q with (inject_Z 0). rewrite <- Zlt_Qlt. lia.
  - rewrite Qmult_1_l. rewrite <- Zlt_Qlt. lia.
Qed.

Lemma ratio_mono (a b c : Z) :
  a <= b -> 0 < c -> (inject_Z a / inject_Z c <= inject_Z b / inject_Z c)%Q.
Proof.
  intros Hab Hc. apply Qmult_le_compat_r.
  - rewrite <- Zle_Qle. lia.
  - apply Qinv_le_0_compat. change 0%Q with (inject_Z 0). rewrite <- Zle_Qle. lia.
Qed.

(** ** Redundancy *)

Lemma foldl_similarityStep_counts l (seen : gset string) (k : Z) :
  let st := foldl ContextAnalyzer.similarityStep (seen, k) l in
  st.1 = seen ∪ list_to_set (map (fun m => ContextAnalyzer.normalizeContent (content m)) l)
  ∧ st.2 + Z.of_nat (size st.1) = k + Z.of_nat (size seen) + Z.of_nat (length l).
Proof.
  revert seen k. induction l as [|m l IH]; intros seen k.
  - simpl. split; [set_solver|lia].
  - cbn [foldl]. unfold ContextAnalyzer.similarityStep at 2 4 6.
    destruct (bool_decide _) eqn:E.
    + apply bool_decide_eq_true in E. destruct (IH seen (k + 1)) as [H1 H2].
      cbv zeta. split.
      * rewrite H1. simpl. set_solver.
      * rewrite H2. simpl length. lia.
    + apply bool_decide_eq_false in E.
      destruct (IH (seen ∪ {[ContextAnalyzer.normalizeContent (content m)]}) k)
        as [H1 H2].
      cbv zeta. split.
      * rewrite H1. simpl. set_solver.
      * rewrite H2. rewrite size_union by set_solver. rewrite size_singleton.
        simpl length. lia.
Qed.

Lemma distinct_contents_bound (l : list ConversationMessage) :
  (size (list_to_set (C := gset string)
           (map (fun m => ContextAnalyzer.normalizeContent (content m)) l))
   <= length l)%nat
  ∧ (l ≠ [] ->
     (1 <= size (list_to_set (C := gset string)
                   (map (fun m => ContextAnalyzer.normalizeContent (content m)) l)))%nat).
Proof.
  split.
  - induction l as [|m l IH]; cbn [map length].
    { by rewrite list_to_set_nil, size_empty. }
    rewrite list_to_set_cons.
    etrans; [rewrite size_union_alt; reflexivity|]. rewrite size_singleton.
    pose proof (subseteq_size
      (list_to_set (map (fun m => ContextAnalyzer.normalizeContent (content m)) l)
         ∖ {[ContextAnalyzer.normalizeContent (content m)]})
      (list_to_set (map (fun m => ContextAnalyzer.normalizeContent (content m)) l)
         : gset string)) as H.
    specialize (H ltac:(set_solver)). lia.
  - destruct l as [|m l]; [done|]. intros _. simpl.
    assert (H : size (list_to_set (C := gset string)
                 (ContextAnalyzer.normalizeContent (content m)
                  :: map (fun m => ContextAnalyzer.normalizeContent (content m)) l)) ≠ 0%nat).
    { apply size_non_empty_iff. set_solver. }
    simpl in H. lia.
Qed.

Lemma calculateContentSimilarity_counts (messages : list ConversationMessage) :
  ContextAnalyzer.calculateContentSimilarity messages
  = if (0 <? length messages)%nat
    then (inject_Z (Z.of_nat (length messages)
                    - Z.of_nat (size (list_to_set (C := gset string)
                         (map (fun m => ContextAnalyzer.normalizeContent (content m))
                            messages))))
          / inject_Z (Z.of_nat (length messages)))%Q
    else 0%Q.
Proof.
  unfold ContextAnalyzer.calculateContentSimilarity.
  destruct (foldl_similarityStep_counts messages ∅ 0) as [H1 H2].
  destruct (foldl ContextAnalyzer.similarityStep (∅, 0) messages)
    as [uniqueContents duplicateCount].
  cbn [fst snd] in *. rewrite size_empty in H2.
  destruct (0 <? length messages)%nat; [|done].
  do 2 f_equal. rewrite H1 in H2. rewrite union_empty_l_L in H2. lia.
Qed.

(** X18. The content-duplication ratio is the number of messages minus the
    number of distinct normalized contents, over the number of messages: a
    message counts as a duplicate exactly when an earlier message has the
    same normalized content. The ratio is 0 when the normalized contents
    are pairwise distinct, and always below 1. *)
Theorem content_similarity_counts_repeats (messages : list ConversationMessage) :
  let distinct : gset string :=
    list_to_set (map (fun m => ContextAnalyzer.normalizeContent (content m)) messages) in
  let n := Z.of_nat (length messages) in
  ContextAnalyzer.calculateContentSimilarity messages
  = (if (0 <? length messages)%nat
     then (inject_Z (n - Z.of_nat (size distinct)) / inject_Z n)%Q else 0%Q)
  ∧ (size distinct <= length messages)%nat
  ∧ (0 <= ContextAnalyzer.calculateContentSimilarity messages)%Q
  ∧ (ContextAnalyzer.calculateContentSimilarity messages < 1)%Q
  ∧ (NoDup (map (fun m => ContextAnalyzer.normalizeContent (content m)) messages) ->
     (ContextAnalyzer.calculateContentSimilarity messages == 0)%Q).
Proof.
  cbv zeta. destruct (distinct_contents_bound messages) as [Hle Hge].
  rewrite calculateContentSimilarity_counts.
  split_and!; [done|done| | |].
  - destruct (0 <? length messages)%nat eqn:E; [|done].
    apply Nat.ltb_lt in E. apply ratio_nonneg; lia.
  - destruct (0 <? length messages)%nat eqn:E; [|done].
    apply Nat.ltb_lt in E. apply ratio_lt_1; [|lia].
    assert (messages ≠ []) by (intros ->; simpl in E; lia).
    specialize (Hge ltac:(done)). lia.
  - intros Hnd. destruct (0 <? length messages)%nat; [|done].
    pose proof (size_list_to_set (C := gset string) _ Hnd) as Hsize.
    rewrite Hsize, length_map, Z.sub_diag. unfold Qdiv. by rewrite Qmult_0_l.
Qed.

Lemma patternRepetition_fold
  (triples patterns : list (MessageType * MessageType * MessageType)) (repetitions : Z) :
  0 <= repetitions ->
  (patterns = [] -> repetitions = 0) ->
  repetitions < Z.of_nat (length patterns) ∨ patterns = [] ->
  let st := foldl (fun '(patterns, repetitions) pattern =>
               (patterns ++ [pattern],
                if bool_decide (pattern ∈ patterns) then repetitions + 1
                else repetitions))
              (patterns, repetitions) triples in
  st.1 = patterns ++ triples
  ∧ 0 <= st.2
  ∧ (st.2 < Z.of_nat (length st.1) ∨ st.1 = []).
Proof.
  revert patterns repetitions.
  induction triples as [|pattern rest IH]; intros patterns repetitions H0 Hnil Hlt.
  - simpl. rewrite app_nil_r. done.
  - cbn [foldl].
    destruct (IH (patterns ++ [pattern])
                (if bool_decide (pattern ∈ patterns) then repetitions + 1
                 else repetitions)) as (H1 & H2 & H3).
    + destruct (bool_decide _); lia.
    + intros [_ [=]]%app_eq_nil.
    + left. rewrite length_app. simpl.
      destruct (bool_decide _) eqn:E.
      * destruct Hlt as [?| ->]; [lia|].
        apply bool_decide_eq_true in E. by apply elem_of_nil in E.
      * destruct Hlt as [?| ->]; [lia|]. rewrite Hnil by done. simpl. lia.
    + cbv zeta. split_and!; [|done|done]. by rewrite H1, <- app_assoc.
Qed.

Lemma calculatePatternRepetition_range (messages : list ConversationMessage) :
  (0 <= ContextAnalyzer.calculatePatternRepetition messages)%Q
  ∧ (ContextAnalyzer.calculatePatternRepetition messages < 1)%Q.
Proof.
  unfold ContextAnalyzer.calculatePatternRepetition.
  destruct (patternRepetition_fold (ContextAnalyzer.typeTriples messages) [] 0)
    as (H1 & H2 & H3); [done|done|by right|].
  destruct (foldl _ _ _) as [patterns repetitions]. cbn [fst snd] in *.
  destruct (0 <? length patterns)%nat eqn:E; [|done].
  apply Nat.ltb_lt in E.
  destruct H3 as [H3| ->]; [|simpl in E; lia].
  split; [apply ratio_nonneg|apply ratio_lt_1]; lia.
Qed.

(** X19. The redundancy score of any list of messages is at least 0 and
    below 1; in particular it is never 1, however repetitive the
    conversation. *)
Theorem redundancy_below_one (messages : list ConversationMessage) :
  (0 <= ContextAnalyzer.calculateRedundancy messages)%Q
  ∧ (ContextAnalyzer.calculateRedundancy messages < 1)%Q.
Proof.
  unfold ContextAnalyzer.calculateRedundancy.
  destruct (length messages <? 2)%nat; [done|].
  destruct (calculatePatternRepetition_range messages) as [Hp0 Hp1].
  assert (Hc0 : (0 <= ContextAnalyzer.calculateContentSimilarity messages)%Q).
  { rewrite calculateContentSimilarity_counts.
    destruct (distinct_contents_bound messages) as [Hle _].
    destruct (0 <? length messages)%nat eqn:E; [|done].
    apply Nat.ltb_lt in E. apply ratio_nonneg; lia. }
  assert (Hc1 : (ContextAnalyzer.calculateContentSimilarity messages < 1)%Q).
  { rewrite calculateContentSimilarity_counts.
    destruct (distinct_contents_bound messages) as [_ Hge].
    destruct (0 <? length messages)%nat eqn:E; [|done].
    apply Nat.ltb_lt in E. apply ratio_lt_1; [|lia].
    assert (messages ≠ []) by (intros ->; simpl in E; lia).
    specialize (Hge ltac:(done)). lia. }
  split.
  - apply Qle_shift_div_l; [done|]. rewrite Qmult_0_l.
    apply Qle_trans with (0 + 0)%Q; [done|]. by apply Qplus_le_compat.
  - apply Qlt_shift_div_r; [done|]. rewrite Qmult_1_l.
    apply Qlt_trans with (1 + ContextAnalyzer.calculatePatternRepetition messages)%Q.
    + by apply Qplus_lt_l.
    + change 2%Q with (1 + 1)%Q. by apply Qplus_lt_r.
Qed.

(** ** Reference, file-relevance and reduction scores *)

Lemma referenceMap_inner (ids : list string) (referenceMap : gmap string Z) id :
  default 0 (foldl (fun referenceMap id =>
                      <[id := default 0 (referenceMap !! id) + 1]> referenceMap)
               referenceMap ids !! id)
  = default 0 (referenceMap !! id) + BM25Scorer.occurrences id ids.
Proof.
  revert referenceMap. induction ids as [|i ids IH]; intros referenceMap.
  - unfold BM25Scorer.occurrences. simpl. lia.
  - cbn [foldl]. rewrite IH, occurrences_cons.
    destruct (decide (i = id)) as [->|Hne].
    + rewrite lookup_insert_eq. simpl. lia.
    + rewrite lookup_insert_ne by done. lia.
Qed.

Lemma buildReferenceMap_counts extract (messages : list ConversationMessage) id :
  default 0 (ContextAnalyzer.buildReferenceMap extract messages !! id)
  = BM25Scorer.occurrences id (concat (map (fun m => extract (content m)) messages)).
Proof.
  unfold ContextAnalyzer.buildReferenceMap.
  assert (H : forall l (referenceMap : gmap string Z),
    default 0 (foldl (fun referenceMap message =>
                 foldl (fun referenceMap id =>
                          <[id := default 0 (referenceMap !! id) + 1]> referenceMap)
                   referenceMap (extract (content message))) referenceMap l !! id)
    = default 0 (referenceMap !! id)
      + BM25Scorer.occurrences id (concat (map (fun m => extract (content m)) l))).
  { induction l as [|m l IH]; intros referenceMap.
    - unfold BM25Scorer.occurrences. simpl. lia.
    - cbn [foldl map concat]. rewrite IH, referenceMap_inner, occurrences_app. lia. }
  rewrite H. by rewrite lookup_empty.
Qed.

(** X20. The reference score of a message, on the map that
    [buildReferenceMap] builds, is a tenth of the number of times its
    identifier is matched in the contents of the messages, capped at 1: it
    lies between 0 and 1 and reaches 1 exactly from ten references on. *)
Theorem reference_score_counts_mentions
  (extract : string -> list string) (messages : list ConversationMessage)
  (messageId : string) :
  let mentions :=
    BM25Scorer.occurrences messageId
      (concat (map (fun m => extract (content m)) messages)) in
  let score :=
    ContextAnalyzer.calculateReferenceScore messageId
      (ContextAnalyzer.buildReferenceMap extract messages) in
  score = (if mentions <=? 10 then inject_Z mentions * (1 # 10) else 1)%Q
  ∧ (0 <= score)%Q ∧ (score <= 1)%Q
  ∧ ((score == 1)%Q <-> 10 <= mentions).
Proof.
  cbv zeta. unfold ContextAnalyzer.calculateReferenceScore. cbv zeta.
  rewrite buildReferenceMap_counts.
  set (mentions := BM25Scorer.occurrences _ _).
  assert (H0 : 0 <= mentions) by apply occurrences_nonneg.
  unfold ContextAnalyzer.mathMin.
  assert (Hle : Qle_bool (inject_Z mentions * (1 # 10)) 1 = (mentions <=? 10)).
  { destruct (mentions <=? 10) eqn:E.
    - apply Qle_bool_iff. apply Z.leb_le in E.
      unfold Qle, Qmult, inject_Z. simpl. lia.
    - apply not_true_is_false. intros H%Qle_bool_iff. apply Z.leb_gt in E.
      unfold Qle, Qmult, inject_Z in H. simpl in H. lia. }
  rewrite Hle. destruct (mentions <=? 10) eqn:E.
  - apply Z.leb_le in E. split_and!; [done| | |].
    + unfold Qle, Qmult, inject_Z. simpl. lia.
    + unfold Qle, Qmult, inject_Z. simpl. lia.
    + unfold Qeq, Qmult, inject_Z. simpl. lia.
  - apply Z.leb_gt in E. split_and!; [done|done|done|].
    split; [lia|done].
Qed.

(** X21. The file-relevance score lies between 0 and 1: it is the share of
    the distinct files of the message that are active, 0.5 without active
    files and 0.3 for a message without files. *)
Theorem file_relevance_in_range (message : ConversationMessage)
  (activeFiles : list string) :
  (0 <= ContextAnalyzer.calculateFileRelevanceScore message activeFiles)%Q
  ∧ (ContextAnalyzer.calculateFileRelevanceScore message activeFiles <= 1)%Q
  ∧ (activeFiles ≠ [] -> fileReferences (metadata message) ≠ [] ->
     ((ContextAnalyzer.calculateFileRelevanceScore message activeFiles == 1)%Q
      <-> forall file, file ∈ fileReferences (metadata message) -> file ∈ activeFiles)).
Proof.
  unfold ContextAnalyzer.calculateFileRelevanceScore. cbv zeta.
  set (messageFiles := list_to_set (fileReferences (metadata message)) : gset string).
  set (activeFileSet := list_to_set activeFiles : gset string).
  set (relevant := filter (fun file => file ∈ activeFileSet) messageFiles).
  assert (Hsub : relevant ⊆ messageFiles) by (subst relevant; set_solver).
  pose proof (subseteq_size _ _ Hsub) as Hsize.
  destruct (length activeFiles =? 0)%nat eqn:Ea.
  { split_and!; [done|done|]. intros Hne. apply Nat.eqb_eq in Ea.
    by destruct activeFiles. }
  destruct (0 <? size messageFiles)%nat eqn:Em.
  - apply Nat.ltb_lt in Em. split_and!.
    + apply ratio_nonneg; lia.
    + apply ratio_le_1; lia.
    + intros _ _. split.
      * intros Heq file Hin.
        assert (Hs : size relevant = size messageFiles).
        { unfold Qeq, Qdiv, Qmult, Qinv, inject_Z in Heq.
          destruct (size messageFiles) eqn:E; [lia|]. simpl in Heq. lia. }
        assert (Heqs : relevant = messageFiles).
        { apply set_eq. intros x. split; [by apply Hsub|]. intros Hx.
          destruct (decide (x ∈ relevant)) as [|Hn]; [done|exfalso].
          assert (Hlt : (size relevant < size messageFiles)%nat).
          { apply subset_size. set_solver. }
          lia. }
        assert (Hf : file ∈ relevant).
        { rewrite Heqs. subst messageFiles. by apply elem_of_list_to_set. }
        subst relevant. apply elem_of_filter in Hf as [Hf _].
        subst activeFileSet. by apply elem_of_list_to_set in Hf.
      * intros Hall.
        assert (Heqs : relevant = messageFiles).
        { apply set_eq. intros x. split; [by apply Hsub|]. intros Hx.
          subst relevant. apply elem_of_filter. split; [|done].
          subst activeFileSet messageFiles. apply elem_of_list_to_set.
          apply Hall. by apply elem_of_list_to_set in Hx. }
        rewrite Heqs. apply Qmult_inv_r.
        intros H. unfold Qeq, inject_Z in H. simpl in H. lia.
  - split_and!; [done|done|]. intros _ Hne. apply Nat.ltb_ge in Em.
    assert (Hempty : messageFiles ≡ ∅) by (apply size_empty_iff; lia).
    destruct (fileReferences (metadata message)) as [|f l] eqn:Ef; [done|].
    subst messageFiles. set_solver.
Qed.

(** X22. The estimated reduction is a percentage: at least 0 and below 100;
    it is 0 exactly when the tokens of the context fit the budget of the
    strategy; and a more aggressive strategy never estimates less. *)
Theorem estimated_reduction_is_a_percentage (context : ConversationContext)
  (strategy : ContextAnalyzer.StrategyName) :
  (0 <= ContextAnalyzer.estimateReduction context strategy)%Q
  ∧ (ContextAnalyzer.estimateReduction context strategy < 100)%Q
  ∧ ((ContextAnalyzer.estimateReduction context strategy == 0)%Q
     <-> totalTokens context
         <= maxTokens (ContextAnalyzer.DEFAULT_STRATEGIES strategy))
  ∧ (ContextAnalyzer.estimateReduction context ContextAnalyzer.conservative
     <= ContextAnalyzer.estimateReduction context ContextAnalyzer.balanced)%Q
  ∧ (ContextAnalyzer.estimateReduction context ContextAnalyzer.balanced
     <= ContextAnalyzer.estimateReduction context ContextAnalyzer.aggressive)%Q.
Proof.
  assert (Hbudget : forall s, 50000 <= maxTokens (ContextAnalyzer.DEFAULT_STRATEGIES s)).
  { intros []; simpl; lia. }
  assert (Hform : forall s,
    let m := maxTokens (ContextAnalyzer.DEFAULT_STRATEGIES s) in
    ContextAnalyzer.estimateReduction context s
    = if totalTokens context <=? m then 0%Q
      else (inject_Z (totalTokens context - m) / inject_Z (totalTokens context) * 100)%Q)
    by done.
  assert (Hpos : forall s,
    maxTokens (ContextAnalyzer.DEFAULT_STRATEGIES s) < totalTokens context ->
    (0 < inject_Z (totalTokens context
                   - maxTokens (ContextAnalyzer.DEFAULT_STRATEGIES s))
         / inject_Z (totalTokens context) * 100)%Q).
  { intros s Hlt. specialize (Hbudget s).
    apply Qmult_lt_0_compat; [|done]. apply Qlt_shift_div_l.
    - change 0%Q with (inject_Z 0). rewrite <- Zlt_Qlt. lia.
    - rewrite Qmult_0_l. change 0%Q with (inject_Z 0). rewrite <- Zlt_Qlt. lia. }
  assert (Hmono : forall s s',
    maxTokens (ContextAnalyzer.DEFAULT_STRATEGIES s')
    <= maxTokens (ContextAnalyzer.DEFAULT_STRATEGIES s) ->
    (ContextAnalyzer.estimateReduction context s
     <= ContextAnalyzer.estimateReduction context s')%Q).
  { intros s s' Hle. rewrite !Hform. cbv zeta.
    pose proof (Hbudget s). pose proof (Hbudget s').
    destruct (_ <=? maxTokens (_ s)) eqn:E, (_ <=? maxTokens (_ s')) eqn:E';
      try apply Z.leb_le in E; try apply Z.leb_le in E';
      try apply Z.leb_gt in E; try apply Z.leb_gt in E'.
    - done.
    - apply Qlt_le_weak. by apply Hpos.
    - lia.
    - apply Qmult_le_compat_r; [|done]. apply ratio_mono; lia. }
  split_and!.
  - rewrite Hform. cbv zeta. destruct (_ <=? _) eqn:E; [done|].
    apply Z.leb_gt in E. apply Qlt_le_weak. by apply Hpos.
  - rewrite Hform. cbv zeta. destruct (_ <=? _) eqn:E; [done|].
    apply Z.leb_gt in E. specialize (Hbudget strategy).
    change 100%Q with (1 * 100)%Q at 2. apply Qmult_lt_compat_r; [done|].
    apply ratio_lt_1; lia.
  - rewrite Hform. cbv zeta. destruct (_ <=? _) eqn:E.
    + apply Z.leb_le in E. done.
    + apply Z.leb_gt in E. split; [|lia]. intros Heq.
      pose proof (Hpos strategy E) as H. rewrite Heq in H. by apply Qlt_irrefl in H.
  - apply Hmono. simpl. lia.
  - apply Hmono. simpl. lia.
Qed.

(** X23. For an index inside the list, the context window of a message
    runs from [max 0 (index - size)] to [min length (index + size + 1)]: it
    holds the message itself, at most [size] messages before it and at most
    [size] after it, in the order of the list. *)
Theorem recent_context_window (messageIndex windowSize : Z)
  (allMessages : list ConversationMessage) :
  0 <= messageIndex < Z.of_nat (length allMessages) -> 0 <= windowSize ->
  let window := ContextAnalyzer.getRecentContext messageIndex allMessages windowSize in
  let start := Z.max 0 (messageIndex - windowSize) in
  Z.of_nat (length window)
  = Z.min (Z.of_nat (length allMessages)) (messageIndex + windowSize + 1) - start
  ∧ Z.of_nat (length window) <= 2 * windowSize + 1
  ∧ (forall j, (j < length window)%nat ->
               window !! j = allMessages !! (Z.to_nat start + j)%nat)
  ∧ window !! Z.to_nat (messageIndex - start) = allMessages !! Z.to_nat messageIndex.
Proof.
  intros Hi Hw. cbv zeta.
  unfold ContextAnalyzer.getRecentContext, ContextAnalyzer.slice. cbv zeta.
  set (start := Z.max 0 (messageIndex - windowSize)).
  set (end_ := Z.min _ _).
  assert (Hlen : length (take (Z.to_nat (end_ - start)) (drop (Z.to_nat start) allMessages))
                 = Z.to_nat (end_ - start)).
  { rewrite length_take, length_drop. lia. }
  rewrite Hlen. split_and!; [lia|lia| |].
  - intros j Hj. rewrite lookup_take_lt by lia. by rewrite lookup_drop.
  - rewrite lookup_take_lt by lia. rewrite lookup_drop. f_equal. lia.
Qed.

Lemma recent_context_window_witness :
  let allMessages := Examples.testMessages in
  let window := ContextAnalyzer.getRecentContext 1 allMessages 3 in
  let start := Z.max 0 (1 - 3) in
  (0 <= 1 < Z.of_nat (length allMessages) ∧ 0 <= 3)
  ∧ (Z.of_nat (length window)
     = Z.min (Z.of_nat (length allMessages)) (1 + 3 + 1) - start
     ∧ Z.of_nat (length window) <= 2 * 3 + 1
     ∧ (forall j, (j < length window)%nat ->
                  window !! j = allMessages !! (Z.to_nat start + j)%nat)
     ∧ window !! Z.to_nat (1 - start) = allMessages !! Z.to_nat 1).
Proof.
  cbv zeta. split; [simpl; lia|].
  apply (recent_context_window 1 3 Examples.testMessages); simpl; lia.
Defined.

(** ** Topic breaks *)

(** The test of [hasSignificantFileContextChange], on integers. *)
Lemma hasSignificantFileContextChange_iff (oldFiles newFiles : gset string) :
  Summarizer.hasSignificantFileContextChange oldFiles newFiles = true
  <-> size oldFiles ≠ 0%nat
      ∧ (10 * size (oldFiles ∩ newFiles) < 3 * size (oldFiles ∪ newFiles))%nat.
Proof.
  unfold Summarizer.hasSignificantFileContextChange.
  destruct (size oldFiles =? 0)%nat eqn:E.
  { apply Nat.eqb_eq in E. split; [done|]. by intros [? _]. }
  apply Nat.eqb_neq in E. cbv zeta.
  assert (Hu : (size oldFiles <= size (oldFiles ∪ newFiles))%nat).
  { apply subseteq_size. set_solver. }
  destruct (size (oldFiles ∪ newFiles)) as [|u] eqn:Eu; [lia|].
  generalize (size (oldFiles ∩ newFiles)). intros i.
  unfold Qltb. rewrite negb_true_iff. split.
  - intros H. split; [done|].
    destruct (decide (10 * i < 3 * S u)%nat) as [|Hge]; [done|exfalso].
    assert (Hle : Qle_bool (3 # 10) (inject_Z (Z.of_nat i) / inject_Z (Z.of_nat (S u)))
                  = true).
    { apply Qle_bool_iff. apply Qle_shift_div_l.
      - change 0%Q with (inject_Z 0). rewrite <- Zlt_Qlt. lia.
      - unfold Qle, Qmult, inject_Z. simpl Qnum. simpl Qden. lia. }
    congruence.
  - intros [_ Hlt]. apply not_true_is_false. intros Hle%Qle_bool_iff.
    assert (Hq : (inject_Z (Z.of_nat i) / inject_Z (Z.of_nat (S u)) < 3 # 10)%Q).
    { apply Qlt_shift_div_r.
      - change 0%Q with (inject_Z 0). rewrite <- Zlt_Qlt. lia.
      - unfold Qlt, Qmult, inject_Z. simpl Qnum. simpl Qden. lia. }
    by apply Qlt_not_le in Hq.
Qed.

Lemma topicStep_fileless segments m (lastFiles : gset string) message :
  lastFiles ≠ ∅ -> fileReferences (metadata message) = [] ->
  Summarizer.topicStep ((segments, [m]), lastFiles) message
  = ((segments ++ [[m]], [message]), lastFiles).
Proof.
  intros Hne Hrefs. unfold Summarizer.topicStep. rewrite Hrefs, list_to_set_nil.
  assert (Hchange : Summarizer.hasSignificantFileContextChange lastFiles ∅ = true).
  { apply hasSignificantFileContextChange_iff. split.
    - intros H%size_empty_iff. apply Hne. by apply leibniz_equiv.
    - replace (lastFiles ∩ ∅) with (∅ : gset string) by set_solver.
      rewrite size_empty.
      assert (size (lastFiles ∪ ∅) ≠ 0%nat); [|lia].
      intros H%size_empty_iff. apply Hne. apply leibniz_equiv. set_solver. }
  rewrite Hchange. cbn [andb length Nat.ltb Nat.leb app].
  replace (lastFiles ∪ ∅) with lastFiles by set_solver. reflexivity.
Qed.

(** X24. After a message that names a file, every message that names none
    breaks the topic: a conversation of one message with file references
    followed by messages without any is cut into segments of one message
    each (the set of files seen so far is not emptied at a break, and the
    overlap with no files is zero). *)
Theorem fileless_messages_split_topics
  (first : ConversationMessage) (rest : list ConversationMessage) :
  fileReferences (metadata first) ≠ [] ->
  Forall (fun m => fileReferences (metadata m) = []) rest ->
  Summarizer.segmentByTopic (first :: rest) = map (fun m => [m]) (first :: rest).
Proof.
  intros Hfirst Hrest. unfold Summarizer.segmentByTopic. cbn [foldl].
  set (files := list_to_set (fileReferences (metadata first)) : gset string).
  assert (Hfiles : files ≠ ∅).
  { subst files. destruct (fileReferences (metadata first)) as [|f l]; [done|].
    set_solver. }
  assert (Hstart : Summarizer.topicStep (([], []), ∅) first = (([], [first]), files)).
  { unfold Summarizer.topicStep. fold files.
    assert (Hno : Summarizer.hasSignificantFileContextChange ∅ files = false).
    { apply not_true_is_false. intros [H _]%hasSignificantFileContextChange_iff.
      by rewrite size_empty in H. }
    rewrite Hno. cbn [andb app length Nat.leb].
    replace (∅ ∪ files) with files by set_solver. reflexivity. }
  rewrite Hstart. clear Hstart Hfirst. clearbody files.
  change (map (fun m => [m]) (first :: rest))
    with ([] ++ map (fun m : ConversationMessage => [m]) (first :: rest)).
  generalize (@nil (list ConversationMessage)) as segments.
  revert first. induction Hrest as [|message rest Hm Hrest IH]; intros m segments.
  - reflexivity.
  - cbn [foldl]. rewrite topicStep_fileless by done. rewrite IH.
    cbn [map]. by rewrite <- app_assoc.
Qed.

Lemma fileless_messages_split_topics_witness :
  let first :=
    {| id := "msg_1"; timestamp := 0; type := file_operation; role := assistant;
       content := "Edited the parser";
       metadata := {| tokenCount := 5; fileReferences := ["src/parser.ts"];
                      codeBlocks := []; hasError := false; toolsUsed := [];
                      importance := None |} |} in
  let rest := Examples.twins in
  (fileReferences (metadata first) ≠ []
   ∧ Forall (fun m => fileReferences (metadata m) = []) rest)
  ∧ Summarizer.segmentByTopic (first :: rest) = map (fun m => [m]) (first :: rest).
Proof.
  cbv zeta. split.
  - split; [done|]. repeat constructor.
  - apply fileless_messages_split_topics; [done|]. repeat constructor.
Defined.

(** ** Rounding to double precision *)

Lemma pow2_pos e : (0 < pow2 e)%Q.
Proof.
  unfold pow2. destruct (0 <=? e) eqn:E.
  - change 0%Q with (inject_Z 0). rewrite <- Zlt_Qlt. apply Z.pow_pos_nonneg; lia.
  - apply Qinv_lt_0_compat. change 0%Q with (inject_Z 0). rewrite <- Zlt_Qlt.
    apply Z.pow_pos_nonneg; lia.
Qed.

Lemma roundHalfEven_le (q : Q) (z : Z) :
  (q <= inject_Z z)%Q -> roundHalfEven q <= z.
Proof.
  intros H. unfold roundHalfEven.
  pose proof (Qfloor_le q) as Hfl. pose proof (Qlt_floor q) as Hlt.
  assert (Hf : Qfloor q <= z).
  { rewrite Zle_Qle. by eapply Qle_trans. }
  destruct (Z.eq_dec (Qfloor q) z) as [E|E].
  - assert (Heq : (q - inject_Z (Qfloor q) <= 0)%Q).
    { rewrite E. apply (Qplus_le_l _ _ (inject_Z z)).
      assert (Hr : (q - inject_Z z + inject_Z z == q)%Q) by ring.
      by rewrite Hr, Qplus_0_l. }
    assert (Hc : (q - inject_Z (Qfloor q) ?= 1 # 2)%Q = Lt).
    { apply Qlt_alt. eapply Qle_lt_trans; [exact Heq|done]. }
    rewrite Hc. lia.
  - destruct (_ ?= _)%Q; [destruct (Z.even _)|..]; lia.
Qed.

Lemma roundHalfEven_ge (q : Q) (z : Z) :
  (inject_Z z <= q)%Q -> z <= roundHalfEven q.
Proof.
  intros H. unfold roundHalfEven.
  assert (Hf : z <= Qfloor q).
  { rewrite <- (Qfloor_Z z). by apply Qfloor_resp_le. }
  destruct (_ ?= _)%Q; [destruct (Z.even _)|..]; lia.
Qed.

Lemma binade_small (q : Q) :
  (0 < q)%Q -> (q < inject_Z (2 ^ 53))%Q -> binade q <= 52.
Proof.
  intros Hpos Hlt. unfold binade.
  destruct q as [n d]. cbn [Qnum Qden].
  assert (Hn : 0 < n).
  { unfold Qlt in Hpos. simpl in Hpos. lia. }
  assert (Hnd : n < 2 ^ 53 * Z.pos d).
  { unfold Qlt, inject_Z in Hlt. cbn [Qnum Qden] in Hlt. lia. }
  pose proof (Z.log2_spec (Z.pos d) ltac:(lia)) as [Hd1 Hd2].
  pose proof (Z.log2_nonneg (Z.pos d)) as Hc.
  assert (Ha : Z.log2 n < Z.log2 (Z.pos d) + 54).
  { apply Z.log2_lt_pow2; [done|].
    replace (Z.log2 (Z.pos d) + 54) with (53 + Z.succ (Z.log2 (Z.pos d))) by lia.
    rewrite Z.pow_add_r by lia. nia. }
  destruct (Qle_bool _ _) eqn:E; [|lia].
  destruct (Z.le_gt_cases (Z.log2 n - Z.log2 (Z.pos d)) 52) as [?|Hbig]; [done|].
  exfalso. apply Qle_bool_iff in E.
  assert (Hk : Z.log2 n - Z.log2 (Z.pos d) = 53) by lia.
  rewrite Hk in E. unfold pow2 in E. cbn [Z.leb Z.compare] in E.
  apply (Qlt_not_le _ _ Hlt). exact E.
Qed.

Lemma div_pow2 (k e : Z) :
  e <= 0 -> (inject_Z k / pow2 e == inject_Z (k * 2 ^ (- e)))%Q.
Proof.
  intros He. unfold pow2. destruct (0 <=? e) eqn:E.
  - apply Z.leb_le in E. assert (e = 0) as -> by lia.
    change (2 ^ 0) with 1. change (2 ^ (- 0)) with 1. rewrite Z.mul_1_r.
    unfold Qdiv. change (/ inject_Z 1)%Q with 1%Q. apply Qmult_1_r.
  - unfold Qdiv. rewrite Qinv_involutive, inject_Z_mult. reflexivity.
Qed.

(** For [0 < q < 2 ^ 53], rounding goes to a multiple of [2 ^ e] with
    [e <= 0], and does not pass an integer. *)
Lemma roundPositive_le (q : Q) (k : Z) :
  (0 < q)%Q -> (q <= inject_Z k)%Q -> k < 2 ^ 53 -> (roundPositive q <= inject_Z k)%Q.
Proof.
  intros Hpos Hle Hk.
  assert (Hb : binade q <= 52).
  { apply binade_small; [done|]. eapply Qle_lt_trans; [exact Hle|].
    by rewrite <- Zlt_Qlt. }
  unfold roundPositive. cbv zeta.
  set (e := binade q - 52). assert (He : e <= 0) by (subst e; lia).
  pose proof (pow2_pos e) as Hp.
  pose proof (div_pow2 k e He) as Hint.
  assert (Hm : roundHalfEven (q / pow2 e) <= k * 2 ^ (- e)).
  { apply roundHalfEven_le. rewrite <- Hint.
    apply Qmult_le_compat_r; [done|]. apply Qinv_le_0_compat. by apply Qlt_le_weak. }
  apply Qle_trans with (inject_Z (k * 2 ^ (- e)) * pow2 e)%Q.
  - apply Qmult_le_compat_r; [by rewrite <- Zle_Qle|by apply Qlt_le_weak].
  - rewrite <- Hint. unfold Qdiv. rewrite <- Qmult_assoc.
    rewrite (Qmult_comm (/ pow2 e)), Qmult_inv_r, Qmult_1_r; [apply Qle_refl|].
    intros H0. rewrite H0 in Hp. by apply Qlt_irrefl in Hp.
Qed.

Lemma roundPositive_ge (q : Q) (k : Z) :
  (inject_Z k <= q)%Q -> (q < inject_Z (2 ^ 53))%Q -> 0 < k ->
  (inject_Z k <= roundPositive q)%Q.
Proof.
  intros Hle Hq Hk.
  assert (Hpos : (0 < q)%Q).
  { eapply Qlt_le_trans; [|exact Hle]. change 0%Q with (inject_Z 0).
    by rewrite <- Zlt_Qlt. }
  assert (Hb : binade q <= 52) by (by apply binade_small).
  unfold roundPositive. cbv zeta.
  set (e := binade q - 52). assert (He : e <= 0) by (subst e; lia).
  pose proof (pow2_pos e) as Hp.
  pose proof (div_pow2 k e He) as Hint.
  assert (Hm : k * 2 ^ (- e) <= roundHalfEven (q / pow2 e)).
  { apply roundHalfEven_ge. rewrite <- Hint.
    apply Qmult_le_compat_r; [done|]. apply Qinv_le_0_compat. by apply Qlt_le_weak. }
  apply Qle_trans with (inject_Z (k * 2 ^ (- e)) * pow2 e)%Q.
  - rewrite <- Hint. unfold Qdiv. rewrite <- Qmult_assoc.
    rewrite (Qmult_comm (/ pow2 e)), Qmult_inv_r, Qmult_1_r; [apply Qle_refl|].
    intros H0. rewrite H0 in Hp. by apply Qlt_irrefl in Hp.
  - apply Qmult_le_compat_r; [by rewrite <- Zle_Qle|by apply Qlt_le_weak].
Qed.

Lemma roundPositive_nonneg (q : Q) : (0 <= q)%Q -> (0 <= roundPositive q)%Q.
Proof.
  intros H. unfold roundPositive. cbv zeta. apply Qmult_le_0_compat.
  - change 0%Q with (inject_Z 0). rewrite <- Zle_Qle. apply roundHalfEven_ge.
    apply Qle_shift_div_l; [apply pow2_pos|]. by rewrite Qmult_0_l.
  - apply Qlt_le_weak, pow2_pos.
Qed.

(** Rounding does not pass zero, nor an integer below [2 ^ 53]. *)
Lemma toDouble_nonneg (q : Q) : (0 <= q)%Q -> (0 <= toDouble q)%Q.
Proof.
  intros H. unfold toDouble. rewrite Qred_correct.
  destruct q as [[|n|n] d]; cbn [Qnum].
  - apply Qle_refl.
  - by apply roundPositive_nonneg.
  - unfold Qle in H. simpl in H. lia.
Qed.

Lemma toDouble_le (q : Q) (k : Z) :
  (q <= inject_Z k)%Q -> 0 <= k < 2 ^ 53 -> (toDouble q <= inject_Z k)%Q.
Proof.
  intros H Hk. unfold toDouble. rewrite Qred_correct.
  destruct q as [[|n|n] d] eqn:Eq; cbn [Qnum].
  - change 0%Q with (inject_Z 0). rewrite <- Zle_Qle. lia.
  - apply roundPositive_le; [done|done|lia].
  - apply Qle_trans with 0%Q.
    + change 0%Q with (- 0)%Q. apply Qopp_le_compat.
      apply roundPositive_nonneg. done.
    + change 0%Q with (inject_Z 0). rewrite <- Zle_Qle. lia.
Qed.

Lemma toDouble_ge (k : Z) : 0 <= k < 2 ^ 53 -> (inject_Z k <= toDouble (inject_Z k))%Q.
Proof.
  intros Hk. unfold toDouble. rewrite Qred_correct.
  destruct k as [|p|p]; cbn [Qnum inject_Z]; [apply Qle_refl| |lia].
  apply (roundPositive_ge (inject_Z (Z.pos p)) (Z.pos p)).
  - apply Qle_refl.
  - rewrite <- Zlt_Qlt. lia.
  - lia.
Qed.

(** ** The recommendation *)

(** X25. The recommendation is monotone in the number of tokens: with the
    same average importance and redundancy, the budget of the strategy
    recommended for a context with more tokens is never larger; and the
    conservative strategy is only recommended to a context that fits its
    budget. *)
Theorem recommendation_monotone_in_tokens (tokens tokens' : Z)
  (averageImportance redundancyScore : Q) :
  tokens <= tokens' ->
  maxTokens (ContextAnalyzer.DEFAULT_STRATEGIES
               (ContextAnalyzer.recommendStrategy tokens' averageImportance
                  redundancyScore))
  <= maxTokens (ContextAnalyzer.DEFAULT_STRATEGIES
                  (ContextAnalyzer.recommendStrategy tokens averageImportance
                     redundancyScore))
  ∧ (ContextAnalyzer.recommendStrategy tokens averageImportance redundancyScore
     ≠ ContextAnalyzer.conservative
     ∨ tokens <= maxTokens
                   (ContextAnalyzer.DEFAULT_STRATEGIES ContextAnalyzer.conservative)).
Proof.
  intros Hle. unfold ContextAnalyzer.recommendStrategy.
  destruct (150000 <? tokens) eqn:E1, (150000 <? tokens') eqn:E1',
    (100000 <? tokens) eqn:E2, (100000 <? tokens') eqn:E2';
    try apply Z.ltb_lt in E1; try apply Z.ltb_lt in E1';
    try apply Z.ltb_lt in E2; try apply Z.ltb_lt in E2';
    try apply Z.ltb_ge in E1; try apply Z.ltb_ge in E1';
    try apply Z.ltb_ge in E2; try apply Z.ltb_ge in E2';
    try lia;
    destruct (Qgtb redundancyScore (4 # 10)), (Qltb averageImportance (4 # 10));
    cbn [orb]; (split; [simpl; lia|]);
    first [left; discriminate|right; simpl; lia].
Qed.

(** The witness of X25: 90000 tokens are recommended the conservative
    strategy and 160000 the aggressive one. *)
Lemma recommendation_monotone_in_tokens_witness :
  let averageImportance := (1 # 2)%Q in
  let redundancyScore := (1 # 10)%Q in
  90000 <= 160000
  ∧ ContextAnalyzer.recommendStrategy 90000 averageImportance redundancyScore
    = ContextAnalyzer.conservative
  ∧ ContextAnalyzer.recommendStrategy 160000 averageImportance redundancyScore
    = ContextAnalyzer.aggressive
  ∧ (maxTokens (ContextAnalyzer.DEFAULT_STRATEGIES
                  (ContextAnalyzer.recommendStrategy 160000 averageImportance
                     redundancyScore))
     <= maxTokens (ContextAnalyzer.DEFAULT_STRATEGIES
                     (ContextAnalyzer.recommendStrategy 90000 averageImportance
                        redundancyScore))
     ∧ (ContextAnalyzer.recommendStrategy 90000 averageImportance redundancyScore
        ≠ ContextAnalyzer.conservative
        ∨ 90000 <= maxTokens
                     (ContextAnalyzer.DEFAULT_STRATEGIES ContextAnalyzer.conservative))).
Proof.
  cbv zeta. split; [lia|]. split; [reflexivity|]. split; [reflexivity|].
  apply (recommendation_monotone_in_tokens 90000 160000). lia.
Defined.

(** ** The average importance *)

Lemma importance_sum_bounds (messages : list ConversationMessage) (sum : Q) (j : Z) :
  (forall m, m ∈ messages -> (0 <= importanceTotal m)%Q ∧ (importanceTotal m <= 1)%Q) ->
  (0 <= sum)%Q -> (sum <= inject_Z j)%Q ->
  0 <= j -> j + Z.of_nat (length messages) < 2 ^ 53 ->
  let total :=
    foldl (fun sum message => doubleAdd sum (importanceTotal message)) sum messages in
  (0 <= total)%Q ∧ (total <= inject_Z (j + Z.of_nat (length messages)))%Q.
Proof.
  revert sum j. induction messages as [|m l IH]; intros sum j Hall H0 Hj Hj0 Hlen.
  - simpl. by rewrite Z.add_0_r.
  - cbn [foldl]. cbn [length] in Hlen |- *.
    destruct (Hall m) as [Hlo Hhi]; [left|].
    assert (Hs : (toDouble sum <= inject_Z j)%Q) by (apply toDouble_le; [done|lia]).
    assert (Hx : (toDouble (importanceTotal m) <= inject_Z 1)%Q)
      by (apply toDouble_le; [done|lia]).
    pose proof (toDouble_nonneg _ H0) as Hs0.
    pose proof (toDouble_nonneg _ Hlo) as Hx0.
    destruct (IH (doubleAdd sum (importanceTotal m)) (j + 1)) as [H1 H2].
    + intros x Hx'. apply Hall. by right.
    + apply toDouble_nonneg. apply Qle_trans with (0 + 0)%Q; [done|].
      by apply Qplus_le_compat.
    + apply toDouble_le; [|lia]. rewrite inject_Z_plus.
      by apply Qplus_le_compat.
    + lia.
    + lia.
    + cbv zeta in *. split; [done|].
      replace (j + Z.of_nat (S (length l))) with (j + 1 + Z.of_nat (length l)) by lia.
      done.
Qed.

(** X26. When the importance score of every message lies between 0 and 1
    (a message without a score counts as 0) and there are fewer than
    [2 ^ 53] messages, the average importance, a sum and a quotient in
    double precision, lies between 0 and 1. *)
Theorem average_importance_within_bounds (messages : list ConversationMessage) :
  (forall m, m ∈ messages -> (0 <= importanceTotal m)%Q ∧ (importanceTotal m <= 1)%Q) ->
  Z.of_nat (length messages) < 2 ^ 53 ->
  (0 <= ContextAnalyzer.calculateAverageImportance messages)%Q
  ∧ (ContextAnalyzer.calculateAverageImportance messages <= 1)%Q.
Proof.
  intros Hall Hlen. unfold ContextAnalyzer.calculateAverageImportance.
  destruct (length messages =? 0)%nat eqn:E; [done|].
  apply Nat.eqb_neq in E. cbv zeta.
  destruct (importance_sum_bounds messages 0 0 Hall) as [H1 H2]; try done.
  cbv zeta in H1, H2. rewrite Z.add_0_l in H2.
  set (total := foldl _ _ _) in *. unfold doubleDiv.
  assert (Ht : (toDouble total <= inject_Z (Z.of_nat (length messages)))%Q)
    by (apply toDouble_le; [done|lia]).
  pose proof (toDouble_nonneg _ H1) as Ht0.
  assert (Hn : (inject_Z (Z.of_nat (length messages))
                <= toDouble (inject_Z (Z.of_nat (length messages))))%Q)
    by (apply toDouble_ge; lia).
  assert (Hpos : (0 < toDouble (inject_Z (Z.of_nat (length messages))))%Q).
  { eapply Qlt_le_trans; [|exact Hn]. change 0%Q with (inject_Z 0).
    rewrite <- Zlt_Qlt. lia. }
  split.
  - apply toDouble_nonneg. apply Qle_shift_div_l; [done|]. by rewrite Qmult_0_l.
  - apply (toDouble_le _ 1); [|lia]. apply Qle_shift_div_r; [done|].
    rewrite Qmult_1_l. by eapply Qle_trans.
Qed.

(** The witness of X26: three messages with a score of [0.7]; their
    average is [0.6999999999999998], below [0.7]. *)
Lemma average_importance_within_bounds_witness :
  let messages := map (withImportance (Examples.score (7 # 10))) Examples.testMessages in
  ((forall m, m ∈ messages ->
      (0 <= importanceTotal m)%Q ∧ (importanceTotal m <= 1)%Q)
   ∧ Z.of_nat (length messages) < 2 ^ 53)
  ∧ ((0 <= ContextAnalyzer.calculateAverageImportance messages)%Q
     ∧ (ContextAnalyzer.calculateAverageImportance messages <= 1)%Q).
Proof.
  cbv zeta.
  assert (H : forall m,
    m ∈ map (withImportance (Examples.score (7 # 10))) Examples.testMessages ->
    (0 <= importanceTotal m)%Q ∧ (importanceTotal m <= 1)%Q).
  { intros m (x & -> & _)%list_elem_of_fmap. split; done. }
  assert (Hlen : Z.of_nat (length (map (withImportance (Examples.score (7 # 10)))
                                     Examples.testMessages)) < 2 ^ 53)
    by (vm_compute; reflexivity).
  split; [split; [exact H|exact Hlen]|].
  apply average_importance_within_bounds; [exact H|exact Hlen].
Defined.

Lemma average_importance_in_doubles :
  let messages := map (withImportance (Examples.score (7 # 10))) Examples.testMessages in
  ContextAnalyzer.calculateAverageImportance messages
  = (6305039478318693 # 9007199254740992)%Q
  ∧ (ContextAnalyzer.calculateAverageImportance messages < 7 # 10)%Q.
Proof. cbv zeta. split; vm_compute; reflexivity. Qed.
